(** * Scene composition and rendering engine: a shallow embedding

    The TypeScript sources embedded here are the scene types, the operation
    types, [scene-builder.ts], [operation-handlers.ts], the operation
    executor, the renderer and [scene_generator.ts].

    Conventions of the embedding.
    - A JavaScript number is a [number]: either [NaN] or an exact rational
      [Num q].  Finite doubles are idealised as rationals; infinities are not
      modelled (no modelled operation divides by a variable).  The scene
      generator is the exception: its conversions of units round, and they
      are computed on IEEE 754 doubles ([float], the binary64 numbers of the
      processor) with the operations of the source in their order.
    - A JavaScript string is a [string] of bytes; [toLowerCase] acts on the
      ASCII letters and white space is the ASCII white space.
    - A function that mutates one of its arguments returns the new value of
      that argument next to its result, also when it throws: an exception does
      not roll anything back.
    - [Date.now] and [Math.random], read by [generateId], the network
      request of [isGoogleFont] and the printing of a number that is not an
      integer are left to the host, gathered in [Host]; the number of ids
      generated so far (the "tick") indexes the first two. *)

From Stdlib Require Import PrimFloat FloatOps SpecFloat FloatAxioms.
From Stdlib Require Import ZArith QArith Qcanon Qround String Ascii List Bool Lia.
From Stdlib Require Import Permutation DecimalString DecimalZ Lqa.
From stdpp Require Import base option list gmap strings.
Import ListNotations.

Set Warnings "-register-all".
Set Warnings "-inexact-float".

Local Open Scope string_scope.
Local Open Scope list_scope.
Local Open Scope Z_scope.

(** ** JavaScript values *)

Inductive number : Type :=
| NaN
| Num (q : Qc).

Definition numZ (z : Z) : number := Num (Q2Qc (inject_Z z)).


(** [a === b] on numbers: [NaN] is not equal to itself. *)
Definition strict_eq (x y : number) : bool :=
  match x, y with
  | Num p, Num q => Qeq_bool (this p) (this q)
  | _, _ => false
  end.

Definition nlift2 (f : Qc -> Qc -> Qc) (x y : number) : number :=
  match x, y with
  | Num p, Num q => Num (f p q)
  | _, _ => NaN
  end.

Definition nadd : number -> number -> number := nlift2 Qcplus.
Definition nsub : number -> number -> number := nlift2 Qcminus.
Definition nmul : number -> number -> number := nlift2 Qcmult.

(** Division by a non-zero literal of the source ([/ 2], [/ 10], [/ 255]). *)
Definition ndivZ (x : number) (d : Z) : number :=
  match x with
  | Num p => Num (p / Q2Qc (inject_Z d))%Qc
  | NaN => NaN
  end.

(** The value of a parsed JSON document or of a handler's output.  An object
    is the list of its entries in property order, none of them named
    [__proto__]; [undefined] is the absence of a value ([None] of an
    [option JValue]). *)
Inductive JValue : Type :=
| JNull
| JBool (b : bool)
| JNum (n : number)
| JStr (s : string)
| JArr (items : list JValue)
| JObj (entries : list (string * JValue)).

(** ** Strings *)

Definition lower_ascii (c : ascii) : ascii :=
  let n := nat_of_ascii c in
  if ((65 <=? n) && (n <=? 90))%nat then ascii_of_nat (n + 32) else c.

Fixpoint toLowerCase (s : string) : string :=
  match s with
  | EmptyString => EmptyString
  | String c rest => String (lower_ascii c) (toLowerCase rest)
  end.

(** [s.substring(i, j)] for [i <= j]. *)
Definition js_substring (i j : nat) (s : string) : string :=
  String.substring i (j - i) s.

(** [String(z)] for an integer. *)
Definition showZ (z : Z) : string := NilZero.string_of_int (Z.to_int z).

Definition isWhiteSpace (c : ascii) : bool :=
  let n := nat_of_ascii c in
  ((9 <=? n) && (n <=? 13) || (n =? 32))%nat.

Fixpoint trimStart (s : string) : string :=
  match s with
  | String c rest => if isWhiteSpace c then trimStart rest else s
  | EmptyString => EmptyString
  end.

(** The value of a character as a digit, for radices up to 16. *)
Definition digitValue (c : ascii) : option Z :=
  let n := nat_of_ascii c in
  if ((48 <=? n) && (n <=? 57))%nat then Some (Z.of_nat (n - 48))
  else if ((97 <=? n) && (n <=? 102))%nat then Some (Z.of_nat (n - 87))
  else if ((65 <=? n) && (n <=? 70))%nat then Some (Z.of_nat (n - 55))
  else None.

(** The longest prefix of digits of the radix, read as an integer; [acc] is
    [None] until a digit has been read. *)
Fixpoint readDigits (radix : Z) (s : string) (acc : option Z) : option Z :=
  match s with
  | EmptyString => acc
  | String c rest =>
      match digitValue c with
      | Some d =>
          if d <? radix
          then readDigits radix rest (Some (default 0 acc * radix + d))
          else acc
      | None => acc
      end
  end.

Definition stripHexPrefix (s : string) : string :=
  match s with
  | String "0" (String "x" rest) => rest
  | String "0" (String "X" rest) => rest
  | _ => s
  end.

(** [parseInt(s, radix)] for radix 10 or 16: leading white space is skipped,
    a sign is read, radix 16 skips one [0x], then the longest prefix of digits
    is the value; no digit gives [NaN]. *)
Definition parseIntZ (s : string) (radix : Z) : option Z :=
  let t := trimStart s in
  let '(sign, body) :=
    match t with
    | String "-" rest => (-1, rest)
    | String "+" rest => (1, rest)
    | _ => (1, t)
    end in
  let body := if radix =? 16 then stripHexPrefix body else body in
  match readDigits radix body None with
  | Some v => Some (sign * v)
  | None => None
  end.

Definition parseInt (s : string) (radix : Z) : number :=
  match parseIntZ s radix with
  | Some v => numZ v
  | None => NaN
  end.

(** ** Errors (the operation types) *)

Inductive Error : Type :=
| ValidationError (message : string)
| APIError (message : string)
| ReferenceError (message : string)
| FileSystemError (message : string)
| PlainError (message : string).

Definition error_message (e : Error) : string :=
  match e with
  | ValidationError m | APIError m | ReferenceError m
  | FileSystemError m | PlainError m => m
  end.

Inductive Result (A : Type) : Type :=
| Ok (value : A)
| Throw (e : Error).
Arguments Ok {A} value.
Arguments Throw {A} e.

(** ** Scene types *)

Record Color : Type := mkColor {
  color_id : string;
  color_name : string;
  color_r : number;
  color_g : number;
  color_b : number;
  color_a : number
}.

Record Font : Type := mkFont {
  font_id : string;
  font_name : string;
  font_url : string
}.

Record Theme : Type := mkTheme {
  theme_id : string;
  theme_name : string;
  color_palette : list Color;
  font_palette : list Font
}.

Inductive DataItemType : Type := TextItem | ImageItem.

Record DataItem : Type := mkDataItem {
  item_id : string;
  item_type : DataItemType;
  display_name : string;
  content : option string;
  item_image_url : option string
}.

Record SceneData : Type := mkSceneData {
  scene_id : string;
  data_items : list DataItem
}.

(** [ElementStyle]: the entries of the style object, in property order. *)
Definition ElementStyle : Type := list (string * string).

Inductive ElementType : Type :=
| data_item | shape | svg | container | image.

Inductive ShapeType : Type := rectangle | circle.

(** [Element].  An absent [children] is the empty list: every function of the
    sources treats the two alike. *)
Inductive Element : Type := mkElement {
  element_id : string;
  element_type : ElementType;
  data_item_id : option string;
  shape_type : option ShapeType;
  svg_content : option string;
  image_url : option string;
  style : option ElementStyle;
  children : list Element
}.

Definition set_children (e : Element) (cs : list Element) : Element :=
  mkElement (element_id e) (element_type e) (data_item_id e) (shape_type e)
            (svg_content e) (image_url e) (style e) cs.

Definition set_style (e : Element) (st : option ElementStyle) : Element :=
  mkElement (element_id e) (element_type e) (data_item_id e) (shape_type e)
            (svg_content e) (image_url e) st (children e).

Definition is_container (e : Element) : bool :=
  match element_type e with container => true | _ => false end.

Definition is_data_item (e : Element) : bool :=
  match element_type e with data_item => true | _ => false end.

Record Canvas : Type := mkCanvas {
  width : number;
  height : number
}.

Record Template : Type := mkTemplate {
  template_id : string;
  template_name : string;
  canvas : Canvas;
  elements : list Element
}.

Definition set_elements (t : Template) (es : list Element) : Template :=
  mkTemplate (template_id t) (template_name t) (canvas t) es.

Definition set_canvas (t : Template) (c : Canvas) : Template :=
  mkTemplate (template_id t) (template_name t) c (elements t).

Record Scene : Type := mkScene {
  scene_data : SceneData;
  scene_template : Template;
  scene_theme : Theme
}.

(** ** [scene-builder.ts]: identifiers and the colour palette *)

Record Host : Type := mkHost {
  dateNow36 : nat -> string;
  mathRandom36 : nat -> string;
  fetchHeadOk : string -> bool;
  showFraction : Qc -> string
}.

Record RGBA : Type := mkRGBA {
  rgba_r : number;
  rgba_g : number;
  rgba_b : number;
  rgba_a : number
}.

Definition stripHash (s : string) : string :=
  match s with
  | String "#" rest => rest
  | _ => s
  end.

Definition hexToRGBA (hex : string) : Result RGBA :=
  let hex := stripHash hex in
  if (String.length hex =? 6)%nat then
    Ok (mkRGBA (parseInt (js_substring 0 2 hex) 16)
               (parseInt (js_substring 2 4 hex) 16)
               (parseInt (js_substring 4 6 hex) 16)
               (numZ 1))
  else if (String.length hex =? 8)%nat then
    Ok (mkRGBA (parseInt (js_substring 0 2 hex) 16)
               (parseInt (js_substring 2 4 hex) 16)
               (parseInt (js_substring 4 6 hex) 16)
               (ndivZ (parseInt (js_substring 6 8 hex) 16) 255))
  else Throw (ValidationError ("Invalid hex color: " +:+ hex)).

(** The predicate of [theme.color_palette.find] in [ensureColorInTheme]. *)
Definition sameRGBA (rgba : RGBA) (c : Color) : bool :=
  strict_eq (color_r c) (rgba_r rgba) && strict_eq (color_g c) (rgba_g rgba)
  && strict_eq (color_b c) (rgba_b rgba) && strict_eq (color_a c) (rgba_a rgba).

Definition set_color_palette (th : Theme) (p : list Color) : Theme :=
  mkTheme (theme_id th) (theme_name th) p (font_palette th).

Definition set_font_palette (th : Theme) (p : list Font) : Theme :=
  mkTheme (theme_id th) (theme_name th) (color_palette th) p.

Section Builder.
Context (env : Host).

(** [generateId(prefix)] at the given tick. *)
Definition generateId (tick : nat) (prefix : string) : string :=
  prefix +:+ "_" +:+ dateNow36 env tick +:+ "_" +:+ mathRandom36 env tick.

(** [ensureColorInTheme(theme, color)]: the result, the theme after the
    call and the tick after the call. *)
Definition ensureColorInTheme (tick : nat) (theme : Theme) (color : string)
  : Result string * Theme * nat :=
  match hexToRGBA color with
  | Throw e => (Throw e, theme, tick)
  | Ok rgba =>
      match List.find (sameRGBA rgba) (color_palette theme) with
      | Some existingColor => (Ok (color_id existingColor), theme, tick)
      | None =>
          if (16 <=? List.length (color_palette theme))%nat then
            (Throw (ValidationError "Color palette limit reached (max 16 colors)"),
             theme, tick)
          else
            let colorId := generateId tick "color" in
            let colorName :=
              "color_" +:+ showZ (Z.of_nat (List.length (color_palette theme)) + 1) in
            (Ok colorId,
             set_color_palette theme
               (color_palette theme ++
                [mkColor colorId colorName (rgba_r rgba) (rgba_g rgba)
                         (rgba_b rgba) (rgba_a rgba)]),
             S tick)
      end
  end.

(** ** Fonts *)

(** [s.replace(/\s+/g, '+')]: every maximal run of white space becomes one
    plus sign; [inRun] tells that the previous character was white space. *)
Fixpoint plusForSpacesFrom (inRun : bool) (s : string) : string :=
  match s with
  | EmptyString => EmptyString
  | String c rest =>
      if isWhiteSpace c then
        if inRun then plusForSpacesFrom true rest
        else String "+" (plusForSpacesFrom true rest)
      else String c (plusForSpacesFrom false rest)
  end.

Definition plusForSpaces (s : string) : string := plusForSpacesFrom false s.

Definition googleFontsUrl (fontName : string) : string :=
  "https://fonts.googleapis.com/css2?family=" +:+ plusForSpaces fontName
  +:+ ":wght@400;700&display=swap".

(** [isGoogleFont(fontName)] with the process-wide [googleFontCache]. *)
Definition isGoogleFont (cache : gmap string bool) (fontName : string)
  : bool * gmap string bool :=
  let key := toLowerCase fontName in
  match cache !! key with
  | Some available => (available, cache)
  | None =>
      let available := fetchHeadOk env (googleFontsUrl fontName) in
      (available, <[key := available]> cache)
  end.

Definition getFontUrl (cache : gmap string bool) (fontName : string)
  : string * gmap string bool :=
  let answer := isGoogleFont cache fontName in
  (if fst answer then googleFontsUrl fontName
   else "fonts/" +:+ fontName +:+ ".otf",
   snd answer).

(** The state [ensureFontInTheme] works on: the theme, the tick and the
    font cache. *)
Definition ensureFontInTheme (tick : nat) (cache : gmap string bool)
           (theme : Theme) (fontName : string)
  : Result string * Theme * nat * gmap string bool :=
  match List.find (fun f => String.eqb (toLowerCase (font_name f))
                                       (toLowerCase fontName))
                  (font_palette theme) with
  | Some existingFont => (Ok (font_id existingFont), theme, tick, cache)
  | None =>
      if (8 <=? List.length (font_palette theme))%nat then
        (Throw (ValidationError "Font palette limit reached (max 8 fonts)"),
         theme, tick, cache)
      else
        let fontId := generateId tick "font" in
        let fontUrl := getFontUrl cache fontName in
        (Ok fontId,
         set_font_palette theme
           (font_palette theme ++ [mkFont fontId fontName (fst fontUrl)]),
         S tick, snd fontUrl)
  end.

End Builder.

(** ** [scene-builder.ts]: the element tree *)

(** The loops of [findElement] and [removeElementFromArray] run over an array
    and call themselves on the [children] array of an element; the recursion
    is on the element here, with the loop over the array as a list traversal
    ([findElement_cons] and [removeElementFromArray_cons] below give the
    equations in the shape of the source). *)
Section ArrayLoops.
Context {A B : Type}.

(** The first element on which [f] answers. *)
Fixpoint firstSome (f : A -> option B) (l : list A) : option B :=
  match l with
  | [] => None
  | x :: rest =>
      match f x with
      | Some y => Some y
      | None => firstSome f rest
      end
  end.

(** The first element that is [here], which leaves the list, or in which
    [within] changes something, which is replaced by its new version. *)
Fixpoint changeFirst (here : A -> option (B * list A))
         (within : A -> option (B * A)) (l : list A)
  : option (B * list A) :=
  match l with
  | [] => None
  | x :: rest =>
      match here x with
      | Some (y, put) => Some (y, put ++ rest)
      | None =>
          match within x with
          | Some (y, x') => Some (y, x' :: rest)
          | None =>
              match changeFirst here within rest with
              | Some (y, rest') => Some (y, x :: rest')
              | None => None
              end
          end
      end
  end.
End ArrayLoops.

Fixpoint findElementIn (elementId : string) (element : Element)
  : option Element :=
  if String.eqb (element_id element) elementId then Some element
  else if is_container element then
    firstSome (findElementIn elementId) (children element)
  else None.

Definition findElement (elements : list Element) (elementId : string)
  : option Element :=
  firstSome (findElementIn elementId) elements.

(** [elements[i].element_id === elementId]: the element is spliced out. *)
Definition spliceHere (elementId : string) (element : Element)
  : option (Element * list Element) :=
  if String.eqb (element_id element) elementId then Some (element, [])
  else None.

(** The removal inside the children of a container that is not itself the
    element looked for: the removed element and the container after it. *)
Fixpoint removeWithin (elementId : string) (element : Element)
  : option (Element * Element) :=
  if is_container element then
    match changeFirst (spliceHere elementId) (removeWithin elementId)
                      (children element) with
    | Some (removed, children') => Some (removed, set_children element children')
    | None => None
    end
  else None.

(** [removeElementFromArray]: the removed element and the array after the
    splice, or [None] (the [null] of the source) with nothing changed. *)
Definition removeElementFromArray (elements : list Element) (elementId : string)
  : option (Element * list Element) :=
  changeFirst (spliceHere elementId) (removeWithin elementId) elements.

Definition removeElementFromTemplate (template : Template) (elementId : string)
  : option (Element * Template) :=
  match removeElementFromArray (elements template) elementId with
  | Some (removed, elements') => Some (removed, set_elements template elements')
  | None => None
  end.

(** The in-place [container.children.push(element)] on the object that
    [findElement] returned: the node reached first by the traversal of
    [findElement] gets the new child; [None] when [findElement] finds
    nothing. *)
Definition pushHere (containerId : string) (child element : Element)
  : option (unit * list Element) :=
  if String.eqb (element_id element) containerId then
    Some (tt, [set_children element (children element ++ [child])])
  else None.

Fixpoint pushWithin (containerId : string) (child element : Element)
  : option (unit * Element) :=
  if is_container element then
    match changeFirst (pushHere containerId child)
                      (pushWithin containerId child) (children element) with
    | Some (_, children') => Some (tt, set_children element children')
    | None => None
    end
  else None.

Definition pushChild (elements : list Element) (containerId : string)
           (child : Element) : option (list Element) :=
  match changeFirst (pushHere containerId child)
                    (pushWithin containerId child) elements with
  | Some (_, elements') => Some elements'
  | None => None
  end.

(** [addElementToContainer(template, elementId, containerId)]: the result and
    the template after the call. *)
Definition addElementToContainer (template : Template)
           (elementId containerId : string) : Result unit * Template :=
  match removeElementFromTemplate template elementId with
  | None => (Throw (ValidationError ("Element not found: " +:+ elementId)),
             template)
  | Some (element, template') =>
      match findElement (elements template') containerId with
      | None =>
          (Throw (ValidationError ("Container not found: " +:+ containerId)),
           template')
      | Some found =>
          if negb (is_container found) then
            (Throw (ValidationError
                      ("Element " +:+ containerId +:+ " is not a container")),
             template')
          else
            match pushChild (elements template') containerId element with
            | Some elements' => (Ok tt, set_elements template' elements')
            | None => (Ok tt, template')
            end
      end
  end.

(** ** [scene-builder.ts]: placeholders *)

Definition isDigit (c : ascii) : bool :=
  let n := nat_of_ascii c in ((48 <=? n) && (n <=? 57))%nat.

Fixpoint allDigits (s : string) : bool :=
  match s with
  | EmptyString => true
  | String c rest => isDigit c && allDigits rest
  end.

(** [s] without the prefix [p], when it starts with it. *)
Fixpoint stripPrefix (p s : string) : option string :=
  match p, s with
  | EmptyString, _ => Some s
  | String a p', String b s' => if Ascii.eqb a b then stripPrefix p' s' else None
  | String _ _, EmptyString => None
  end.

(** [params.match(/^\$output_of_step_(\d+)$/)]: the captured digits. *)
Definition matchPlaceholder (s : string) : option string :=
  match stripPrefix "$output_of_step_" s with
  | Some digits =>
      if negb (String.eqb digits "") && allDigits digits then Some digits
      else None
  | None => None
  end.

Section MapResult.
Context {A B : Type} (f : A -> Result B).

(** [array.map(f)] when [f] may throw: the first exception ends the map. *)
Fixpoint mapResult (l : list A) : Result (list B) :=
  match l with
  | [] => Ok []
  | x :: rest =>
      match f x with
      | Throw e => Throw e
      | Ok y =>
          match mapResult rest with
          | Throw e => Throw e
          | Ok ys => Ok (y :: ys)
          end
      end
  end.
End MapResult.

(** [resolveParameters(params, context)]; of the context only
    [operationOutputs] is read. *)
Fixpoint resolveParameters (operationOutputs : gmap Z JValue) (params : JValue)
  : Result JValue :=
  match params with
  | JStr s =>
      match matchPlaceholder s with
      | Some digits =>
          match parseIntZ digits 10 with
          | Some stepNum =>
              match operationOutputs !! stepNum with
              | Some output => Ok output
              | None =>
                  Throw (ValidationError
                           ("No output found for step " +:+ showZ stepNum))
              end
          | None => Throw (ValidationError "No output found for step NaN")
          end
      | None => Ok params
      end
  | JArr items =>
      match mapResult (resolveParameters operationOutputs) items with
      | Ok items' => Ok (JArr items')
      | Throw e => Throw e
      end
  | JObj entries =>
      match mapResult
              (fun entry : string * JValue =>
                 match resolveParameters operationOutputs (snd entry) with
                 | Ok value => Ok (fst entry, value)
                 | Throw e => Throw e
                 end) entries with
      | Ok resolved => Ok (JObj resolved)
      | Throw e => Throw e
      end
  | _ => Ok params
  end.

(** ** [scene-builder.ts]: anchors *)

Definition nzero : number := numZ 0.

Definition calculateAnchorPosition (anchor : string)
           (canvasWidth canvasHeight elementWidth elementHeight : number)
           (offsetX offsetY : number) : Result (number * number) :=
  let centerX := ndivZ (nsub canvasWidth elementWidth) 2 in
  let centerY := ndivZ (nsub canvasHeight elementHeight) 2 in
  let right := nsub canvasWidth elementWidth in
  let bottom := nsub canvasHeight elementHeight in
  let at_ (x y : number) := Ok (nadd x offsetX, nadd y offsetY) in
  let name := toLowerCase anchor in
  if String.eqb name "center" then at_ centerX centerY
  else if String.eqb name "top-left" then at_ nzero nzero
  else if String.eqb name "top-center" then at_ centerX nzero
  else if String.eqb name "top-right" then at_ right nzero
  else if String.eqb name "center-left" then at_ nzero centerY
  else if String.eqb name "center-right" then at_ right centerY
  else if String.eqb name "bottom-left" then at_ nzero bottom
  else if String.eqb name "bottom-center" then at_ centerX bottom
  else if String.eqb name "bottom-right" then at_ right bottom
  else Throw (ValidationError ("Unknown anchor point: " +:+ anchor)).

(** ** [scene_generator.ts]: units and the cap-height correction

    The numbers of this part are doubles; [x * y], [x / y], [x + y] and
    [x - y] are the operations of IEEE 754 binary64, each rounding to the
    nearest double, and a member that is [undefined] reads as [NaN] in
    arithmetic. *)

Local Open Scope float_scope.

(** [Math.round(x)]: the integer nearest to [x], the greater one at a tie.
    A finite double other than zero is [m * 2^e] for a mantissa [m] and an
    exponent [e], with the sign [s]; with [0 <= e] it is an integer already,
    and otherwise the result is the floor of [x + 1/2], computed on integers,
    with the sign of [x] when it is zero.  [NaN], the infinities and the
    zeros are returned as they are. *)
Definition math_round (x : float) : float :=
  match Prim2SF x with
  | S754_finite s m e =>
      if (0 <=? e)%Z then x
      else
        let twice := (if s then Z.neg m * 2 else Z.pos m * 2)%Z in
        match ((twice + 2 ^ (- e)) / 2 ^ (1 - e))%Z with
        | Z0 => if s then PrimFloat.neg_zero else PrimFloat.zero
        | Z.pos n => SF2Prim (S754_finite false n 0)
        | Z.neg n => SF2Prim (S754_finite true n 0)
        end
  | _ => x
  end.

Definition DPI : float := 300.
Definition MM_TO_PX : float := DPI / 25.4.
Definition PT_TO_PX : float := 300 / 72.

Definition mmToPx (mm : float) : float := math_round (mm * MM_TO_PX).

Definition ptToPx (pt : float) : float :=
  math_round (pt * PT_TO_PX * 10) / 10.

Record FontMetrics : Type := mkFontMetrics {
  ascent : float;
  descent : float;
  capHeight : float
}.

Definition metrics_arial : FontMetrics :=
  mkFontMetrics (1854 / 2048) (434 / 2048) (1467 / 2048).
Definition metrics_montserrat : FontMetrics :=
  mkFontMetrics (1006 / 1000) (194 / 1000) (700 / 1000).
Definition metrics_default : FontMetrics := mkFontMetrics 0.9 0.2 0.71.

(** What [FONT_METRICS[key]] finds on the prototype of the table when [key]
    is the name of a member of [Object.prototype]: an object whose [ascent],
    [descent] and [capHeight] are [undefined], which arithmetic reads as
    [NaN].  Of these names only two are in lower case. *)
Definition metrics_inherited : FontMetrics := mkFontMetrics nan nan nan.

(** [FONT_METRICS[fontName.toLowerCase()] || FONT_METRICS._default].  No key
    of the table and no name of an inherited member has a letter that is the
    lower case of a character outside ASCII, so that the lower case of the
    ASCII letters decides the key for every name. *)
Definition getFontMetrics (fontName : string) : FontMetrics :=
  let key := toLowerCase fontName in
  if String.eqb key "arial" then metrics_arial
  else if String.eqb key "montserrat" then metrics_montserrat
  else if String.eqb key "_default" then metrics_default
  else if String.eqb key "constructor" || String.eqb key "__proto__"
       then metrics_inherited
  else metrics_default.

Definition capHeightOffsetPx (fontName : string) (fontSizePx lineHeight : float)
  : float :=
  let m := getFontMetrics fontName in
  let halfLeading := (lineHeight - ascent m - descent m) * fontSizePx / 2 in
  halfLeading + (ascent m - capHeight m) * fontSizePx.

(** The fields of a [TextEntry] that the position of the text reads. *)
Record TextEntry : Type := mkTextEntry {
  fontName : string;
  fontSize : float;
  xMm : float;
  yMm : float;
  lineSpacing : float
}.

(** [yPx] of [generateScene], which becomes the [top] of the text element. *)
Definition entryYPx (entry : TextEntry) : float :=
  let fontSizePx := ptToPx (fontSize entry) in
  let yOffsetPx :=
    capHeightOffsetPx (fontName entry) fontSizePx (lineSpacing entry) in
  math_round ((mmToPx (yMm entry) - yOffsetPx) * 10) / 10.

Local Close Scope float_scope.

(** ** The renderer *)

Definition nl : string := String (ascii_of_nat 10) EmptyString.
Definition dq : string := String (ascii_of_nat 34) EmptyString.

(** [`${n}`]: an integer below [1e21] prints in decimal; every other finite
    number is printed by the host. *)
Definition showNum (env : Host) (n : number) : string :=
  match n with
  | NaN => "NaN"
  | Num q =>
      if (Zpos (Qden (this q)) =? 1) && (Z.abs (Qnum (this q)) <? 10 ^ 21)
      then showZ (Qnum (this q))
      else showFraction env q
  end.

(** [`${x}`] for a double: a finite double is the rational [m * 2^e] of its
    mantissa and its exponent, printed as the numbers are. *)
Definition showDouble (env : Host) (x : float) : string :=
  match Prim2SF x with
  | S754_nan => "NaN"
  | S754_infinity false => "Infinity"
  | S754_infinity true => "-Infinity"
  | S754_zero _ => "0"
  | S754_finite s m e =>
      let signed := if s then Z.neg m else Z.pos m in
      showNum env
        (Num (Q2Qc (if 0 <=? e then inject_Z (signed * 2 ^ e)
                    else signed # Z.to_pos (2 ^ (- e)))))
  end.

Definition concatStrings (l : list string) : string :=
  fold_right String.append EmptyString l.

(** [' '.repeat(n)] and the like. *)
Fixpoint repeatString (s : string) (n : nat) : string :=
  match n with
  | O => EmptyString
  | S k => s +:+ repeatString s k
  end.

(** [key.replace(/_/g, '-')]. *)
Fixpoint hyphenate (s : string) : string :=
  match s with
  | EmptyString => EmptyString
  | String c rest =>
      String (if Ascii.eqb c "_" then "-"%char else c) (hyphenate rest)
  end.

(** [style[key]]. *)
Definition styleGet (key : string) (st : ElementStyle) : option string :=
  match List.find (fun kv => String.eqb (fst kv) key) st with
  | Some kv => Some (snd kv)
  | None => None
  end.

(** [style[key] = value]: an existing property keeps its place. *)
Fixpoint styleSet (key value : string) (st : ElementStyle) : ElementStyle :=
  match st with
  | [] => [(key, value)]
  | (k, v) :: rest =>
      if String.eqb k key then (k, value) :: rest
      else (k, v) :: styleSet key value rest
  end.

Definition isColorKey (key : string) : bool :=
  String.eqb key "color" || String.eqb key "fill"
  || String.eqb key "background_color" || String.eqb key "border_color".

Section Renderer.
Context (env : Host).

(** The text one property of a style adds in [convertStyleToCSS]. *)
Definition styleLine (fontMap : gmap string Font) (colorMap : gmap string Color)
           (kv : string * string) : string :=
  let '(key, value) := kv in
  match (if String.eqb key "font" then fontMap !! value else None) with
  | Some font => "  font-family: '" +:+ font_name font +:+ "', serif;" +:+ nl
  | None =>
      let cssProperty :=
        if String.eqb key "fill" then "background-color" else hyphenate key in
      let cssValue :=
        match (if isColorKey key then colorMap !! value else None) with
        | Some color =>
            "rgba(" +:+ showNum env (color_r color) +:+ ", "
            +:+ showNum env (color_g color) +:+ ", "
            +:+ showNum env (color_b color) +:+ ", "
            +:+ showNum env (color_a color) +:+ ")"
        | None => value
        end in
      "  " +:+ cssProperty +:+ ": " +:+ cssValue +:+ ";" +:+ nl
  end.

Definition convertStyleToCSS (st : ElementStyle)
           (fontMap : gmap string Font) (colorMap : gmap string Color)
  : string :=
  let isFullSize :=
    match styleGet "width" st, styleGet "height" st with
    | Some w, Some h => String.eqb w "100%" && String.eqb h "100%"
    | _, _ => false
    end in
  let hasExplicitPosition :=
    match styleGet "position" st with Some _ => true | None => false end in
  let layering :=
    if isFullSize && negb hasExplicitPosition then
      "  position: absolute;" +:+ nl +:+ "  top: 0;" +:+ nl
      +:+ "  left: 0;" +:+ nl +:+ "  z-index: 0;" +:+ nl
    else if negb hasExplicitPosition then
      "  position: relative;" +:+ nl +:+ "  z-index: 1;" +:+ nl
    else "" in
  layering +:+ concatStrings (map (styleLine fontMap colorMap) st).

Definition className (prefix : string) (element : Element) : string :=
  if String.eqb prefix "" then element_id element
  else prefix +:+ "-" +:+ element_id element.

Fixpoint generateElementCSS (fontMap : gmap string Font)
         (colorMap : gmap string Color) (prefix : string) (element : Element)
  : string :=
  let className := className prefix element in
  let own :=
    match style element with
    | Some st =>
        let styles := convertStyleToCSS st fontMap colorMap in
        if String.eqb styles "" then ""
        else "." +:+ className +:+ " {" +:+ nl +:+ styles +:+ "}" +:+ nl +:+ nl
    | None => ""
    end in
  own +:+ concatStrings
            (map (generateElementCSS fontMap colorMap className)
                 (children element)).

(** The text [generateCSS] emits before the rules of the elements: the font
    imports, the rule of the root container and the box-sizing reset. *)
Definition sceneContainerCSS (theme : Theme) (template : Template) : string :=
  let fontImports :=
    String.concat nl
      (map (fun font => "@import url('" +:+ font_url font +:+ "');")
           (font_palette theme)) in
  fontImports +:+ nl +:+ nl
  +:+ ".scene-container {" +:+ nl
  +:+ "  width: " +:+ showNum env (width (canvas template)) +:+ "px;" +:+ nl
  +:+ "  height: " +:+ showNum env (height (canvas template)) +:+ "px;" +:+ nl
  +:+ "  position: relative;" +:+ nl
  +:+ "  overflow: hidden;" +:+ nl
  +:+ "  box-sizing: border-box;" +:+ nl
  +:+ "}" +:+ nl +:+ nl
  +:+ ".scene-container * {" +:+ nl
  +:+ "  box-sizing: border-box;" +:+ nl
  +:+ "}" +:+ nl +:+ nl.

Definition generateCSS (theme : Theme) (template : Template)
           (fontMap : gmap string Font) (colorMap : gmap string Color)
  : string :=
  sceneContainerCSS theme template
  +:+ concatStrings
        (map (generateElementCSS fontMap colorMap "") (elements template)).

Definition generateDataItemHTML (element : Element)
           (dataItemMap : gmap string DataItem) (className indent : string)
  : string :=
  match data_item_id element with
  | None => ""
  | Some id =>
      if String.eqb id "" then ""
      else
        match dataItemMap !! id with
        | None => ""
        | Some dataItem =>
            match item_type dataItem with
            | TextItem =>
                indent +:+ "<div class=" +:+ dq +:+ className +:+ dq +:+ ">"
                +:+ default "" (content dataItem) +:+ "</div>" +:+ nl
            | ImageItem =>
                indent +:+ "<img class=" +:+ dq +:+ className +:+ dq
                +:+ " src=" +:+ dq +:+ default "" (item_image_url dataItem)
                +:+ dq +:+ " alt=" +:+ dq +:+ display_name dataItem +:+ dq
                +:+ " />" +:+ nl
            end
        end
  end.

Definition generateShapeHTML (element : Element) (className indent : string)
  : string :=
  indent +:+ "<div class=" +:+ dq +:+ className +:+ dq +:+ "></div>" +:+ nl.

Definition generateImageHTML (element : Element) (className indent : string)
  : string :=
  indent +:+ "<img class=" +:+ dq +:+ className +:+ dq +:+ " src=" +:+ dq
  +:+ default "" (image_url element) +:+ dq +:+ " alt=" +:+ dq +:+ dq
  +:+ " />" +:+ nl.

Definition generateSVGHTML (element : Element) (className indent : string)
  : string :=
  indent +:+ "<div class=" +:+ dq +:+ className +:+ dq +:+ ">"
  +:+ default "" (svg_content element) +:+ "</div>" +:+ nl.

(** [generateElementHTML], with [generateContainerHTML] unfolded in its
    [container] case (the two call each other). *)
Fixpoint generateElementHTML (dataItemMap : gmap string DataItem)
         (indentLevel : nat) (parentPrefix : string) (element : Element)
  : string :=
  let indent := repeatString "  " indentLevel in
  let className := className parentPrefix element in
  match element_type element with
  | data_item => generateDataItemHTML element dataItemMap className indent
  | shape => generateShapeHTML element className indent
  | container =>
      indent +:+ "<div class=" +:+ dq +:+ className +:+ dq +:+ ">" +:+ nl
      +:+ concatStrings
            (map (generateElementHTML dataItemMap (S indentLevel) className)
                 (children element))
      +:+ indent +:+ "</div>" +:+ nl
  | image => generateImageHTML element className indent
  | svg => generateSVGHTML element className indent
  end.

Definition generateHTML (template : Template)
           (dataItemMap : gmap string DataItem) : string :=
  "<div class=" +:+ dq +:+ "scene-container" +:+ dq +:+ ">" +:+ nl
  +:+ concatStrings
        (map (generateElementHTML dataItemMap 1 "") (elements template))
  +:+ "</div>".

Record RenderResult : Type := mkRenderResult {
  html : string;
  css : string
}.

(** The three lookup tables of [renderScene]. *)
Definition dataItemMapOf (scene : Scene) : gmap string DataItem :=
  fold_left (fun m item => <[item_id item := item]> m)
            (data_items (scene_data scene)) ∅.

Definition colorMapOf (scene : Scene) : gmap string Color :=
  fold_left (fun m color => <[color_id color := color]> m)
            (color_palette (scene_theme scene)) ∅.

Definition fontMapOf (scene : Scene) : gmap string Font :=
  fold_left (fun m font => <[font_id font := font]> m)
            (font_palette (scene_theme scene)) ∅.

Definition renderScene (scene : Scene) : RenderResult :=
  let dataItemMap := dataItemMapOf scene in
  let colorMap := colorMapOf scene in
  let fontMap := fontMapOf scene in
  let css := generateCSS (scene_theme scene) (scene_template scene)
                         fontMap colorMap in
  let html := generateHTML (scene_template scene) dataItemMap in
  mkRenderResult html css.

End Renderer.

(** ** The execution context (the operation types) *)

Record Operation : Type := mkOperation {
  step : Z;
  operation : string;
  parameters : JValue
}.

Record OperationResult : Type := mkOperationResult {
  success : bool;
  output : option JValue;
  error : option string
}.

Record ExecutionContext : Type := mkExecutionContext {
  sceneId : string;
  sceneName : string;
  data : SceneData;
  template : Template;
  theme : Theme;
  currentStep : Z;
  totalSteps : nat;
  layerMap : gmap string string;
  operationOutputs : gmap Z JValue
}.

(** Everything a handler can change: the context, the tick of [generateId]
    and the process-wide font cache. *)
Record World : Type := mkWorld {
  context : ExecutionContext;
  tick : nat;
  googleFontCache : gmap string bool
}.

Definition set_data (c : ExecutionContext) (d : SceneData) : ExecutionContext :=
  mkExecutionContext (sceneId c) (sceneName c) d (template c) (theme c)
                     (currentStep c) (totalSteps c) (layerMap c)
                     (operationOutputs c).

Definition set_template (c : ExecutionContext) (t : Template)
  : ExecutionContext :=
  mkExecutionContext (sceneId c) (sceneName c) (data c) t (theme c)
                     (currentStep c) (totalSteps c) (layerMap c)
                     (operationOutputs c).

Definition set_theme (c : ExecutionContext) (th : Theme) : ExecutionContext :=
  mkExecutionContext (sceneId c) (sceneName c) (data c) (template c) th
                     (currentStep c) (totalSteps c) (layerMap c)
                     (operationOutputs c).

Definition set_currentStep (c : ExecutionContext) (s : Z) : ExecutionContext :=
  mkExecutionContext (sceneId c) (sceneName c) (data c) (template c) (theme c)
                     s (totalSteps c) (layerMap c) (operationOutputs c).

Definition set_layerMap (c : ExecutionContext) (m : gmap string string)
  : ExecutionContext :=
  mkExecutionContext (sceneId c) (sceneName c) (data c) (template c) (theme c)
                     (currentStep c) (totalSteps c) m (operationOutputs c).

Definition set_operationOutputs (c : ExecutionContext) (m : gmap Z JValue)
  : ExecutionContext :=
  mkExecutionContext (sceneId c) (sceneName c) (data c) (template c) (theme c)
                     (currentStep c) (totalSteps c) (layerMap c) m.

Definition set_context (w : World) (c : ExecutionContext) : World :=
  mkWorld c (tick w) (googleFontCache w).

(** ** A state and exception monad for the handlers

    A computation runs on a [World] and gives a result or an exception, with
    the world it leaves behind in both cases. *)

Definition M (A : Type) : Type := World -> Result A * World.

Definition ret {A : Type} (x : A) : M A := fun w => (Ok x, w).

Definition throw {A : Type} (e : Error) : M A := fun w => (Throw e, w).

Definition bind {A B : Type} (c : M A) (k : A -> M B) : M B :=
  fun w =>
    match c w with
    | (Ok x, w') => k x w'
    | (Throw e, w') => (Throw e, w')
    end.

Notation "'do' x <- c ; k" := (bind c (fun x => k))
  (at level 10, x name, c at level 100, k at level 200).
Notation "'run' c ; k" := (bind c (fun _ => k))
  (at level 10, c at level 100, k at level 200).

Definition getContext : M ExecutionContext := fun w => (Ok (context w), w).

Definition modifyContext (f : ExecutionContext -> ExecutionContext) : M unit :=
  fun w => (Ok tt, set_context w (f (context w))).

Definition when (b : bool) (c : M unit) : M unit := if b then c else ret tt.

(** ** Reading parameters

    [params] is the resolved [parameters] object of an operation.  A handler
    reads each parameter at the type the operation declares for it: a number,
    a string or a boolean.  A parameter that is missing reads as [undefined];
    so does, in this embedding, a parameter of another type, for which the
    source would go on with JavaScript's coercions: such operation lists are
    outside the embedding. *)

Definition field (key : string) (params : JValue) : option JValue :=
  match params with
  | JObj entries =>
      match List.find (fun kv => String.eqb (fst kv) key) entries with
      | Some kv => Some (snd kv)
      | None => None
      end
  | _ => None
  end.

Definition numField (key : string) (params : JValue) : option number :=
  match field key params with Some (JNum n) => Some n | _ => None end.

Definition strField (key : string) (params : JValue) : option string :=
  match field key params with Some (JStr s) => Some s | _ => None end.

Definition flagField (key : string) (params : JValue) : bool :=
  match field key params with Some (JBool b) => b | _ => false end.

(** Truthiness. *)
Definition truthyNum (n : number) : bool :=
  match n with
  | Num q => negb (Qeq_bool (this q) 0)
  | NaN => false
  end.

Definition truthyStr (s : string) : bool := negb (String.eqb s "").

Definition someTruthyNum (v : option number) : option number :=
  match v with
  | Some n => if truthyNum n then Some n else None
  | None => None
  end.

Definition someTruthyStr (v : option string) : option string :=
  match v with
  | Some s => if truthyStr s then Some s else None
  | None => None
  end.

(** [a || b] on values that may be [undefined]: [a] when it is truthy. *)
Definition orElse {A : Type} (a b : option A) : option A :=
  match a with Some _ => a | None => b end.

(** A font size: a number of pixels or a CSS length. *)
Inductive SizeValue : Type :=
| SizeNum (n : number)
| SizeStr (s : string).

Definition sizeField (key : string) (params : JValue) : option SizeValue :=
  match field key params with
  | Some (JNum n) => if truthyNum n then Some (SizeNum n) else None
  | Some (JStr s) => if truthyStr s then Some (SizeStr s) else None
  | _ => None
  end.

(** [a < b] on numbers. *)
Definition nlt (x y : number) : bool :=
  match x, y with
  | Num p, Num q =>
      match (this p ?= this q)%Q with Lt => true | _ => false end
  | _, _ => false
  end.

(** ** [operation-handlers.ts] *)

Definition OperationHandler : Type := JValue -> M OperationResult.

Definition okResult (out : JValue) : OperationResult :=
  mkOperationResult true (Some out) None.

Section Handlers.
Context (env : Host).

(** [generateId(prefix)]: the tick advances. *)
Definition freshId (prefix : string) : M string :=
  fun w =>
    (Ok (generateId env (tick w) prefix),
     mkWorld (context w) (S (tick w)) (googleFontCache w)).

(** [ensureColorInTheme(context.theme, color)]. *)
Definition ensureColor (color : string) : M string :=
  fun w =>
    let '(res, theme', tick') :=
      ensureColorInTheme env (tick w) (theme (context w)) color in
    (res, mkWorld (set_theme (context w) theme') tick' (googleFontCache w)).

(** [await ensureFontInTheme(context.theme, fontName)]. *)
Definition ensureFont (fontName : string) : M string :=
  fun w =>
    let '(res, theme', tick', cache') :=
      ensureFontInTheme env (tick w) (googleFontCache w)
                        (theme (context w)) fontName in
    (res, mkWorld (set_theme (context w) theme') tick' cache').

(** [context.template.elements.push(element)]. *)
Definition pushElement (element : Element) : M unit :=
  modifyContext (fun c =>
    set_template c (set_elements (template c)
                                 (elements (template c) ++ [element]))).

(** [context.data.data_items.push(dataItem)]. *)
Definition pushDataItem (dataItem : DataItem) : M unit :=
  modifyContext (fun c =>
    set_data c (mkSceneData (scene_id (data c))
                            (data_items (data c) ++ [dataItem]))).

(** [context.layerMap.set(layer_name, elementId)]. *)
Definition setLayer (layer_name elementId : string) : M unit :=
  modifyContext (fun c =>
    set_layerMap c (<[layer_name := elementId]> (layerMap c))).

Definition liftResult {A : Type} (r : Result A) : M A :=
  fun w => (r, w).

Definition handleCreateCanvas : OperationHandler := fun params =>
  match someTruthyNum (numField "width" params),
        someTruthyNum (numField "height" params) with
  | Some canvasWidth, Some canvasHeight =>
      run modifyContext (fun c =>
            set_template c (set_canvas (template c)
                                       (mkCanvas canvasWidth canvasHeight)));
      run match someTruthyStr (strField "background_color" params) with
          | Some background_color =>
              do colorId <- ensureColor background_color;
              do elementId <- freshId "elem";
              pushElement
                (mkElement elementId shape None (Some rectangle) None None
                           (Some [("width", "100%"); ("height", "100%");
                                  ("background_color", colorId)])
                           [])
          | None => ret tt
          end;
      ret (okResult (JObj [("width", JNum canvasWidth);
                           ("height", JNum canvasHeight)]))
  | _, _ => throw (ValidationError "Canvas width and height are required")
  end.

(** [left], [top] and [transform] of a new text layer. *)
Definition textLayerPosition (params : JValue) (sizeValue : SizeValue)
  : M (string * string * option string) :=
  let offset_x := default nzero (numField "offset_x" params) in
  let offset_y := default nzero (numField "offset_y" params) in
  match someTruthyStr (strField "anchor" params) with
  | Some anchor =>
      do c <- getContext;
      let canvasWidth :=
        if truthyNum (width (canvas (template c)))
        then width (canvas (template c)) else numZ 800 in
      let canvasHeight :=
        if truthyNum (height (canvas (template c)))
        then height (canvas (template c)) else numZ 600 in
      if String.eqb anchor "center" || String.eqb anchor "top-center"
         || String.eqb anchor "bottom-center" then
        let elementTransform :=
          if String.eqb anchor "center" then
            "translate(calc(-50% + " +:+ showNum env offset_x
            +:+ "px), calc(-50% + " +:+ showNum env offset_y +:+ "px))"
          else
            "translateX(calc(-50% + " +:+ showNum env offset_x +:+ "px))" in
        let elementTop :=
          if String.eqb anchor "center" then "50%"
          else if String.eqb anchor "top-center"
          then showNum env offset_y +:+ "px"
          else "calc(100% - " +:+ showNum env offset_y +:+ "px)" in
        ret ("50%", elementTop, Some elementTransform)
      else
        let estimatedWidth := numZ 100 in
        let estimatedHeight :=
          match sizeValue with SizeNum n => n | SizeStr _ => numZ 16 end in
        do position <- liftResult
                         (calculateAnchorPosition anchor canvasWidth
                            canvasHeight estimatedWidth estimatedHeight
                            offset_x offset_y);
        ret (showNum env (fst position) +:+ "px",
             showNum env (snd position) +:+ "px", None)
  | None =>
      match numField "x" params, numField "y" params with
      | None, None => ret ("50%", "50%", Some "translate(-50%, -50%)")
      | x, y =>
          ret (showNum env (default nzero x) +:+ "px",
               showNum env (default nzero y) +:+ "px", None)
      end
  end.

Definition handleAddTextLayer : OperationHandler := fun params =>
  match someTruthyStr (strField "layer_name" params),
        orElse (someTruthyStr (strField "text" params))
               (someTruthyStr (strField "text_content" params)) with
  | Some layer_name, Some textValue =>
      let fontValue :=
        default "Arial" (orElse (someTruthyStr (strField "font" params))
                                (someTruthyStr (strField "font_name" params))) in
      let sizeValue :=
        default (SizeNum (numZ 16))
                (orElse (sizeField "size" params)
                        (sizeField "font_size" params)) in
      let alignValue :=
        default "left" (orElse (someTruthyStr (strField "alignment" params))
                               (someTruthyStr (strField "text_align" params))) in
      let color := default "#000000" (strField "color" params) in
      let shadow_color := default "#000000" (strField "shadow_color" params) in
      let shadow_offset_x := default nzero (numField "shadow_offset_x" params) in
      let shadow_offset_y := default nzero (numField "shadow_offset_y" params) in
      let shadow_blur := default nzero (numField "shadow_blur" params) in
      let shadow_opacity := default (numZ 1) (numField "shadow_opacity" params) in
      do fontId <- ensureFont fontValue;
      do colorId <- ensureColor color;
      do dataItemId <- freshId "data";
      run pushDataItem
            (mkDataItem dataItemId TextItem layer_name (Some textValue) None);
      do position <- textLayerPosition params sizeValue;
      do elementId <- freshId "elem";
      let style0 : ElementStyle :=
        [("position", "absolute");
         ("left", fst (fst position));
         ("top", snd (fst position));
         ("font", fontId);
         ("font_size",
          match sizeValue with
          | SizeNum n => showNum env n +:+ "px"
          | SizeStr s => s
          end);
         ("color", colorId);
         ("text_align", alignValue)] in
      let style1 :=
        if flagField "bold" params
        then styleSet "font_weight" "bold" style0 else style0 in
      let style2 :=
        if flagField "italic" params
        then styleSet "font_style" "italic" style1 else style1 in
      let style3 :=
        match snd position with
        | Some elementTransform => styleSet "transform" elementTransform style2
        | None => style2
        end in
      do style4 <-
        (if flagField "shadow_enabled" params then
           do _ <- ensureColor shadow_color;
           let shadowColorWithOpacity :=
             if nlt shadow_opacity (numZ 1) then
               "rgba("
               +:+ showNum env (parseInt (js_substring 1 3 shadow_color) 16)
               +:+ ", "
               +:+ showNum env (parseInt (js_substring 3 5 shadow_color) 16)
               +:+ ", "
               +:+ showNum env (parseInt (js_substring 5 7 shadow_color) 16)
               +:+ ", " +:+ showNum env shadow_opacity +:+ ")"
             else shadow_color in
           ret (styleSet "text_shadow"
                  (showNum env shadow_offset_x +:+ "px "
                   +:+ showNum env shadow_offset_y +:+ "px "
                   +:+ showNum env shadow_blur +:+ "px "
                   +:+ shadowColorWithOpacity) style3)
         else ret style3);
      run pushElement
            (mkElement elementId data_item (Some dataItemId) None None None
                       (Some style4) []);
      run setLayer layer_name elementId;
      ret (okResult (JObj [("elementId", JStr elementId);
                           ("dataItemId", JStr dataItemId)]))
  | _, _ => throw (ValidationError "layer_name and text are required")
  end.

(** The five placeholders. *)
Definition handleResizeImage : OperationHandler := fun _ =>
  throw (ValidationError "resize_image operation is not implemented yet").
Definition handleCropImage : OperationHandler := fun _ =>
  throw (ValidationError "crop_image operation is not implemented yet").
Definition handleRemoveBackground : OperationHandler := fun _ =>
  throw (ValidationError "remove_background operation is not implemented yet").
Definition handleUpscale : OperationHandler := fun _ =>
  throw (ValidationError "upscale operation is not implemented yet").
Definition handleSegment : OperationHandler := fun _ =>
  throw (ValidationError "segment operation is not implemented yet").

Definition handleAddLayerToContainer : OperationHandler := fun params =>
  match someTruthyStr (strField "layer_name" params),
        someTruthyStr (strField "container_name" params) with
  | Some layer_name, Some container_name =>
      do c <- getContext;
      match someTruthyStr (layerMap c !! layer_name) with
      | None => throw (ReferenceError ("Layer not found: " +:+ layer_name))
      | Some layerElementId =>
          match someTruthyStr (layerMap c !! container_name) with
          | None =>
              throw (ReferenceError
                       ("Container not found: " +:+ container_name))
          | Some containerElementId =>
              run (fun w =>
                     let '(res, template') :=
                       addElementToContainer (template (context w))
                                             layerElementId
                                             containerElementId in
                     (res, set_context w (set_template (context w) template')));
              ret (okResult
                     (JObj [("layerElementId", JStr layerElementId);
                            ("containerElementId", JStr containerElementId)]))
          end
      end
  | _, _ =>
      throw (ValidationError "layer_name and container_name are required")
  end.

End Handlers.

(** ** The operation executor *)

Inductive WsMessage : Type :=
| EXECUTION_PROGRESS (currentStep : Z) (totalSteps : nat)
                     (operation message : string)
| EXECUTION_COMPLETE (sceneId scenePath : string) (files : list string)
                     (preview : RenderResult)
| EXECUTION_FAILED (step : Z) (operation error : string).

(** The state of a run: the world, the messages sent on the channel so far
    (oldest first) and, for the statements about the run, the handler calls
    made so far (step and operation name, oldest first). *)
Record Run : Type := mkRun {
  world : World;
  sent : list WsMessage;
  invoked : list (Z * string)
}.

(** [(error as any).step] and [error.operation] in the [catch] clause: no
    error class declares such a property and no code of the sources assigns
    one, so both read [undefined] on every error. *)
Definition error_step (e : Error) : option Z := None.
Definition error_operation (e : Error) : option string := None.

(** [array.findIndex(p)]: [-1] when no element satisfies [p]. *)
Fixpoint findIndexFrom {A : Type} (p : A -> bool) (l : list A) (i : Z) : Z :=
  match l with
  | [] => -1
  | x :: rest => if p x then i else findIndexFrom p rest (i + 1)
  end.

Definition findIndex {A : Type} (p : A -> bool) (l : list A) : Z :=
  findIndexFrom p l 0.

(** The test of [validateScene]'s [checkElement]: the id that a [data_item]
    element references without the scene data having it. *)
Definition danglingReference (dataItemIds : gset string) (element : Element)
  : option string :=
  if is_data_item element then
    match someTruthyStr (data_item_id element) with
    | Some id => if bool_decide (elem_of id dataItemIds) then None else Some id
    | None => None
    end
  else None.

(** [validateScene]'s [checkElement]. *)
Fixpoint checkElement (dataItemIds : gset string) (element : Element)
  : Result unit :=
  match danglingReference dataItemIds element with
  | Some id =>
      Throw (ValidationError
               ("Element references non-existent data item: " +:+ id))
  | None =>
      match mapResult (checkElement dataItemIds) (children element) with
      | Ok _ => Ok tt
      | Throw e => Throw e
      end
  end.

Definition validateScene (c : ExecutionContext) : Result unit :=
  if negb (truthyNum (width (canvas (template c))))
     || negb (truthyNum (height (canvas (template c)))) then
    Throw (ValidationError "Canvas not initialized")
  else if (16 <? List.length (color_palette (theme c)))%nat then
    Throw (ValidationError "Color palette exceeds limit of 16 colors")
  else if (8 <? List.length (font_palette (theme c)))%nat then
    Throw (ValidationError "Font palette exceeds limit of 8 fonts")
  else
    let dataItemIds : gset string :=
      list_to_set (map item_id (data_items (data c))) in
    match mapResult (checkElement dataItemIds) (elements (template c)) with
    | Ok _ => Ok tt
    | Throw e => Throw e
    end.

Section Executor.
Context (env : Host).
(** The handlers of the registry that are not embedded above
    ([add_image_layer], [edit_text_layer], [set_layer_visibility],
    [delete_layer], [generate_image], [edit_image], [set_layer_anchor],
    [create_flex_container], [set_flex_layout]). *)
Context (otherHandlers : string -> option OperationHandler).
(** [saveSceneToDirectory]: the path of the scene directory, or the
    [FileSystemError] of a failed write. *)
Context (saveSceneToDirectory : ExecutionContext -> Result string).

Definition embeddedHandlers : list (string * OperationHandler) :=
  [("create_canvas", handleCreateCanvas env);
   ("add_text_layer", handleAddTextLayer env);
   ("resize_image", handleResizeImage);
   ("crop_image", handleCropImage);
   ("remove_background", handleRemoveBackground);
   ("upscale", handleUpscale);
   ("segment", handleSegment);
   ("add_layer_to_container", handleAddLayerToContainer)].

(** [OPERATION_HANDLERS[name]]. *)
Definition OPERATION_HANDLERS (name : string) : option OperationHandler :=
  match List.find (fun kv => String.eqb (fst kv) name) embeddedHandlers with
  | Some kv => Some (snd kv)
  | None => otherHandlers name
  end.

Definition send (msg : WsMessage) (r : Run) : Run :=
  mkRun (world r) (sent r ++ [msg]) (invoked r).

(** One turn of the loop of [executeOperations]. *)
Definition executeStep (op : Operation) (r : Run) : Result unit * Run :=
  let w1 := set_context (world r)
                        (set_currentStep (context (world r)) (step op)) in
  let r1 :=
    send (EXECUTION_PROGRESS (step op) (totalSteps (context w1))
                             (operation op)
                             ("Executing " +:+ operation op +:+ "..."))
         (mkRun w1 (sent r) (invoked r)) in
  match OPERATION_HANDLERS (operation op) with
  | None =>
      (Throw (ValidationError ("Unknown operation: " +:+ operation op)), r1)
  | Some handler =>
      match resolveParameters (operationOutputs (context w1))
                              (parameters op) with
      | Throw e => (Throw e, r1)
      | Ok resolvedParams =>
          let r2 := mkRun (world r1) (sent r1)
                          (invoked r1 ++ [(step op, operation op)]) in
          match handler resolvedParams (world r2) with
          | (Throw e, w3) => (Throw e, mkRun w3 (sent r2) (invoked r2))
          | (Ok result, w3) =>
              let r3 := mkRun w3 (sent r2) (invoked r2) in
              if negb (success result) then
                (Throw (PlainError
                          (default "Operation failed"
                                   (someTruthyStr (error result)))), r3)
              else
                match output result with
                | Some out =>
                    (Ok tt,
                     mkRun (set_context w3
                              (set_operationOutputs (context w3)
                                 (<[step op := out]>
                                    (operationOutputs (context w3)))))
                           (sent r3) (invoked r3))
                | None => (Ok tt, r3)
                end
          end
      end
  end.

(** The [for] loop over the operations. *)
Fixpoint executeSteps (ops : list Operation) (r : Run) : Result unit * Run :=
  match ops with
  | [] => (Ok tt, r)
  | op :: rest =>
      match executeStep op r with
      | (Ok _, r') => executeSteps rest r'
      | (Throw e, r') => (Throw e, r')
      end
  end.

Definition initialContext (sceneId sceneName : string)
           (operations : list Operation) : ExecutionContext :=
  mkExecutionContext sceneId sceneName
    (mkSceneData sceneId [])
    (mkTemplate (sceneId +:+ "_template") (sceneName +:+ " Template")
                (mkCanvas (numZ 800) (numZ 600)) [])
    (mkTheme (sceneId +:+ "_theme") (sceneName +:+ " Theme") [] [])
    0 (List.length operations) ∅ ∅.

(** The [ExecutionFailed] message of the [catch] clause. *)
Definition failureMessage (operations : list Operation) (e : Error)
  : WsMessage :=
  let position :=
    findIndex (fun op => match error_step e with
                         | Some s => step op =? s
                         | None => false
                         end) operations + 1 in
  EXECUTION_FAILED
    (if position =? 0 then 0 else position)
    (default "unknown" (someTruthyStr (error_operation e)))
    (default "Unknown error occurred" (someTruthyStr (Some (error_message e)))).

(** The body of the [try] after the loop. *)
Definition finishRun (r : Run) : Result unit * Run :=
  let c := context (world r) in
  match validateScene c with
  | Throw e => (Throw e, r)
  | Ok _ =>
      match saveSceneToDirectory c with
      | Throw e => (Throw e, r)
      | Ok scenePath =>
          let preview :=
            renderScene env (mkScene (data c) (template c) (theme c)) in
          (Ok tt,
           send (EXECUTION_COMPLETE (sceneId c) scenePath
                   [scenePath +:+ "/data.json";
                    scenePath +:+ "/template.json";
                    scenePath +:+ "/theme.json";
                    scenePath +:+ "/scene.json"]
                   preview) r)
      end
  end.

(** [executeOperations(ws, sceneId, sceneName, operations)], started with
    the given tick and font cache; [sent] of the result are the messages
    sent on [ws]. *)
Definition executeOperations (tick0 : nat) (cache0 : gmap string bool)
           (sceneId sceneName : string) (operations : list Operation) : Run :=
  let r0 :=
    mkRun (mkWorld (initialContext sceneId sceneName operations) tick0 cache0)
          [] [] in
  let '(res, r) :=
    match executeSteps operations r0 with
    | (Ok _, r1) => finishRun r1
    | (Throw e, r1) => (Throw e, r1)
    end in
  match res with
  | Ok _ => r
  | Throw e => send (failureMessage operations e) r
  end.

End Executor.

(** * Definitions for the statements

    The formulas and relations of the specification, in its words, and the
    data of the closed examples. *)

(** A host for the closed examples: the clock prints the tick, the random
    source is constant, every font is found on the network. *)
Definition sampleHost : Host :=
  mkHost (fun n => showZ (Z.of_nat n)) (fun _ => "r") (fun _ => true)
         (fun _ => "").

Definition emptyTheme : Theme := mkTheme "t_theme" "T Theme" [] [].

(** ** The colour palette *)

(** "Identical (r,g,b,a)": the four components are equal for [===]. *)
Definition identicalRGBA (u v : RGBA) : bool :=
  strict_eq (rgba_r u) (rgba_r v) && strict_eq (rgba_g u) (rgba_g v)
  && strict_eq (rgba_b u) (rgba_b v) && strict_eq (rgba_a u) (rgba_a v).

Definition renameColor (f : Color -> string) (c : Color) : Color :=
  mkColor (color_id c) (f c) (color_r c) (color_g c) (color_b c) (color_a c).

Definition renameColors (f : Color -> string) (th : Theme) : Theme :=
  set_color_palette th (map (renameColor f) (color_palette th)).

Definition themeYellow : Theme :=
  mkTheme "t_theme" "T Theme"
          [mkColor "yellow" "Yellow" (numZ 255) (numZ 255) (numZ 0) (numZ 1)] [].

(** A theme whose palette holds sixteen greys, of red component 0 to 15. *)
Definition themeFull : Theme :=
  mkTheme "t_theme" "T Theme"
          (map (fun i => mkColor ("grey" +:+ showZ i) "Grey"
                                 (numZ i) (numZ 0) (numZ 0) (numZ 1))
               [0; 1; 2; 3; 4; 5; 6; 7; 8; 9; 10; 11; 12; 13; 14; 15])
          [].

(** ** Anchors *)






(** ** The cap-height correction *)







(** ** Placeholders *)

(** The decimal reading of a string of digits, from the left. *)
Fixpoint decimalFrom (acc : Z) (s : string) : Z :=
  match s with
  | EmptyString => acc
  | String c rest =>
      decimalFrom (acc * 10 + (Z.of_nat (nat_of_ascii c) - 48)) rest
  end.

(** [s] is exactly [$output_of_step_N], [N] written with decimal digits. *)
Definition Placeholder (s : string) (N : Z) : Prop :=
  exists digits,
    s = "$output_of_step_" +:+ digits /\ digits <> ""
    /\ allDigits digits = true /\ decimalFrom 0 digits = N.

(** The result of a resolution, in the words of the specification: a
    placeholder string becomes the output recorded for its step, every other
    leaf stays, arrays and objects are resolved item by item. *)
Inductive Resolved (outs : gmap Z JValue) : JValue -> JValue -> Prop :=
| Resolved_placeholder (s : string) (N : Z) (v : JValue) :
    Placeholder s N -> outs !! N = Some v -> Resolved outs (JStr s) v
| Resolved_string (s : string) :
    (forall N, ~ Placeholder s N) -> Resolved outs (JStr s) (JStr s)
| Resolved_null : Resolved outs JNull JNull
| Resolved_bool (b : bool) : Resolved outs (JBool b) (JBool b)
| Resolved_num (n : number) : Resolved outs (JNum n) (JNum n)
| Resolved_array (items items' : list JValue) :
    Forall2 (Resolved outs) items items' ->
    Resolved outs (JArr items) (JArr items')
| Resolved_object (entries entries' : list (string * JValue)) :
    Forall2 (fun e e' => fst e = fst e' /\ Resolved outs (snd e) (snd e'))
            entries entries' ->
    Resolved outs (JObj entries) (JObj entries').

(** Some placeholder inside the value names a step without recorded output. *)
Inductive Unrecorded (outs : gmap Z JValue) : JValue -> Prop :=
| Unrecorded_here (s : string) (N : Z) :
    Placeholder s N -> outs !! N = None -> Unrecorded outs (JStr s)
| Unrecorded_array (items : list JValue) :
    Exists (Unrecorded outs) items -> Unrecorded outs (JArr items)
| Unrecorded_object (entries : list (string * JValue)) :
    Exists (fun e => Unrecorded outs (snd e)) entries ->
    Unrecorded outs (JObj entries).

(** ** The element tree *)

(** The ids of an element and of everything below it, whatever the types of
    the elements, and the same for an array of elements. *)
Fixpoint subtreeIds (e : Element) : list string :=
  element_id e :: flat_map subtreeIds (children e).

Definition forestIds (l : list Element) : list string :=
  flat_map subtreeIds l.

(** The elements of a tree, parents before children. *)
Fixpoint subtreeNodes (e : Element) : list Element :=
  e :: flat_map subtreeNodes (children e).

Definition forestNodes (l : list Element) : list Element :=
  flat_map subtreeNodes l.

Definition plainElement (id : string) (type : ElementType)
           (cs : list Element) : Element :=
  mkElement id type None None None None None cs.

(** A column that holds a row that holds a label, next to an empty box. *)
Definition templateNested : Template :=
  mkTemplate "t_template" "T Template" (mkCanvas (numZ 800) (numZ 600))
             [plainElement "box" container [];
              plainElement "column" container
                [plainElement "row" container [plainElement "label" shape []]]].

(** A column that holds a row that holds a label, next to another element
    with the id of the row. *)
Definition templateTwoRows : Template :=
  mkTemplate "t_template" "T Template" (mkCanvas (numZ 800) (numZ 600))
             [plainElement "column" container
                [plainElement "row" container [plainElement "label" shape []]];
              plainElement "row" container []].

(** ** The final validation *)

(** A canvas dimension that [validateScene] rejects: zero or not a number. *)
Definition blank (n : number) : Prop := n = NaN \/ n = numZ 0.

(** A positive dimension, as the specification asks for. *)
Definition positive_number (n : number) : Prop :=
  exists q, n = Num q /\ (0 < q)%Qc.

(** A [data_item] element that references an id (not the empty string) that
    is not among the given ids. *)
Definition danglingItem (ids : list string) (e : Element) : Prop :=
  is_data_item e = true
  /\ exists id, data_item_id e = Some id /\ id <> "" /\ ~ In id ids.

Definition numberParam (key : string) (z : Z) : string * JValue :=
  (key, JNum (numZ z)).

(** A pipeline of one step, which sets a canvas of negative width. *)
Definition negativeCanvasOperations : list Operation :=
  [mkOperation 1 "create_canvas"
               (JObj [numberParam "width" (-5); numberParam "height" 10])].

Definition isComplete (m : option WsMessage) : bool :=
  match m with
  | Some (EXECUTION_COMPLETE _ _ _ _) => true
  | _ => false
  end.

(** ** Class names in the stylesheet and in the markup *)

(** A composed class name: the ids of the ancestors, outermost first, and the
    id of the element, joined by a separator. *)
Definition joinedName (separator : string) (ancestors : list string)
           (e : Element) : string :=
  String.concat separator (ancestors ++ [element_id e]).

Section ComposedNames.
Context (env : Host) (separator : string).

(** The rules of an element and of everything below it, one for each element
    that has a style, each under its composed class name. *)
Fixpoint spec_rules (fontMap : gmap string Font) (colorMap : gmap string Color)
         (ancestors : list string) (e : Element) : string :=
  match style e with
  | Some st =>
      "." +:+ joinedName separator ancestors e +:+ " {" +:+ nl
      +:+ convertStyleToCSS env st fontMap colorMap +:+ "}" +:+ nl +:+ nl
  | None => ""
  end
  +:+ concatStrings
        (map (spec_rules fontMap colorMap (ancestors ++ [element_id e]))
             (children e)).

(** The markup of an element, every rendered element under its composed class
    name. *)
Fixpoint spec_markup (dataItemMap : gmap string DataItem) (indentLevel : nat)
         (ancestors : list string) (e : Element) : string :=
  let indent := repeatString "  " indentLevel in
  let name := joinedName separator ancestors e in
  match element_type e with
  | data_item => generateDataItemHTML e dataItemMap name indent
  | shape => generateShapeHTML e name indent
  | container =>
      indent +:+ "<div class=" +:+ dq +:+ name +:+ dq +:+ ">" +:+ nl
      +:+ concatStrings
            (map (spec_markup dataItemMap (S indentLevel)
                              (ancestors ++ [element_id e]))
                 (children e))
      +:+ indent +:+ "</div>" +:+ nl
  | image => generateImageHTML e name indent
  | svg => generateSVGHTML e name indent
  end.

End ComposedNames.

(** A card that holds a badge, both styled. *)
Definition sceneNested : Scene :=
  mkScene
    (mkSceneData "s" [])
    (mkTemplate "s_template" "S Template" (mkCanvas (numZ 800) (numZ 600))
       [mkElement "card" container None None None None
                  (Some [("display", "flex")])
                  [mkElement "badge" shape None (Some circle) None None
                             (Some [("width", "10px")]) []]])
    emptyTheme.

Definition badge : Element :=
  mkElement "badge" shape None (Some circle) None None
            (Some [("width", "10px")]) [].

(** ** Runs of the executor *)

Definition stringParam (key value : string) : string * JValue :=
  (key, JStr value).

(** The scenario of the specification. *)
Definition scenarioOperations : list Operation :=
  [mkOperation 1 "create_canvas"
     (JObj [numberParam "width" 1240; numberParam "height" 1748;
            stringParam "background_color" "#FFFF00"]);
   mkOperation 2 "add_text_layer"
     (JObj [stringParam "layer_name" "title"; stringParam "text" "Hello";
            stringParam "anchor" "center"])].

Definition transformOf (e : Element) : option string :=
  match style e with
  | Some st => styleGet "transform" st
  | None => None
  end.

(** Five operations, the third of which is a placeholder that always
    fails. *)
Definition fiveOperations : list Operation :=
  [mkOperation 1 "create_canvas"
     (JObj [numberParam "width" 800; numberParam "height" 600]);
   mkOperation 2 "add_text_layer"
     (JObj [stringParam "layer_name" "title"; stringParam "text" "Hello"]);
   mkOperation 3 "resize_image" (JObj []);
   mkOperation 4 "add_text_layer"
     (JObj [stringParam "layer_name" "subtitle"; stringParam "text" "World"]);
   mkOperation 5 "crop_image" (JObj [])].

(** * Definitions for further statements *)

(** ** Colour literals *)

Definition isHexDigit (c : ascii) : bool :=
  match digitValue c with Some _ => true | None => false end.

Fixpoint allHexDigits (s : string) : bool :=
  match s with
  | EmptyString => true
  | String c rest => isHexDigit c && allHexDigits rest
  end.

(** A colour channel: a whole number from 0 to 255. *)
Definition channel (n : number) : Prop :=
  exists z, n = numZ z /\ 0 <= z <= 255.

(** An alpha of the 8-digit form: a channel divided by 255. *)
Definition alphaOfByte (n : number) : Prop :=
  exists z, n = ndivZ (numZ z) 255 /\ 0 <= z <= 255.

Definition hasNaN (v : RGBA) : bool :=
  match rgba_r v, rgba_g v, rgba_b v, rgba_a v with
  | Num _, Num _, Num _, Num _ => false
  | _, _, _, _ => true
  end.

(** Two font names that differ at most in the case of their letters. *)
Definition sameFontName (a b : string) : bool :=
  String.eqb (toLowerCase a) (toLowerCase b).

Definition themeEightFonts : Theme :=
  mkTheme "t_theme" "T Theme" []
          (map (fun i => mkFont ("font" +:+ showZ i) ("Family" +:+ showZ i) "")
               [1; 2; 3; 4; 5; 6; 7; 8]).

(** * More of [operation-handlers.ts] *)

(** ** Changing an element or a data item in place *)

(** The change [f] applied in place to the object that [findElement]
    returned: the node reached first by its traversal is replaced by its
    changed version; [None] when [findElement] finds nothing. *)
Definition updateHere (f : Element -> Element) (elementId : string)
           (element : Element) : option (unit * list Element) :=
  if String.eqb (element_id element) elementId then Some (tt, [f element])
  else None.

Fixpoint updateWithin (f : Element -> Element) (elementId : string)
         (element : Element) : option (unit * Element) :=
  if is_container element then
    match changeFirst (updateHere f elementId) (updateWithin f elementId)
                      (children element) with
    | Some (_, children') => Some (tt, set_children element children')
    | None => None
    end
  else None.

Definition updateElement (f : Element -> Element) (elements : list Element)
           (elementId : string) : option (list Element) :=
  match changeFirst (updateHere f elementId) (updateWithin f elementId)
                    elements with
  | Some (_, elements') => Some elements'
  | None => None
  end.

(** [if (!element.style) element.style = {}]. *)
Definition initStyle (element : Element) : Element :=
  set_style element (Some (default [] (style element))).

(** [element.style[key] = value], after [initStyle]. *)
Definition setStyleProperty (key value : string) (element : Element)
  : Element :=
  set_style element (Some (styleSet key value (default [] (style element)))).

(** [data_items.find(item => item.id === id)]. *)
Definition findDataItem (items : list DataItem) (id : string)
  : option DataItem :=
  List.find (fun item => String.eqb (item_id item) id) items.

(** The first data item of the given id, changed in place by [f]. *)
Fixpoint updateDataItem (f : DataItem -> DataItem) (items : list DataItem)
         (id : string) : list DataItem :=
  match items with
  | [] => []
  | item :: rest =>
      if String.eqb (item_id item) id then f item :: rest
      else item :: updateDataItem f rest id
  end.

(** [data_items.splice(data_items.findIndex(item => item.id === id), 1)] when
    the index is not [-1]. *)
Fixpoint removeDataItem (items : list DataItem) (id : string)
  : list DataItem :=
  match items with
  | [] => []
  | item :: rest =>
      if String.eqb (item_id item) id then rest
      else item :: removeDataItem rest id
  end.

Definition set_content (item : DataItem) (text : string) : DataItem :=
  mkDataItem (item_id item) (item_type item) (display_name item) (Some text)
             (item_image_url item).

(** Truthiness of a value. *)
Definition truthyValue (v : JValue) : bool :=
  match v with
  | JNull => false
  | JBool b => b
  | JNum n => truthyNum n
  | JStr s => truthyStr s
  | JArr _ | JObj _ => true
  end.

(** A parameter that is a number or a string, with no test of truthiness. *)
Definition lengthField (key : string) (params : JValue) : option SizeValue :=
  match field key params with
  | Some (JNum n) => Some (SizeNum n)
  | Some (JStr s) => Some (SizeStr s)
  | _ => None
  end.

Section MoreHandlers.
Context (env : Host).

(** [typeof v === 'number' ? `${v}px` : v]. *)
Definition pxOrString (v : SizeValue) : string :=
  match v with
  | SizeNum n => showNum env n +:+ "px"
  | SizeStr s => s
  end.

(** A number stored where the style expects a string: what every reader of
    the style makes of it. *)
Definition asStyleValue (v : SizeValue) : string :=
  match v with
  | SizeNum n => showNum env n
  | SizeStr s => s
  end.

(** The change [f] on the element of the given id of the template. *)
Definition mutateElement (elementId : string) (f : Element -> Element)
  : M unit :=
  modifyContext (fun c =>
    match updateElement f (elements (template c)) elementId with
    | Some elements' => set_template c (set_elements (template c) elements')
    | None => c
    end).

Definition handleAddImageLayer : OperationHandler := fun params =>
  match someTruthyStr (strField "layer_name" params),
        someTruthyStr (strField "input_image" params) with
  | Some layer_name, Some input_image =>
      let x := default nzero (numField "x" params) in
      let y := default nzero (numField "y" params) in
      do dataItemId <- freshId env "data";
      run pushDataItem
            (mkDataItem dataItemId ImageItem layer_name None (Some input_image));
      do elementId <- freshId env "elem";
      let style0 : ElementStyle :=
        [("position", "absolute");
         ("left", showNum env x +:+ "px");
         ("top", showNum env y +:+ "px")] in
      let style1 :=
        match sizeField "width" params with
        | Some w => styleSet "width" (pxOrString w) style0
        | None => style0
        end in
      let style2 :=
        match sizeField "height" params with
        | Some h => styleSet "height" (pxOrString h) style1
        | None => style1
        end in
      run pushElement
            (mkElement elementId data_item (Some dataItemId) None None None
                       (Some style2) []);
      run setLayer layer_name elementId;
      ret (okResult (JObj [("elementId", JStr elementId);
                           ("dataItemId", JStr dataItemId)]))
  | _, _ => throw (ValidationError "layer_name and input_image are required")
  end.

(** The layer of the given name: its element id and its element, or the
    [ReferenceError] of the handlers that address a layer. *)
Definition lookupLayer (layer_name : string) : M (string * Element) :=
  do c <- getContext;
  match someTruthyStr (layerMap c !! layer_name) with
  | None => throw (ReferenceError ("Layer not found: " +:+ layer_name))
  | Some elementId =>
      match findElement (elements (template c)) elementId with
      | None => throw (ReferenceError ("Element not found: " +:+ elementId))
      | Some element => ret (elementId, element)
      end
  end.

Definition handleEditTextLayer : OperationHandler := fun params =>
  match someTruthyStr (strField "layer_name" params) with
  | None => throw (ValidationError "layer_name is required")
  | Some layer_name =>
      do found <- lookupLayer layer_name;
      let elementId := fst found in
      let element := snd found in
      let notText :=
        ValidationError ("Layer " +:+ layer_name +:+ " is not a text layer") in
      if negb (is_data_item element) then throw notText
      else
        do c <- getContext;
        match match data_item_id element with
              | Some id => findDataItem (data_items (data c)) id
              | None => None
              end with
        | None => throw notText
        | Some dataItem =>
            match item_type dataItem with
            | ImageItem => throw notText
            | TextItem =>
                run match strField "text_content" params with
                    | Some text_content =>
                        modifyContext (fun c =>
                          set_data c
                            (mkSceneData (scene_id (data c))
                               (updateDataItem
                                  (fun item => set_content item text_content)
                                  (data_items (data c)) (item_id dataItem))))
                    | None => ret tt
                    end;
                run mutateElement elementId initStyle;
                run match strField "font_name" params with
                    | Some font_name =>
                        do fontId <- ensureFont env font_name;
                        mutateElement elementId (setStyleProperty "font" fontId)
                    | None => ret tt
                    end;
                run match lengthField "font_size" params with
                    | Some font_size =>
                        mutateElement elementId
                          (setStyleProperty "font_size" (asStyleValue font_size))
                    | None => ret tt
                    end;
                run match strField "color" params with
                    | Some color =>
                        do colorId <- ensureColor env color;
                        mutateElement elementId (setStyleProperty "color" colorId)
                    | None => ret tt
                    end;
                run match strField "text_align" params with
                    | Some text_align =>
                        mutateElement elementId
                          (setStyleProperty "text_align" text_align)
                    | None => ret tt
                    end;
                ret (okResult (JObj [("elementId", JStr elementId)]))
            end
        end
  end.

Definition handleSetLayerVisibility : OperationHandler := fun params =>
  match someTruthyStr (strField "layer_name" params), field "visible" params with
  | Some layer_name, Some visible =>
      do found <- lookupLayer layer_name;
      run mutateElement (fst found)
            (setStyleProperty "display"
                              (if truthyValue visible then "block" else "none"));
      ret (okResult (JObj [("elementId", JStr (fst found));
                           ("visible", visible)]))
  | _, _ => throw (ValidationError "layer_name and visible are required")
  end.

Definition handleDeleteLayer : OperationHandler := fun params =>
  match someTruthyStr (strField "layer_name" params) with
  | None => throw (ValidationError "layer_name is required")
  | Some layer_name =>
      do found <- lookupLayer layer_name;
      let elementId := fst found in
      let element := snd found in
      run match (if is_data_item element
                 then someTruthyStr (data_item_id element) else None) with
          | Some id =>
              modifyContext (fun c =>
                set_data c (mkSceneData (scene_id (data c))
                                        (removeDataItem (data_items (data c)) id)))
          | None => ret tt
          end;
      do c <- getContext;
      match removeElementFromTemplate (template c) elementId with
      | None =>
          throw (ReferenceError ("Failed to remove element: " +:+ elementId))
      | Some (_, template') =>
          run modifyContext (fun c =>
                set_layerMap (set_template c template')
                             (delete layer_name (layerMap c)));
          ret (okResult (JObj [("elementId", JStr elementId)]))
      end
  end.

Definition handleCreateFlexContainer : OperationHandler := fun params =>
  match someTruthyStr (strField "container_name" params) with
  | None => throw (ValidationError "container_name is required")
  | Some container_name =>
      let direction := default "row" (strField "direction" params) in
      let justify := default "flex-start" (strField "justify" params) in
      let align := default "flex-start" (strField "align" params) in
      let gap := default (SizeStr "0px") (lengthField "gap" params) in
      let x := default nzero (numField "x" params) in
      let y := default nzero (numField "y" params) in
      do elementId <- freshId env "elem";
      let style0 : ElementStyle :=
        [("position", "absolute");
         ("left", showNum env x +:+ "px");
         ("top", showNum env y +:+ "px");
         ("display", "flex");
         ("flex_direction", direction);
         ("justify_content", justify);
         ("align_items", align);
         ("gap", pxOrString gap)] in
      let style1 :=
        match sizeField "width" params with
        | Some w => styleSet "width" (pxOrString w) style0
        | None => style0
        end in
      let style2 :=
        match sizeField "height" params with
        | Some h => styleSet "height" (pxOrString h) style1
        | None => style1
        end in
      run pushElement
            (mkElement elementId container None None None None (Some style2) []);
      run setLayer container_name elementId;
      ret (okResult (JObj [("elementId", JStr elementId)]))
  end.

Definition handleSetFlexLayout : OperationHandler := fun params =>
  match someTruthyStr (strField "container_name" params) with
  | None => throw (ValidationError "container_name is required")
  | Some container_name =>
      do c <- getContext;
      match someTruthyStr (layerMap c !! container_name) with
      | None =>
          throw (ReferenceError ("Container not found: " +:+ container_name))
      | Some containerElementId =>
          match findElement (elements (template c)) containerElementId with
          | None =>
              throw (ReferenceError
                       ("Element not found: " +:+ containerElementId))
          | Some found =>
              if negb (is_container found) then
                throw (ValidationError
                         ("Element " +:+ container_name
                          +:+ " is not a container"))
              else
                let optional (key : string) (value : option string)
                    (e : Element) : Element :=
                  match value with
                  | Some v => setStyleProperty key v e
                  | None => e
                  end in
                run mutateElement containerElementId
                      (fun e =>
                         optional "gap"
                           (option_map pxOrString (lengthField "gap" params))
                           (optional "align_items" (strField "align" params)
                              (optional "justify_content"
                                 (strField "justify" params)
                                 (optional "flex_direction"
                                    (strField "direction" params)
                                    (setStyleProperty "display" "flex" e)))));
                ret (okResult
                       (JObj [("containerElementId", JStr containerElementId)]))
          end
      end
  end.

(** The entries of the registry for the handlers of this part; [rest] stands
    for [generate_image], [edit_image] and [set_layer_anchor]. *)
Definition moreHandlers (rest : string -> option OperationHandler)
           (name : string) : option OperationHandler :=
  if String.eqb name "add_image_layer" then Some handleAddImageLayer
  else if String.eqb name "edit_text_layer" then Some handleEditTextLayer
  else if String.eqb name "set_layer_visibility"
       then Some handleSetLayerVisibility
  else if String.eqb name "delete_layer" then Some handleDeleteLayer
  else if String.eqb name "create_flex_container"
       then Some handleCreateFlexContainer
  else if String.eqb name "set_flex_layout" then Some handleSetFlexLayout
  else rest name.

End MoreHandlers.

(** ** Labels of the elements of a tree *)

(** What [label] gives for an element and for everything below it, parents
    before children. *)
Fixpoint subtreeLabels {L : Type} (label : Element -> list L) (e : Element)
  : list L :=
  label e ++ flat_map (subtreeLabels label) (children e).

Definition forestLabels {L : Type} (label : Element -> list L)
           (l : list Element) : list L :=
  flat_map (subtreeLabels label) l.

Definition idLabel (e : Element) : list string := [element_id e].

(** The data item that an element references, as [validateScene] reads it. *)
Definition referenceLabel (e : Element) : list string :=
  if is_data_item e then
    match someTruthyStr (data_item_id e) with
    | Some id => [id]
    | None => []
    end
  else [].

(** [container.children.push(child)]. *)
Definition appendChild (child : Element) (e : Element) : Element :=
  set_children e (children e ++ [child]).


(** ** The messages of a run *)

(** What a progress message announces: the step and the operation. *)
Definition announced (m : WsMessage) : option (Z * string) :=
  match m with
  | EXECUTION_PROGRESS s _ o _ => Some (s, o)
  | _ => None
  end.

Definition callOf (op : Operation) : Z * string := (step op, operation op).

(** The operations that have no implementation. *)
Definition placeholderOperations : list string :=
  ["resize_image"; "crop_image"; "remove_background"; "upscale"; "segment"].


(** ** What the final validation asks of a context *)

(** The data items that the elements of the template reference, one entry
    per referencing element, and the ids of the data items there are. *)
Definition references (c : ExecutionContext) : list string :=
  forestLabels referenceLabel (elements (template c)).

Definition itemIds (c : ExecutionContext) : list string :=
  map item_id (data_items (data c)).

(** The canvas has dimensions, the palettes are within their limits, and
    every reference of an element has a data item of its own, as have the
    ids of [spare]. *)
Definition sound (spare : list string) (c : ExecutionContext) : Prop :=
  truthyNum (width (canvas (template c))) = true
  /\ truthyNum (height (canvas (template c))) = true
  /\ (List.length (color_palette (theme c)) <= 16)%nat
  /\ (List.length (font_palette (theme c)) <= 8)%nat
  /\ spare ++ references c ⊆+ itemIds c.

(** A computation that takes a sound context with the spare data items [s]
    to one with the spare data items [s'], and that leaves a sound context
    when it throws. *)
Definition moves {A : Type} (s s' : list string) (c : M A) : Prop :=
  forall spare w,
    sound (s ++ spare) (context w) ->
    match c w with
    | (Ok _, w') => sound (s' ++ spare) (context w')
    | (Throw _, w') => sound spare (context w')
    end.

Definition keeps {A : Type} (c : M A) : Prop := forall s, moves s s c.

(** The operations whose handlers are embedded. *)
Definition embeddedOperations : list string :=
  ["create_canvas"; "add_image_layer"; "add_text_layer"; "edit_text_layer";
   "set_layer_visibility"; "delete_layer"; "resize_image"; "crop_image";
   "remove_background"; "upscale"; "segment"; "create_flex_container";
   "add_layer_to_container"; "set_flex_layout"].


(** ** What belongs to the executor *)

(** The part of the context that the loop of [executeOperations] manages. *)
Definition frameOf (c : ExecutionContext)
  : string * string * Z * nat * gmap Z JValue :=
  (sceneId c, sceneName c, currentStep c, totalSteps c, operationOutputs c).

(** A computation that leaves this part alone. *)
Definition frames {A : Type} (c : M A) : Prop :=
  forall w, frameOf (context (snd (c w))) = frameOf (context w).

(** A handler that reports success with an output whenever it returns. *)
Definition answers (c : M OperationResult) : Prop :=
  forall w result w',
    c w = (Ok result, w') -> success result = true /\ is_Some (output result).

(** The total that a progress message carries. *)
Definition announcedTotal (m : WsMessage) : option nat :=
  match m with
  | EXECUTION_PROGRESS _ total _ _ => Some total
  | _ => None
  end.


(** * More of [scene_generator.ts] *)

Module SceneGenerator.

Definition isLowerAlnum (c : ascii) : bool :=
  let n := nat_of_ascii c in
  ((97 <=? n) && (n <=? 122) || (48 <=? n) && (n <=? 57))%nat.

(** [s.replace(/[^a-z0-9]+/g, '_')]: every maximal run of other characters
    becomes one underscore; [inRun] tells that the previous character was one
    of them. *)
Fixpoint underscoreRunsFrom (inRun : bool) (s : string) : string :=
  match s with
  | EmptyString => EmptyString
  | String c rest =>
      if isLowerAlnum c then String c (underscoreRunsFrom false rest)
      else if inRun then underscoreRunsFrom true rest
      else String "_" (underscoreRunsFrom true rest)
  end.

(** The [_$] of [s.replace(/^_|_$/g, '')]. *)
Fixpoint dropFinalUnderscore (s : string) : string :=
  match s with
  | EmptyString => EmptyString
  | String c rest =>
      match rest with
      | EmptyString => if Ascii.eqb c "_" then EmptyString else s
      | String _ _ => String c (dropFinalUnderscore rest)
      end
  end.

(** [s.replace(/^_|_$/g, '')]: an underscore at the start goes, and so does
    one at the end of what is left. *)
Definition trimUnderscores (s : string) : string :=
  dropFinalUnderscore (match s with
                       | String "_" rest => rest
                       | _ => s
                       end).

Definition sanitizeId (name : string) : string :=
  trimUnderscores (underscoreRunsFrom false (toLowerCase name)).

(** [s.replace('#', '')]: the first [#] goes. *)
Fixpoint removeFirstHash (s : string) : string :=
  match s with
  | EmptyString => EmptyString
  | String c rest =>
      if Ascii.eqb c "#" then rest else String c (removeFirstHash rest)
  end.

(** [s.replace(/\n/g, replacement)]. *)
Fixpoint replaceNewlines (replacement : string) (s : string) : string :=
  match s with
  | EmptyString => EmptyString
  | String c rest =>
      if Ascii.eqb c (ascii_of_nat 10)
      then replacement +:+ replaceNewlines replacement rest
      else String c (replaceNewlines replacement rest)
  end.

Definition letterSpacingToEm (canvaValue : float) : float :=
  (math_round ((canvaValue / 1000) * 1000) / 1000)%float.

Definition hexToRgb (hex : string) : number * number * number :=
  let clean := removeFirstHash hex in
  (parseInt (js_substring 0 2 clean) 16,
   parseInt (js_substring 2 4 clean) 16,
   parseInt (js_substring 4 6 clean) 16).

(** A [TextEntry] in full: the fields that place the text, and the others;
    [angle] is [None] when the input gives no angle. *)
Record FullTextEntry : Type := mkFullTextEntry {
  placement : TextEntry;
  text : string;
  alignment : string;
  angle : option float;
  color : string;
  letterSpacing : float
}.

Record ParsedScene : Type := mkParsedScene {
  canvasWidthPx : number;
  canvasHeightPx : number;
  textEntries : list FullTextEntry
}.

Definition fontIdOf (entry : FullTextEntry) : string :=
  "font_" +:+ sanitizeId (fontName (placement entry)).

Section Generator.
Context (env : Host).

(** [getFontUrl] of [scene_generator.ts], with the font cache. *)
Definition getFontUrl (cache : gmap string bool) (name : string)
  : string * gmap string bool :=
  let answer := isGoogleFont env cache name in
  (if fst answer then
     "https://fonts.googleapis.com/css2?family=" +:+ plusForSpaces name
     +:+ ":wght@300;400;500;600;700&display=swap"
   else "fonts/" +:+ name +:+ ".otf",
   snd answer).

(** One turn of the loop that fills [fontSet]: the fonts in insertion order
    and the font cache. *)
Definition addFont (state : list Font * gmap string bool)
           (entry : FullTextEntry) : list Font * gmap string bool :=
  let fontId := fontIdOf entry in
  if existsb (fun f => String.eqb (font_id f) fontId) (fst state) then state
  else
    let url := getFontUrl (snd state) (fontName (placement entry)) in
    (fst state ++ [mkFont fontId (fontName (placement entry)) (fst url)],
     snd url).

(** One turn of the loop that fills [colorSet]. *)
Definition addColor (colors : list Color) (entry : FullTextEntry)
  : list Color :=
  let hex := toLowerCase (color entry) in
  let colorId := "color_" +:+ removeFirstHash hex in
  if existsb (fun c => String.eqb (color_id c) colorId) colors then colors
  else
    let rgb := hexToRgb hex in
    colors ++ [mkColor colorId hex (fst (fst rgb)) (snd (fst rgb)) (snd rgb)
                       (numZ 1)].

Definition addBlack (colors : list Color) : list Color :=
  if existsb (fun c => String.eqb (color_id c) "color_000000") colors
  then colors
  else colors ++ [mkColor "color_000000" "Black" (numZ 0) (numZ 0) (numZ 0)
                          (numZ 1)].

Definition bgDataItem : DataItem :=
  mkDataItem "background_image" ImageItem "Background Image" None
             (Some "bg.png").

Definition bgElement : Element :=
  mkElement "background_element" data_item (Some "background_image") None None
            None
            (Some [("width", "100%"); ("height", "100%");
                   ("object_fit", "cover")])
            [].

(** The data item of the text entry of index [i]. *)
Definition textDataItem (i : nat) (entry : FullTextEntry) : DataItem :=
  let flat := replaceNewlines " " (text entry) in
  mkDataItem ("text_" +:+ showZ (Z.of_nat i + 1)) TextItem
             (if (40 <? String.length flat)%nat
              then js_substring 0 40 flat +:+ "..."
              else flat)
             (Some (replaceNewlines "<br>" (text entry))) None.

(** The element of the text entry of index [i]. *)
Definition textElement (i : nat) (entry : FullTextEntry) : Element :=
  let xPx := mmToPx (xMm (placement entry)) in
  let fontSizePx := ptToPx (fontSize (placement entry)) in
  let yPx := entryYPx (placement entry) in
  let colorId := "color_" +:+ toLowerCase (removeFirstHash (color entry)) in
  let style0 : ElementStyle :=
    [("position", "absolute");
     ("font", fontIdOf entry);
     ("font_size", showDouble env fontSizePx +:+ "px");
     ("color", colorId);
     ("line_height", showDouble env (lineSpacing (placement entry)));
     ("letter_spacing",
      showDouble env (letterSpacingToEm (letterSpacing entry)) +:+ "em")] in
  let rotation : option string :=
    match angle entry with
    | Some a =>
        if negb (a =? 0)%float
        then Some ("rotate(" +:+ showDouble env a +:+ "deg)")
        else None
    | None => None
    end in
  let positioned : ElementStyle :=
    if String.eqb (alignment entry) "centered" then
      style0 ++ [("left", "50%"); ("text_align", "center");
                 ("top", showDouble env yPx +:+ "px");
                 ("transform",
                  match rotation with
                  | Some r => "translateX(-50%) " +:+ r
                  | None => "translateX(-50%)"
                  end)]
    else
      style0 ++ [("left", showDouble env xPx +:+ "px");
                 ("top", showDouble env yPx +:+ "px");
                 ("text_align",
                  if String.eqb (alignment entry) "right"
                  then "right" else "left")]
      ++ match rotation with
         | Some r => [("transform", r)]
         | None => []
         end in
  mkElement ("text_" +:+ showZ (Z.of_nat i + 1) +:+ "_element") data_item
            (Some ("text_" +:+ showZ (Z.of_nat i + 1))) None None None
            (Some positioned) [].

(** [generateScene(parsed, sceneId, sceneName)], with the font cache before
    and after. *)
Definition generateScene (cache : gmap string bool) (parsed : ParsedScene)
           (sceneId sceneName : string) : Scene * gmap string bool :=
  let fonts := fold_left addFont (textEntries parsed) ([], cache) in
  let colors := addBlack (fold_left addColor (textEntries parsed) []) in
  (mkScene
     (mkSceneData sceneId
        (bgDataItem :: imap textDataItem (textEntries parsed)))
     (mkTemplate (sceneId +:+ "_template") (sceneName +:+ " Template")
        (mkCanvas (canvasWidthPx parsed) (canvasHeightPx parsed))
        (bgElement :: imap textElement (textEntries parsed)))
     (mkTheme (sceneId +:+ "_theme") (sceneName +:+ " Theme") colors
              (fst fonts)),
   snd fonts).

End Generator.

End SceneGenerator.


(** ** Identifiers made by [sanitizeId] *)

(** [s] is made of lower-case letters, digits and single underscores, none
    of them right after [afterUnderscore] or at the end: for
    [afterUnderscore = true], the strings of [^[a-z0-9]+(_[a-z0-9]+)*$]. *)
Fixpoint wordsJoined (afterUnderscore : bool) (s : string) : bool :=
  match s with
  | EmptyString => negb afterUnderscore
  | String c rest =>
      if Ascii.eqb c "_" then negb afterUnderscore && wordsJoined true rest
      else SceneGenerator.isLowerAlnum c && wordsJoined false rest
  end.

(** A sanitized identifier: empty, or words joined by single underscores. *)
Definition isSanitized (s : string) : bool :=
  String.eqb s "" || wordsJoined true s.

(** Like [wordsJoined], without the condition on the end. *)
Fixpoint singleUnderscores (afterUnderscore : bool) (s : string) : bool :=
  match s with
  | EmptyString => true
  | String c rest =>
      if Ascii.eqb c "_"
      then negb afterUnderscore && singleUnderscores true rest
      else SceneGenerator.isLowerAlnum c && singleUnderscores false rest
  end.


(** ** White space *)

Fixpoint noWhiteSpace (s : string) : bool :=
  match s with
  | EmptyString => true
  | String c rest => negb (isWhiteSpace c) && noWhiteSpace rest
  end.


(** ** The markup of a generated scene *)

(** The line of the background image and the line of the text entry of
    index [i] in the markup. *)
Definition backgroundLine : string :=
  "  <img class=" +:+ dq +:+ "background_element" +:+ dq +:+ " src=" +:+ dq
  +:+ "bg.png" +:+ dq +:+ " alt=" +:+ dq +:+ "Background Image" +:+ dq
  +:+ " />" +:+ nl.

Definition textLine (i : nat) (entry : SceneGenerator.FullTextEntry) : string :=
  "  <div class=" +:+ dq
  +:+ ("text_" +:+ showZ (Z.of_nat i + 1) +:+ "_element") +:+ dq +:+ ">"
  +:+ SceneGenerator.replaceNewlines "<br>" (SceneGenerator.text entry)
  +:+ "</div>" +:+ nl.


(** ** The fonts and the colours that styles name *)

(** What a style can name in the theme. *)
Inductive ThemeRef : Type :=
| FontRef (id : string)
| ColorRef (id : string).

(** The style properties whose value [convertStyleToCSS] looks up in the
    colour table. *)
Definition colorKeys : list string :=
  ["color"; "fill"; "background_color"; "border_color"].

(** The values of the [font] property and of the colour properties of a
    style. *)
Definition styleRefs (st : ElementStyle) : list ThemeRef :=
  match styleGet "font" st with
  | Some f => [FontRef f]
  | None => []
  end
  ++ flat_map (fun key => match styleGet key st with
                          | Some c => [ColorRef c]
                          | None => []
                          end) colorKeys.

Definition themeRefs (e : Element) : list ThemeRef :=
  match style e with
  | Some st => styleRefs st
  | None => []
  end.

Definition inTheme (th : Theme) (r : ThemeRef) : Prop :=
  match r with
  | FontRef id => In id (map font_id (font_palette th))
  | ColorRef id => In id (map color_id (color_palette th))
  end.

(** Every font and colour that a style of the template names, and every one
    of [known], is in the theme. *)
Definition resolved (known : list ThemeRef) (c : ExecutionContext) : Prop :=
  forall r,
    In r (known ++ forestLabels themeRefs (elements (template c))) ->
    inTheme (theme c) r.

(** A computation that keeps this, whatever its outcome, and one that
    moreover makes known what it returns. *)
Definition settles {A : Type} (known : list ThemeRef) (c : M A) : Prop :=
  forall w, resolved known (context w) -> resolved known (context (snd (c w))).

Definition yields {A : Type} (known : list ThemeRef) (ref : A -> ThemeRef)
           (c : M A) : Prop :=
  forall w,
    resolved known (context w) ->
    match c w with
    | (Ok x, w') => resolved (ref x :: known) (context w')
    | (Throw _, w') => resolved known (context w')
    end.

(** ** Text in ASCII *)

(** Every character is below 128: on such text one character is one UTF-16
    unit, so that [String.length] is [length], and the lower case and the
    white space of the embedding are JavaScript's. *)
Fixpoint isAscii (s : string) : bool :=
  match s with
  | EmptyString => true
  | String c rest => (nat_of_ascii c <? 128)%nat && isAscii rest
  end.

Fixpoint allWhiteSpace (s : string) : bool :=
  match s with
  | EmptyString => true
  | String c rest => isWhiteSpace c && allWhiteSpace rest
  end.

(** The first character is white space. *)
Definition startsWithWhiteSpace (s : string) : bool :=
  match s with
  | EmptyString => false
  | String c _ => isWhiteSpace c
  end.


(** ** Parameters of the declared types *)

(** The parameter is absent or a string. *)
Definition absentOrString (key : string) (params : JValue) : bool :=
  match field key params with
  | None | Some (JStr _) => true
  | Some _ => false
  end.

(** The parameter is absent, a number or a string. *)
Definition absentOrLength (key : string) (params : JValue) : bool :=
  match field key params with
  | None | Some (JNum _) | Some (JStr _) => true
  | Some _ => false
  end.

(** The parameters of [set_flex_layout] have the types that the operation
    declares: strings, and for [gap] a number or a string. *)
Definition flexLayoutTyped (params : JValue) : bool :=
  absentOrString "container_name" params
  && absentOrString "direction" params
  && absentOrString "justify" params
  && absentOrString "align" params
  && absentOrLength "gap" params.

(** The world after [create_flex_container] for a container named [row],
    and parameters that turn it into a column with a gap of 8 pixels. *)
Definition worldWithRow : World :=
  snd (handleCreateFlexContainer sampleHost
         (JObj [stringParam "container_name" "row"])
         (mkWorld (initialContext "s" "S" []) 0 ∅)).

Definition columnWithGap : JValue :=
  JObj [stringParam "container_name" "row";
        stringParam "direction" "column";
        ("gap", JNum (numZ 8))].


(** * Properties *)

(** ** The colour palette *)

Lemma strict_eq_sym (x y : number) : strict_eq x y = strict_eq y x.
Proof.
  destruct x as [|p], y as [|q]; simpl; try reflexivity.
  destruct (Qeq_bool (this p) (this q)) eqn:E1, (Qeq_bool (this q) (this p)) eqn:E2;
    try reflexivity.
  - apply Qeq_bool_iff in E1. symmetry in E1. apply Qeq_bool_iff in E1. congruence.
  - apply Qeq_bool_iff in E2. symmetry in E2. apply Qeq_bool_iff in E2. congruence.
Qed.

Lemma strict_eq_trans (x y z : number) :
  strict_eq x y = true -> strict_eq y z = true -> strict_eq x z = true.
Proof.
  destruct x as [|p], y as [|q], z as [|r]; simpl; try discriminate.
  intros H1 H2. apply Qeq_bool_iff in H1, H2. apply Qeq_bool_iff.
  now rewrite H1.
Qed.

Lemma strict_eq_congr (x y z : number) :
  strict_eq x y = true -> strict_eq z x = strict_eq z y.
Proof.
  intros H.
  destruct (strict_eq z x) eqn:E1, (strict_eq z y) eqn:E2; try reflexivity.
  - rewrite (strict_eq_trans z x y E1 H) in E2. discriminate.
  - rewrite strict_eq_sym in H.
    rewrite (strict_eq_trans z y x E2 H) in E1. discriminate.
Qed.

(** Two parsed colours that are identical select the same palette entries. *)
Lemma sameRGBA_identical (u v : RGBA) (c : Color) :
  identicalRGBA u v = true -> sameRGBA v c = sameRGBA u c.
Proof.
  unfold identicalRGBA, sameRGBA. intros H.
  apply andb_prop in H as [H Ha]. apply andb_prop in H as [H Hb].
  apply andb_prop in H as [Hr Hg].
  rewrite (strict_eq_congr _ _ (color_r c) Hr), (strict_eq_congr _ _ (color_g c) Hg),
          (strict_eq_congr _ _ (color_b c) Hb), (strict_eq_congr _ _ (color_a c) Ha).
  reflexivity.
Qed.

Lemma strict_eq_refl_of (x y : number) :
  strict_eq x y = true -> strict_eq x x = true.
Proof.
  intros H. apply (strict_eq_trans x y x H). now rewrite strict_eq_sym.
Qed.

Lemma find_ext_list {A : Type} (p q : A -> bool) (l : list A) :
  (forall x, p x = q x) -> List.find p l = List.find q l.
Proof.
  intros H. induction l as [|x l IH]; simpl; [reflexivity|].
  rewrite H, IH. reflexivity.
Qed.

Lemma find_app_none {A : Type} (p : A -> bool) (l : list A) (x : A) :
  List.find p l = None -> p x = true -> List.find p (l ++ [x]) = Some x.
Proof.
  induction l as [|y l IH]; simpl; intros Hn Hx.
  - now rewrite Hx.
  - destruct (p y); [discriminate|]. now apply IH.
Qed.

Lemma find_none_existsb {A : Type} (p : A -> bool) (l : list A) :
  existsb p l = false -> List.find p l = None.
Proof.
  induction l as [|x l IH]; simpl; [reflexivity|].
  destruct (p x); simpl; [discriminate|]. exact IH.
Qed.

Lemma find_rename (f : Color -> string) (v : RGBA) (l : list Color) :
  List.find (sameRGBA v) (map (renameColor f) l)
  = option_map (renameColor f) (List.find (sameRGBA v) l).
Proof.
  induction l as [|c l IH]; simpl; [reflexivity|].
  change (sameRGBA v (renameColor f c)) with (sameRGBA v c).
  destruct (sameRGBA v c); [reflexivity|exact IH].
Qed.

(** C2, as stated, fails: on a theme that already holds the colour, applying
    [ensureColorInTheme] twice returns the id of the existing entry both times
    and the palette does not grow at all. *)
Lemma ensureColorInTheme_known_colour_no_growth :
  let '(first, theme1, tick1) :=
    ensureColorInTheme sampleHost 0 themeYellow "#FFFF00" in
  let '(second, theme2, _) :=
    ensureColorInTheme sampleHost tick1 theme1 "#ffff00ff" in
  first = Ok "yellow" /\ second = Ok "yellow"
  /\ List.length (color_palette theme2)
     = List.length (color_palette themeYellow).
Proof.
  vm_compute. repeat split; reflexivity.
Qed.

(** C2, amended.  For every theme and every two colour literals that parse to
    identical (r,g,b,a): when an entry of the palette has these values, both
    applications of [ensureColorInTheme] return its id and leave the theme as
    it is; when none has and the palette holds fewer than 16 entries, the
    first application appends exactly one entry and both return the id of
    that entry, the second leaving the theme as the first left it, so that the
    palette grows by one and not by two.  The display names of the palette
    play no role: renaming the entries does not change the result. *)
Theorem ensureColorInTheme_twice (env : Host) (tick : nat) (theme : Theme)
        (c1 c2 : string) (v1 v2 : RGBA) :
  hexToRGBA c1 = Ok v1 ->
  hexToRGBA c2 = Ok v2 ->
  identicalRGBA v1 v2 = true ->
  (forall existing,
      List.find (sameRGBA v1) (color_palette theme) = Some existing ->
      ensureColorInTheme env tick theme c1 = (Ok (color_id existing), theme, tick)
      /\ ensureColorInTheme env tick theme c2
         = (Ok (color_id existing), theme, tick))
  /\ (List.find (sameRGBA v1) (color_palette theme) = None ->
      (List.length (color_palette theme) < 16)%nat ->
      exists theme1,
        ensureColorInTheme env tick theme c1
        = (Ok (generateId env tick "color"), theme1, S tick)
        /\ List.length (color_palette theme1)
           = S (List.length (color_palette theme))
        /\ ensureColorInTheme env (S tick) theme1 c2
           = (Ok (generateId env tick "color"), theme1, S tick))
  /\ (forall f : Color -> string,
         fst (fst (ensureColorInTheme env tick (renameColors f theme) c1))
         = fst (fst (ensureColorInTheme env tick theme c1))).
Proof.
  intros H1 H2 Hid.
  assert (Hsame : forall c, sameRGBA v2 c = sameRGBA v1 c)
    by (intro c; now apply sameRGBA_identical).
  split; [|split].
  - intros existing Hfind. unfold ensureColorInTheme.
    rewrite H1, H2, (find_ext_list _ _ _ Hsame), Hfind. split; reflexivity.
  - intros Hnone Hlen. unfold ensureColorInTheme at 1.
    rewrite H1, Hnone.
    destruct (16 <=? List.length (color_palette theme))%nat eqn:Hfull;
      [apply Nat.leb_le in Hfull; lia|].
    eexists. split; [reflexivity|]. split.
    + simpl. rewrite length_app. simpl. lia.
    + unfold ensureColorInTheme. rewrite H2. simpl color_palette.
      rewrite (find_ext_list _ _ _ Hsame).
      rewrite (find_app_none _ _ _ Hnone); [reflexivity|].
      unfold sameRGBA. simpl. unfold identicalRGBA in Hid.
      apply andb_prop in Hid as [Hid Ha]. apply andb_prop in Hid as [Hid Hb].
      apply andb_prop in Hid as [Hr Hg].
      rewrite (strict_eq_refl_of _ _ Hr), (strict_eq_refl_of _ _ Hg),
              (strict_eq_refl_of _ _ Hb), (strict_eq_refl_of _ _ Ha).
      reflexivity.
  - intros f. unfold ensureColorInTheme. rewrite H1.
    unfold renameColors. simpl color_palette. rewrite find_rename.
    destruct (List.find (sameRGBA v1) (color_palette theme)) as [c|];
      cbn [option_map]; [reflexivity|].
    rewrite length_map.
    destruct (16 <=? List.length (color_palette theme))%nat; reflexivity.
Qed.

(** On the empty palette, [#FFFF00] and [#ffff00ff] take one slot. *)
Lemma ensureColorInTheme_twice_witness :
  exists theme1,
    ensureColorInTheme sampleHost 0 emptyTheme "#FFFF00"
    = (Ok (generateId sampleHost 0 "color"), theme1, 1%nat)
    /\ List.length (color_palette theme1) = 1%nat
    /\ ensureColorInTheme sampleHost 1 theme1 "#ffff00ff"
       = (Ok (generateId sampleHost 0 "color"), theme1, 1%nat).
Proof.
  apply (proj1 (proj2 (ensureColorInTheme_twice sampleHost 0 emptyTheme
                         "#FFFF00" "#ffff00ff" _ _ eq_refl eq_refl eq_refl))).
  - reflexivity.
  - simpl. lia.
Defined.

(** C3.  On a theme whose palette holds 16 entries, [ensureColorInTheme] with
    a colour whose (r,g,b,a) matches no entry throws the capacity
    [ValidationError] and leaves the theme, hence its 16 entries, as they
    were. *)
Theorem ensureColorInTheme_full_palette (env : Host) (tick : nat)
        (theme : Theme) (color : string) (rgba : RGBA) :
  List.length (color_palette theme) = 16%nat ->
  hexToRGBA color = Ok rgba ->
  existsb (sameRGBA rgba) (color_palette theme) = false ->
  ensureColorInTheme env tick theme color
  = (Throw (ValidationError "Color palette limit reached (max 16 colors)"),
     theme, tick).
Proof.
  intros Hlen Hparse Hnew. unfold ensureColorInTheme.
  rewrite Hparse, (find_none_existsb _ _ Hnew), Hlen. reflexivity.
Qed.

Lemma ensureColorInTheme_full_palette_witness :
  ensureColorInTheme sampleHost 0 themeFull "#101010"
  = (Throw (ValidationError "Color palette limit reached (max 16 colors)"),
     themeFull, 0%nat).
Proof.
  apply (ensureColorInTheme_full_palette sampleHost 0 themeFull "#101010"
           (mkRGBA (numZ 16) (numZ 16) (numZ 16) (numZ 1)));
    reflexivity.
Defined.

(** ** Anchors *)





(** ** The cap-height correction *)










(** ** Placeholders *)

(** Induction on a value, with the hypothesis for every item of an array and
    every entry of an object. *)
Lemma JValue_nested_ind (P : JValue -> Prop) :
  P JNull ->
  (forall b, P (JBool b)) ->
  (forall n, P (JNum n)) ->
  (forall s, P (JStr s)) ->
  (forall items, Forall P items -> P (JArr items)) ->
  (forall entries, Forall (fun kv => P (snd kv)) entries -> P (JObj entries)) ->
  forall v, P v.
Proof.
  intros Hnull Hbool Hnum Hstr Harr Hobj.
  fix IH 1. intros [| b | n | s | items | entries].
  - exact Hnull.
  - apply Hbool.
  - apply Hnum.
  - apply Hstr.
  - apply Harr. induction items as [|x items IHitems]; constructor.
    + apply IH.
    + exact IHitems.
  - apply Hobj. induction entries as [|[k x] entries IHentries]; constructor.
    + simpl. apply IH.
    + exact IHentries.
Qed.

Lemma stripPrefix_spec (p s r : string) :
  stripPrefix p s = Some r <-> s = p +:+ r.
Proof.
  revert s. induction p as [|a p IH]; intros s; simpl.
  - split; [intros [= ->]; reflexivity | intros ->; reflexivity].
  - destruct s as [|b s]; [split; discriminate|].
    destruct (Ascii.eqb_spec a b) as [->|Hne].
    + rewrite IH. split; [intros ->; reflexivity | intros [= ->]; reflexivity].
    + split; [discriminate | intros [= <- _]; contradiction].
Qed.

Lemma readDigits_decimal (s : string) (acc : Z) :
  allDigits s = true -> readDigits 10 s (Some acc) = Some (decimalFrom acc s).
Proof.
  revert acc. induction s as [|c s IH]; intros acc Hd; simpl in *.
  - reflexivity.
  - apply andb_prop in Hd as [Hc Hs].
    unfold digitValue. unfold isDigit in Hc. rewrite Hc.
    apply andb_prop in Hc as [Hlo Hhi].
    apply Nat.leb_le in Hlo, Hhi.
    replace (Z.of_nat (nat_of_ascii c - 48)) with (Z.of_nat (nat_of_ascii c) - 48)
      by lia.
    destruct (Z.ltb_spec (Z.of_nat (nat_of_ascii c) - 48) 10); [|lia].
    simpl default. apply IH. exact Hs.
Qed.

(** On a non-empty string of digits [parseInt(digits, 10)] is its decimal
    reading. *)
Lemma parseIntZ_decimal (digits : string) :
  digits <> "" -> allDigits digits = true ->
  parseIntZ digits 10 = Some (decimalFrom 0 digits).
Proof.
  destruct digits as [|c rest]; [congruence|]. intros _ Hd.
  pose proof (readDigits_decimal (String c rest) 0 Hd) as Hread.
  simpl in Hd. apply andb_prop in Hd as [Hc Hrest].
  assert (Hfirst : readDigits 10 (String c rest) None
                   = readDigits 10 (String c rest) (Some 0)).
  { simpl. unfold digitValue. unfold isDigit in Hc. rewrite Hc.
    destruct (Z.of_nat (nat_of_ascii c - 48) <? 10) eqn:Hlt; [reflexivity|].
    apply andb_prop in Hc as [Hlo Hhi]. apply Nat.leb_le in Hlo, Hhi.
    apply Z.ltb_ge in Hlt. lia. }
  unfold parseIntZ.
  assert (Htrim : trimStart (String c rest) = String c rest).
  { simpl. destruct c as [[] [] [] [] [] [] [] []]; try discriminate Hc;
      reflexivity. }
  rewrite Htrim.
  assert (Hsign :
            match String c rest with
            | String "-" r => (-1, r)
            | String "+" r => (1, r)
            | _ => (1, String c rest)
            end = (1, String c rest)).
  { destruct c as [[] [] [] [] [] [] [] []]; try discriminate Hc; reflexivity. }
  rewrite Hsign. simpl Z.eqb. cbv iota.
  rewrite Hfirst, Hread. f_equal. lia.
Qed.

Lemma mapResult_Ok {A B : Type} (f : A -> Result B) (l : list A) (l' : list B) :
  mapResult f l = Ok l' <-> Forall2 (fun x y => f x = Ok y) l l'.
Proof.
  revert l'. induction l as [|x l IH]; intros l'; simpl.
  - split; [intros [= <-]; constructor | intros H; inversion H; reflexivity].
  - destruct (f x) as [y|e] eqn:Hx.
    + destruct (mapResult f l) as [ys|e] eqn:Hl.
      * split.
        -- intros [= <-]. constructor; [exact Hx | now apply IH].
        -- intros H. inversion H as [|? y' ? ys' Hy Hys]; subst.
           rewrite Hx in Hy. injection Hy as <-.
           apply IH in Hys. now injection Hys as <-.
      * split; [discriminate|].
        intros H. inversion H as [|? y' ? ys' Hy Hys]; subst.
        apply IH in Hys. discriminate.
    + split; [discriminate|].
      intros H. inversion H as [|? y' ? ys' Hy Hys]; subst.
      rewrite Hx in Hy. discriminate.
Qed.

Lemma mapResult_Throw {A B : Type} (f : A -> Result B) (l : list A) :
  (exists e, mapResult f l = Throw e)
  <-> Exists (fun x => exists e, f x = Throw e) l.
Proof.
  induction l as [|x l IH]; simpl.
  - split; [intros [e He]; discriminate | intros H; inversion H].
  - destruct (f x) as [y|e] eqn:Hx.
    + destruct (mapResult f l) as [ys|e] eqn:Hl.
      * split; [intros [e He]; discriminate|].
        intros H. inversion H as [? ? [e He]|? ? Hrest]; subst.
        -- rewrite Hx in He; discriminate.
        -- apply IH in Hrest as [e He]. discriminate.
      * split; [|intros _; now exists e].
        intros _. apply Exists_cons_tl. apply IH. now exists e.
    + split; [|intros _; now exists e].
      intros _. apply Exists_cons_hd. now exists e.
Qed.

Lemma mapResult_Throw_In {A B : Type} (f : A -> Result B) (l : list A)
      (e : Error) :
  mapResult f l = Throw e -> exists x, In x l /\ f x = Throw e.
Proof.
  induction l as [|x l IH]; simpl; [discriminate|].
  destruct (f x) as [y|e'] eqn:Hx.
  - destruct (mapResult f l) as [ys|e'']; [discriminate|].
    intros [= <-]. destruct (IH eq_refl) as (x' & Hin & Hx').
    exists x'. split; [now right | exact Hx'].
  - intros [= <-]. exists x. split; [now left | exact Hx].
Qed.

Lemma Forall2_equiv_on {A B : Type} (P : A -> Prop) (R R' : A -> B -> Prop)
      (l : list A) (l' : list B) :
  Forall P l -> (forall x, P x -> forall y, R x y <-> R' x y) ->
  Forall2 R l l' <-> Forall2 R' l l'.
Proof.
  intros HP Heq. revert l'.
  induction HP as [|x l Hx HP IH]; intros l'.
  - split; intros H; inversion H; constructor.
  - split; intros H; inversion H; subst; constructor;
      try (now apply (Heq x Hx)); now apply IH.
Qed.

Lemma Exists_equiv_on {A : Type} (P Q Q' : A -> Prop) (l : list A) :
  Forall P l -> (forall x, P x -> Q x <-> Q' x) -> Exists Q l <-> Exists Q' l.
Proof.
  intros HP Heq. induction HP as [|x l Hx HP IH].
  - split; intros H; inversion H.
  - split; intros H; inversion H; subst;
      try (apply Exists_cons_hd; now apply (Heq x Hx));
      apply Exists_cons_tl; now apply IH.
Qed.

Lemma Placeholder_functional (s : string) (N N' : Z) :
  Placeholder s N -> Placeholder s N' -> N = N'.
Proof.
  intros (d & Hs & _ & _ & <-) (d' & Hs' & _ & _ & <-).
  rewrite Hs in Hs'. apply stripPrefix_spec in Hs'.
  assert (H : stripPrefix "$output_of_step_" ("$output_of_step_" +:+ d) = Some d)
    by now apply stripPrefix_spec.
  rewrite H in Hs'. now injection Hs' as ->.
Qed.

(** What the regular expression of [resolveParameters] decides. *)
Lemma matchPlaceholder_spec (s : string) :
  match matchPlaceholder s with
  | Some digits => Placeholder s (decimalFrom 0 digits)
                   /\ parseIntZ digits 10 = Some (decimalFrom 0 digits)
  | None => forall N, ~ Placeholder s N
  end.
Proof.
  unfold matchPlaceholder.
  destruct (stripPrefix "$output_of_step_" s) as [digits|] eqn:Hstrip.
  - apply stripPrefix_spec in Hstrip.
    destruct (String.eqb_spec digits "") as [->|Hne]; simpl.
    + intros N (d & Hs & Hd & _). rewrite Hstrip in Hs.
      apply stripPrefix_spec in Hs. simpl in Hs. injection Hs as <-.
      now apply Hd.
    + destruct (allDigits digits) eqn:Hall.
      * split; [now exists digits | now apply parseIntZ_decimal].
      * intros N (d & Hs & _ & Hd & _). rewrite Hstrip in Hs.
        apply stripPrefix_spec in Hs.
        assert (H : stripPrefix "$output_of_step_"
                                ("$output_of_step_" +:+ digits) = Some digits)
          by now apply stripPrefix_spec.
        rewrite H in Hs. injection Hs as <-. congruence.
  - intros N (d & Hs & _). apply stripPrefix_spec in Hs. congruence.
Qed.

(** C4.  [resolveParameters] returns a value exactly when that value is the
    parameter with every string of the exact form [$output_of_step_N], at any
    depth of arrays and objects, replaced by the output recorded for step N and
    everything else unchanged; it throws exactly when one of these strings
    names a step without recorded output, and what it throws is a
    [ValidationError]. *)
Theorem resolveParameters_spec (outs : gmap Z JValue) (params : JValue) :
  (forall result,
      resolveParameters outs params = Ok result <-> Resolved outs params result)
  /\ ((exists e, resolveParameters outs params = Throw e)
      <-> Unrecorded outs params)
  /\ (forall e, resolveParameters outs params = Throw e ->
                exists message, e = ValidationError message).
Proof.
  induction params as [| b | n | s | items IH | entries IH]
    using JValue_nested_ind.
  - split; [|split].
    + intros r. simpl. split; [intros [= <-]; constructor|].
      intros H. inversion H. reflexivity.
    + simpl. split; [intros [e He]; discriminate | intros H; inversion H].
    + simpl. discriminate.
  - split; [|split].
    + intros r. simpl. split; [intros [= <-]; constructor|].
      intros H. inversion H. reflexivity.
    + simpl. split; [intros [e He]; discriminate | intros H; inversion H].
    + simpl. discriminate.
  - split; [|split].
    + intros r. simpl. split; [intros [= <-]; constructor|].
      intros H. inversion H. reflexivity.
    + simpl. split; [intros [e He]; discriminate | intros H; inversion H].
    + simpl. discriminate.
  - pose proof (matchPlaceholder_spec s) as Hm. simpl.
    destruct (matchPlaceholder s) as [digits|].
    + destruct Hm as [Hp Hparse]. rewrite Hparse.
      destruct (outs !! decimalFrom 0 digits) as [v|] eqn:Hout.
      * split; [|split].
        -- intros r. split.
           ++ intros [= <-]. now apply (Resolved_placeholder _ _ _ _ Hp).
           ++ intros H. inversion H as [? N v' Hp' Hout'| ? Hno | | | | |]; subst.
              ** rewrite (Placeholder_functional _ _ _ Hp' Hp) in Hout'.
                 congruence.
              ** now destruct (Hno _ Hp).
        -- split; [intros [e He]; discriminate|].
           intros H. inversion H as [? N Hp' Hout'| |]; subst.
           rewrite (Placeholder_functional _ _ _ Hp' Hp) in Hout'. congruence.
        -- discriminate.
      * split; [|split].
        -- intros r. split; [discriminate|].
           intros H. inversion H as [? N v' Hp' Hout'| ? Hno | | | | |]; subst.
           ++ rewrite (Placeholder_functional _ _ _ Hp' Hp) in Hout'.
              congruence.
           ++ now destruct (Hno _ Hp).
        -- split; [intros _; now apply (Unrecorded_here _ _ _ Hp)|].
           intros _. eexists. reflexivity.
        -- intros e [= <-]. eexists. reflexivity.
    + split; [|split].
      * intros r. split; [intros [= <-]; now constructor|].
        intros H. inversion H as [? N v' Hp' Hout'| | | | | |]; subst.
        -- now destruct (Hm _ Hp').
        -- reflexivity.
      * split; [intros [e He]; discriminate|].
        intros H. inversion H as [? N Hp' Hout'| |]; subst.
        now destruct (Hm _ Hp').
      * discriminate.
  - split; [|split].
    + intros r. simpl.
      destruct (mapResult (resolveParameters outs) items) as [items'|e] eqn:Hmap.
      * apply mapResult_Ok in Hmap.
        apply (Forall2_equiv_on _ _ (Resolved outs) _ _ IH) in Hmap;
          [|intros x Hx y; apply (proj1 Hx)].
        split; [intros [= <-]; now constructor|].
        intros H. inversion H as [| | | | |? items'' Hres|]; subst.
        f_equal. f_equal.
        apply (Forall2_equiv_on _ (fun x y => resolveParameters outs x = Ok y)
                                _ _ _ IH) in Hres, Hmap;
          try (intros x Hx y; apply (proj1 Hx)).
        apply mapResult_Ok in Hres, Hmap. congruence.
      * split; [discriminate|].
        intros H. inversion H as [| | | | |? items'' Hres|]; subst.
        apply (Forall2_equiv_on _ (fun x y => resolveParameters outs x = Ok y)
                                _ _ _ IH) in Hres;
          [|intros x Hx y; apply (proj1 Hx)].
        apply mapResult_Ok in Hres. congruence.
    + assert (Hex : (exists e, mapResult (resolveParameters outs) items = Throw e)
                    <-> Exists (Unrecorded outs) items).
      { rewrite mapResult_Throw. apply (Exists_equiv_on _ _ _ _ IH).
        intros x Hx. apply (proj1 (proj2 Hx)). }
      simpl. split.
      * intros [e He]. constructor. apply Hex.
        destruct (mapResult (resolveParameters outs) items) as [items'|e'];
          [discriminate|]. now exists e'.
      * intros H. inversion H as [|? Hin|]; subst.
        apply Hex in Hin as [e He]. rewrite He. now exists e.
    + intros e. simpl.
      destruct (mapResult (resolveParameters outs) items) as [items'|e'] eqn:Hmap;
        [discriminate|].
      intros [= <-]. apply mapResult_Throw_In in Hmap as (x & Hin & Hx).
      rewrite List.Forall_forall in IH. now apply (proj2 (proj2 (IH x Hin))).
  - set (f := fun entry : string * JValue =>
                match resolveParameters outs (snd entry) with
                | Ok value => Ok (fst entry, value)
                | Throw e => Throw e
                end).
    assert (HOk : forall entries',
               mapResult f entries = Ok entries'
               <-> Forall2 (fun e e' => fst e = fst e'
                                        /\ Resolved outs (snd e) (snd e'))
                           entries entries').
    { intros entries'. rewrite mapResult_Ok.
      apply (Forall2_equiv_on _ _ _ _ _ IH).
      intros [k x] Hx [k' y]. unfold f. simpl in *.
      destruct (resolveParameters outs x) as [v|e] eqn:Hres.
      - split.
        + intros [= <- <-]. split; [reflexivity | now apply (proj1 Hx)].
        + intros [<- Hr]. apply (proj1 Hx) in Hr. congruence.
      - split; [discriminate|].
        intros [_ Hr]. apply (proj1 Hx) in Hr. discriminate. }
    assert (HThrow : (exists e, mapResult f entries = Throw e)
                     <-> Exists (fun e => Unrecorded outs (snd e)) entries).
    { rewrite mapResult_Throw. apply (Exists_equiv_on _ _ _ _ IH).
      intros [k x] Hx. unfold f. simpl in *.
      rewrite <- (proj1 (proj2 Hx)).
      destruct (resolveParameters outs x) as [v|e].
      - split; intros [e He]; discriminate.
      - split; intros _; now exists e. }
    split; [|split].
    + intros r. simpl. fold f.
      destruct (mapResult f entries) as [entries'|e] eqn:Hmap.
      * split; [intros [= <-]; constructor; now apply HOk|].
        intros H. inversion H as [| | | | | |? entries'' Hres]; subst.
        apply HOk in Hres. congruence.
      * split; [discriminate|].
        intros H. inversion H as [| | | | | |? entries'' Hres]; subst.
        apply HOk in Hres. congruence.
    + simpl. fold f. split.
      * intros [e He]. constructor. apply HThrow.
        destruct (mapResult f entries) as [entries'|e']; [discriminate|].
        now exists e'.
      * intros H. inversion H as [| |? Hin]; subst.
        apply HThrow in Hin as [e He]. rewrite He. now exists e.
    + intros e. simpl. fold f.
      destruct (mapResult f entries) as [entries'|e'] eqn:Hmap; [discriminate|].
      intros [= <-]. apply mapResult_Throw_In in Hmap as ([k x] & Hin & Hx).
      rewrite List.Forall_forall in IH. specialize (IH _ Hin). simpl in IH.
      unfold f in Hx. simpl in Hx.
      destruct (resolveParameters outs x) as [v|e''] eqn:Hres; [discriminate|].
      injection Hx as ->. now apply (proj2 (proj2 IH)).
Qed.

(** The example of the specification: with an output recorded for step 2 only,
    [$output_of_step_2] resolves to it and [$output_of_step_9] fails. *)
Example resolveParameters_example :
  let outs : gmap Z JValue := <[2 := JStr "https://x/img.png"]> ∅ in
  resolveParameters outs (JStr "$output_of_step_2")
  = Ok (JStr "https://x/img.png")
  /\ resolveParameters outs (JStr "$output_of_step_9")
     = Throw (ValidationError "No output found for step 9")
  /\ resolveParameters outs
       (JObj [("images", JArr [JStr "$output_of_step_2"; JNum (numZ 2)]);
              ("prompt", JStr "use $output_of_step_2")])
     = Ok (JObj [("images", JArr [JStr "https://x/img.png"; JNum (numZ 2)]);
                 ("prompt", JStr "use $output_of_step_2")]).
Proof.
  repeat split; reflexivity.
Qed.

(** ** The element tree *)

(** Induction on an element, with the hypothesis for every child. *)
Lemma Element_nested_ind (P : Element -> Prop) :
  (forall e, Forall P (children e) -> P e) -> forall e, P e.
Proof.
  intros Hstep. fix IH 1. intros e. apply Hstep.
  destruct e as [i t d sh sv im st cs]. simpl.
  induction cs as [|c cs IHcs]; constructor; [apply IH | exact IHcs].
Qed.

(** The loop of [findElement], in the shape of the source. *)
Lemma findElement_cons (element : Element) (rest : list Element)
      (elementId : string) :
  findElement (element :: rest) elementId
  = if String.eqb (element_id element) elementId then Some element
    else if is_container element then
      match findElement (children element) elementId with
      | Some found => Some found
      | None => findElement rest elementId
      end
    else findElement rest elementId.
Proof.
  unfold findElement. simpl firstSome at 1.
  destruct element as [i t d sh sv im st cs]. simpl.
  destruct (String.eqb i elementId); [reflexivity|].
  destruct (is_container _); reflexivity.
Qed.

(** The loop of [removeElementFromArray], in the shape of the source. *)
Lemma removeElementFromArray_cons (element : Element) (rest : list Element)
      (elementId : string) :
  removeElementFromArray (element :: rest) elementId
  = if String.eqb (element_id element) elementId then Some (element, rest)
    else
      let later :=
        match removeElementFromArray rest elementId with
        | Some (removed, rest') => Some (removed, element :: rest')
        | None => None
        end in
      if is_container element then
        match removeElementFromArray (children element) elementId with
        | Some (removed, children') =>
            Some (removed, set_children element children' :: rest)
        | None => later
        end
      else later.
Proof.
  unfold removeElementFromArray. simpl changeFirst at 1.
  unfold spliceHere at 1.
  destruct element as [i t d sh sv im st cs]. simpl.
  destruct (String.eqb i elementId); [reflexivity|].
  destruct (is_container _); [|reflexivity].
  destruct (changeFirst (spliceHere elementId) (removeWithin elementId) cs)
    as [[removed cs']|]; reflexivity.
Qed.

(** What [findElement] returns carries the id asked for, and this id occurs
    in the array. *)
Lemma findElement_Some (elements : list Element) (elementId : string)
      (found : Element) :
  findElement elements elementId = Some found ->
  element_id found = elementId /\ In elementId (forestIds elements).
Proof.
  revert found.
  assert (Hel : forall e, forall found,
               findElementIn elementId e = Some found ->
               element_id found = elementId /\ In elementId (subtreeIds e)).
  { induction e as [e IH] using Element_nested_ind.
    destruct e as [i t d sh sv im st cs]. simpl in *.
    destruct (String.eqb_spec i elementId) as [->|Hne].
    - intros found [= <-]. simpl. auto.
    - destruct (is_container _); [|discriminate].
      induction IH as [|c cs Hc IH IHcs]; intros found; simpl; [discriminate|].
      destruct (findElementIn elementId c) as [f|] eqn:Hf.
      + intros [= <-]. destruct (Hc _ eq_refl) as [Hid Hin].
        split; [exact Hid|]. right. apply in_or_app. now left.
      + intros Hrest. destruct (IHcs _ Hrest) as [Hid [Hin|Hin]];
          [congruence|].
        split; [exact Hid|]. right. apply in_or_app. now right. }
  unfold findElement, forestIds.
  induction elements as [|e l IH]; intros found; simpl; [discriminate|].
  destruct (findElementIn elementId e) as [f|] eqn:Hf.
  - intros [= <-]. destruct (Hel _ _ Hf) as [Hid Hin].
    split; [exact Hid|]. apply in_or_app. now left.
  - intros Hrest. destruct (IH _ Hrest) as [Hid Hin].
    split; [exact Hid|]. apply in_or_app. now right.
Qed.

(** Removing an element takes its whole subtree out of the array and leaves
    everything else. *)
Lemma removeElementFromArray_ids (elements : list Element) (elementId : string)
      (removed : Element) (elements' : list Element) :
  removeElementFromArray elements elementId = Some (removed, elements') ->
  element_id removed = elementId
  /\ Permutation (forestIds elements) (subtreeIds removed ++ forestIds elements').
Proof.
  assert (Hlist : forall l,
             Forall (fun e => forall removed e',
                         removeWithin elementId e = Some (removed, e') ->
                         element_id removed = elementId
                         /\ Permutation (subtreeIds e)
                                        (subtreeIds removed ++ subtreeIds e')) l ->
             forall removed l',
               changeFirst (spliceHere elementId) (removeWithin elementId) l
               = Some (removed, l') ->
               element_id removed = elementId
               /\ Permutation (forestIds l) (subtreeIds removed ++ forestIds l')).
  { intros l Hall. induction Hall as [|e l He Hall IH]; intros x0 l'.
    - discriminate.
    - simpl changeFirst. unfold spliceHere at 1.
      destruct (String.eqb_spec (element_id e) elementId) as [Heq|Hne].
      + intros [= <- <-]. split; [exact Heq|]. reflexivity.
      + destruct (removeWithin elementId e) as [[x e']|] eqn:Hw.
        * intros [= <- <-]. destruct (He _ _ eq_refl) as [Hid Hperm].
          split; [exact Hid|]. unfold forestIds. simpl flat_map.
          rewrite Hperm, <- app_assoc. reflexivity.
        * destruct (changeFirst _ _ l) as [[x rest']|] eqn:Hrest;
            [|discriminate].
          intros [= <- <-]. destruct (IH _ _ eq_refl) as [Hid Hperm].
          split; [exact Hid|]. unfold forestIds in *. simpl flat_map.
          rewrite Hperm. rewrite !app_assoc.
          apply Permutation_app_tail. apply Permutation_app_comm. }
  assert (Hel : forall e removed e',
             removeWithin elementId e = Some (removed, e') ->
             element_id removed = elementId
             /\ Permutation (subtreeIds e) (subtreeIds removed ++ subtreeIds e')).
  { induction e as [e IH] using Element_nested_ind. intros x0 e'.
    destruct e as [i t d sh sv im st cs]. simpl in *.
    destruct (is_container _); [|discriminate].
    destruct (changeFirst _ _ cs) as [[x cs']|] eqn:Hcs; [|discriminate].
    intros [= <- <-]. destruct (Hlist _ IH _ _ Hcs) as [Hid Hperm].
    split; [exact Hid|]. simpl. fold (forestIds cs) (forestIds cs').
    rewrite Hperm. apply Permutation_middle. }
  intros Hrem. apply (Hlist elements); [|exact Hrem].
  apply List.Forall_forall. intros e _. apply Hel.
Qed.

(** C10, as stated, fails: ids need not be unique in a template.  In
    [templateTwoRows] the id [row] resolves to the row inside the column;
    moving the column into [row] detaches the column with that row, after
    which [row] resolves to the other element of that id, which is a
    container: the call returns, and the column is attached there. *)
Lemma addElementToContainer_into_descendant_id :
  findElement (elements templateTwoRows) "row"
  = Some (plainElement "row" container [plainElement "label" shape []])
  /\ In "row" (subtreeIds
                 (plainElement "column" container
                    [plainElement "row" container
                       [plainElement "label" shape []]]))
  /\ addElementToContainer templateTwoRows "column" "row"
     = (Ok tt,
        set_elements templateTwoRows
          [plainElement "row" container
             [plainElement "column" container
                [plainElement "row" container
                   [plainElement "label" shape []]]]]).
Proof.
  split; [reflexivity|]. split; [simpl; tauto | reflexivity].
Qed.

(** C10, amended.  Once [addElementToContainer] has found the element to
    move, the element and everything below it are out of the tree (the ids of
    the tree before the call are those of the moved subtree and those of the
    tree after it, so that the template has changed).  If the destination
    then does not resolve, or resolves to an element that is not a container,
    the call throws and the template stays without the subtree.  In
    particular, in a template with unique ids, a destination inside the moved
    subtree never resolves: the call throws and no id of the subtree is left
    in the template. *)
Theorem addElementToContainer_detaches (template : Template)
        (elementId containerId : string) (element : Element)
        (template' : Template) :
  removeElementFromTemplate template elementId = Some (element, template') ->
  Permutation (forestIds (elements template))
              (subtreeIds element ++ forestIds (elements template'))
  /\ template' <> template
  /\ (findElement (elements template') containerId = None ->
      addElementToContainer template elementId containerId
      = (Throw (ValidationError ("Container not found: " +:+ containerId)),
         template'))
  /\ (forall found,
         findElement (elements template') containerId = Some found ->
         is_container found = false ->
         addElementToContainer template elementId containerId
         = (Throw (ValidationError
                     ("Element " +:+ containerId +:+ " is not a container")),
            template'))
  /\ (NoDup (forestIds (elements template)) ->
      In containerId (subtreeIds element) ->
      addElementToContainer template elementId containerId
      = (Throw (ValidationError ("Container not found: " +:+ containerId)),
         template')
      /\ forall id, In id (subtreeIds element) ->
                    ~ In id (forestIds (elements template'))).
Proof.
  intros Hrem.
  assert (Hperm : Permutation (forestIds (elements template))
                    (subtreeIds element ++ forestIds (elements template'))).
  { unfold removeElementFromTemplate in Hrem.
    destruct (removeElementFromArray (elements template) elementId)
      as [[x els']|] eqn:Harr; [|discriminate].
    injection Hrem as <- <-. simpl.
    exact (proj2 (removeElementFromArray_ids _ _ _ _ Harr)). }
  assert (Hnone : findElement (elements template') containerId = None ->
                  addElementToContainer template elementId containerId
                  = (Throw (ValidationError
                              ("Container not found: " +:+ containerId)),
                     template')).
  { intros Hfind. unfold addElementToContainer. now rewrite Hrem, Hfind. }
  split; [exact Hperm|]. split.
  { intros Heq. rewrite Heq in Hperm. apply Permutation_length in Hperm.
    rewrite length_app in Hperm. destruct element; simpl in Hperm. lia. }
  split; [exact Hnone|]. split.
  - intros found Hfind Hkind. unfold addElementToContainer.
    now rewrite Hrem, Hfind, Hkind.
  - intros Hnodup Hinside.
    assert (Hout : forall id, In id (subtreeIds element) ->
                              ~ In id (forestIds (elements template'))).
    { intros id Hid Hleft.
      rewrite Hperm in Hnodup.
      apply NoDup_app in Hnodup as (_ & Hdisj & _).
      apply (Hdisj id); now apply list_elem_of_In. }
    split; [|exact Hout].
    apply Hnone.
    destruct (findElement (elements template') containerId) as [found|] eqn:Hfind;
      [|reflexivity].
    apply findElement_Some in Hfind as [_ Hin].
    now destruct (Hout _ Hinside).
Qed.

(** Moving the column into its own row: the call throws and only the box is
    left. *)
Lemma addElementToContainer_detaches_witness :
  addElementToContainer templateNested "column" "row"
  = (Throw (ValidationError "Container not found: row"),
     set_elements templateNested [plainElement "box" container []])
  /\ forall id,
      In id ["column"; "row"; "label"] ->
      ~ In id (forestIds [plainElement "box" container []]).
Proof.
  apply (proj2 (proj2 (proj2 (proj2 (addElementToContainer_detaches
                                       templateNested "column" "row" _ _
                                       eq_refl))))).
  - apply (bool_decide_unpack _). vm_compute. exact I.
  - simpl. tauto.
Defined.

(** ** The final validation *)

Lemma truthyNum_false (n : number) : truthyNum n = false <-> blank n.
Proof.
  unfold blank. destruct n as [|q]; simpl.
  - split; [now left | reflexivity].
  - rewrite negb_false_iff, Qeq_bool_iff. split.
    + intros H. right. unfold numZ. f_equal. apply Qc_is_canon.
      rewrite H. reflexivity.
    + intros [H|H]; [discriminate|]. injection H as ->. reflexivity.
Qed.

Lemma danglingReference_spec (l : list string) (e : Element) :
  (exists id, danglingReference (list_to_set l) e = Some id)
  <-> danglingItem l e.
Proof.
  unfold danglingReference, danglingItem, someTruthyStr, truthyStr.
  destruct (is_data_item e); [|split; [intros [? ?]; discriminate | intros [? _]; discriminate]].
  destruct (data_item_id e) as [id|].
  - destruct (String.eqb_spec id "") as [->|Hne]; simpl.
    + split; [intros [? ?]; discriminate|].
      intros [_ (id' & [= <-] & Hne & _)]. now destruct Hne.
    + destruct (bool_decide_reflect (id ∈ (list_to_set l : gset string)))
        as [Hin|Hout].
      * split; [intros [? ?]; discriminate|].
        intros [_ (id' & [= <-] & _ & Hno)]. exfalso. apply Hno.
        apply list_elem_of_In. now apply elem_of_list_to_set in Hin.
      * split; [|intros _; now exists id].
        intros _. split; [reflexivity|]. exists id. repeat split; [exact Hne|].
        intros Hin. apply Hout. apply elem_of_list_to_set.
        now apply list_elem_of_In.
  - split; [intros [? ?]; discriminate|].
    intros [_ (id' & Hid & _)]. discriminate.
Qed.

(** [checkElement] throws exactly when the element or something below it is
    a dangling [data_item] element. *)
Lemma checkElement_throws (l : list string) (e : Element) :
  (exists err, checkElement (list_to_set l) e = Throw err)
  <-> exists n, In n (subtreeNodes e) /\ danglingItem l n.
Proof.
  induction e as [e IH] using Element_nested_ind.
  pose proof (danglingReference_spec l e) as Hhere.
  assert (Hbelow :
            (exists err, mapResult (checkElement (list_to_set l)) (children e)
                         = Throw err)
            <-> exists n, In n (flat_map subtreeNodes (children e))
                          /\ danglingItem l n).
  { rewrite mapResult_Throw.
    rewrite (Exists_equiv_on _ _ _ _ IH (fun x Hx => Hx)).
    rewrite List.Exists_exists. split.
    - intros (c & Hc & n & Hn & Hd). exists n. split; [|exact Hd].
      apply in_flat_map. now exists c.
    - intros (n & Hn & Hd). apply in_flat_map in Hn as (c & Hc & Hn).
      exists c. split; [exact Hc|]. now exists n. }
  destruct e as [i t d sh sv im st cs]. simpl in *.
  destruct (danglingReference _ _) as [id|].
  - split; [|intros _; eexists; reflexivity].
    intros _. eexists. split; [left; reflexivity|].
    apply Hhere. now exists id.
  - split.
    + intros [err Herr]. apply proj1 in Hbelow.
      destruct Hbelow as (n & Hn & Hd).
      { destruct (mapResult _ cs) as [?|err']; [discriminate|]. now exists err'. }
      exists n. split; [now right | exact Hd].
    + intros (n & [<-|Hn] & Hd).
      * apply Hhere in Hd as [? ?]. discriminate.
      * apply proj2 in Hbelow. destruct Hbelow as [err Herr].
        { now exists n. }
        rewrite Herr. now exists err.
Qed.

(** C6, as stated, fails: a canvas of width -5 lacks a positive width, and
    the run whose single step sets it passes the final validation and reports
    completion. *)
Lemma validateScene_accepts_negative_canvas :
  let r := executeOperations sampleHost (fun _ => None)
                             (fun _ => Ok "scenes/s") 0 ∅ "s" "S"
                             negativeCanvasOperations in
  width (canvas (template (context (world r)))) = numZ (-5)
  /\ ~ positive_number (width (canvas (template (context (world r)))))
  /\ validateScene (context (world r)) = Ok tt
  /\ isComplete (last (sent r)) = true.
Proof.
  split; [reflexivity|]. split; [|split; reflexivity].
  intros (q & Hq & Hpos).
  change (numZ (-5) = Num q) in Hq. injection Hq as <-.
  vm_compute in Hpos. discriminate Hpos.
Qed.

(** C6, amended.  The final validation fails if and only if the canvas width
    or height is zero or not a number, or the colour palette exceeds 16
    entries, or the font palette exceeds 8 entries, or some [data_item]
    element anywhere in the tree references a non-empty DataItem id that is
    absent from the scene data; and what it throws is a [ValidationError]. *)
Theorem validateScene_fails_iff (c : ExecutionContext) :
  ((exists e, validateScene c = Throw e)
   <-> blank (width (canvas (template c)))
       \/ blank (height (canvas (template c)))
       \/ (16 < List.length (color_palette (theme c)))%nat
       \/ (8 < List.length (font_palette (theme c)))%nat
       \/ exists el,
           In el (forestNodes (elements (template c)))
           /\ danglingItem (map item_id (data_items (data c))) el)
  /\ (forall e, validateScene c = Throw e ->
                exists message, e = ValidationError message).
Proof.
  assert (Htree :
            (exists err,
                mapResult (checkElement
                             (list_to_set (map item_id (data_items (data c)))))
                          (elements (template c)) = Throw err)
            <-> exists el,
                In el (forestNodes (elements (template c)))
                /\ danglingItem (map item_id (data_items (data c))) el).
  { rewrite mapResult_Throw, List.Exists_exists. unfold forestNodes. split.
    - intros (x & Hx & Hthrow). apply checkElement_throws in Hthrow
        as (n & Hn & Hd).
      exists n. split; [|exact Hd]. apply in_flat_map. now exists x.
    - intros (n & Hn & Hd). apply in_flat_map in Hn as (x & Hx & Hn).
      exists x. split; [exact Hx|]. apply checkElement_throws. now exists n. }
  assert (Hkind : forall l el err,
             checkElement l el = Throw err ->
             exists message, err = ValidationError message).
  { intros l el. induction el as [el IH] using Element_nested_ind.
    intros err. destruct el as [i t d sh sv im st cs]. simpl in *.
    destruct (danglingReference _ _) as [id|].
    - intros [= <-]. eexists. reflexivity.
    - destruct (mapResult _ cs) as [?|err'] eqn:Hmap; [discriminate|].
      intros [= <-]. apply mapResult_Throw_In in Hmap as (x & Hx & Hthrow).
      rewrite List.Forall_forall in IH. exact (IH x Hx _ Hthrow). }
  unfold validateScene.
  rewrite <- !truthyNum_false.
  destruct (truthyNum (width (canvas (template c)))); simpl.
  2:{ split; [|intros e [= <-]; eexists; reflexivity].
      split; [intros _; now left | intros _; eexists; reflexivity]. }
  destruct (truthyNum (height (canvas (template c)))); simpl.
  2:{ split; [|intros e [= <-]; eexists; reflexivity].
      split; [intros _; right; now left | intros _; eexists; reflexivity]. }
  destruct (Nat.ltb_spec 16 (List.length (color_palette (theme c)))).
  { split; [|intros e [= <-]; eexists; reflexivity].
    split; [intros _; right; right; now left | intros _; eexists; reflexivity]. }
  destruct (Nat.ltb_spec 8 (List.length (font_palette (theme c)))).
  { split; [|intros e [= <-]; eexists; reflexivity].
    split; [intros _; right; right; right; now left
           | intros _; eexists; reflexivity]. }
  split.
  - split.
    + intros [e He]. right; right; right; right. apply Htree.
      destruct (mapResult _ (elements (template c))) as [?|err];
        [discriminate|]. now exists err.
    + intros [Hb|[Hb|[Hlen|[Hlen|Hd]]]]; try discriminate; try lia.
      apply Htree in Hd as [err Herr]. rewrite Herr. now exists err.
  - intros e.
    destruct (mapResult _ (elements (template c))) as [?|err] eqn:Hmap;
      [discriminate|].
    intros [= <-]. apply mapResult_Throw_In in Hmap as (x & Hx & Hthrow).
    exact (Hkind _ _ _ Hthrow).
Qed.

(** ** Class names in the stylesheet and in the markup *)

Lemma append_assoc (s t u : string) : (s +:+ t) +:+ u = s +:+ t +:+ u.
Proof.
  induction s as [|c s IH]; [reflexivity|].
  change (String c ((s +:+ t) +:+ u) = String c (s +:+ t +:+ u)).
  now rewrite IH.
Qed.

Lemma concat_snoc (separator : string) (l : list string) (x : string) :
  l <> [] ->
  String.concat separator (l ++ [x])
  = String.concat separator l +:+ separator +:+ x.
Proof.
  induction l as [|a l IH]; [congruence|]. intros _.
  destruct l as [|b l].
  - reflexivity.
  - change (String.concat separator ((a :: b :: l) ++ [x]))
      with (a +:+ separator +:+ String.concat separator ((b :: l) ++ [x])).
    rewrite IH by discriminate.
    change (String.concat separator (a :: b :: l))
      with (a +:+ separator +:+ String.concat separator (b :: l)).
    rewrite !append_assoc. reflexivity.
Qed.

Lemma append_empty (s t : string) : s +:+ t = "" -> s = "".
Proof.
  destruct s; [reflexivity | discriminate].
Qed.

Lemma concat_nonempty (separator : string) (l : list string) :
  l <> [] -> Forall (fun id => id <> "") l -> String.concat separator l <> "".
Proof.
  destruct l as [|a l]; [congruence|]. intros _ Hall.
  inversion Hall as [|? ? Ha _]; subst.
  destruct l as [|b l]; simpl; [exact Ha|].
  intros H. apply append_empty in H. contradiction.
Qed.

(** With non-empty ids, the prefix that the renderer threads through its
    recursion composes the ids of the chain with hyphens. *)
Lemma className_joined (ancestors : list string) (e : Element) :
  Forall (fun id => id <> "") ancestors ->
  className (String.concat "-" ancestors) e = joinedName "-" ancestors e.
Proof.
  intros Hall. unfold className, joinedName.
  destruct ancestors as [|a l]; [reflexivity|].
  rewrite concat_snoc by discriminate.
  destruct (String.eqb_spec (String.concat "-" (a :: l)) "") as [Hempty|_];
    [|reflexivity].
  now apply concat_nonempty in Hempty.
Qed.

Lemma styleLine_starts (env : Host) (fontMap : gmap string Font)
      (colorMap : gmap string Color) (kv : string * string) :
  exists rest, styleLine env fontMap colorMap kv = String " " rest.
Proof.
  destruct kv as [key value]. unfold styleLine.
  destruct (if String.eqb key "font" then fontMap !! value else None);
    eexists; reflexivity.
Qed.

(** A style always yields some declarations, so that every element with a
    style gets its rule. *)
Lemma convertStyleToCSS_nonempty (env : Host) (st : ElementStyle)
      (fontMap : gmap string Font) (colorMap : gmap string Color) :
  String.eqb (convertStyleToCSS env st fontMap colorMap) "" = false.
Proof.
  apply String.eqb_neq. unfold convertStyleToCSS, styleGet.
  destruct (List.find (fun kv => String.eqb (fst kv) "position") st)
    as [kv|] eqn:Hpos.
  - rewrite andb_false_r. simpl negb. cbv iota.
    destruct st as [|kv0 st]; [discriminate|]. simpl map. simpl concatStrings.
    destruct (styleLine_starts env fontMap colorMap kv0) as [rest ->].
    discriminate.
  - rewrite andb_true_r. simpl negb.
    match goal with |- context [if ?b then _ else _] => destruct b end;
      discriminate.
Qed.

Lemma generateElementCSS_unfold (env : Host) (fontMap : gmap string Font)
      (colorMap : gmap string Color) (prefix : string) (e : Element) :
  generateElementCSS env fontMap colorMap prefix e
  = match style e with
    | Some st =>
        if String.eqb (convertStyleToCSS env st fontMap colorMap) "" then ""
        else "." +:+ className prefix e +:+ " {" +:+ nl
             +:+ convertStyleToCSS env st fontMap colorMap
             +:+ "}" +:+ nl +:+ nl
    | None => ""
    end
    +:+ concatStrings
          (map (generateElementCSS env fontMap colorMap (className prefix e))
               (children e)).
Proof.
  destruct e; reflexivity.
Qed.

Lemma spec_rules_unfold (env : Host) (separator : string)
      (fontMap : gmap string Font) (colorMap : gmap string Color)
      (ancestors : list string) (e : Element) :
  spec_rules env separator fontMap colorMap ancestors e
  = match style e with
    | Some st =>
        "." +:+ joinedName separator ancestors e +:+ " {" +:+ nl
        +:+ convertStyleToCSS env st fontMap colorMap +:+ "}" +:+ nl +:+ nl
    | None => ""
    end
    +:+ concatStrings
          (map (spec_rules env separator fontMap colorMap
                           (ancestors ++ [element_id e]))
               (children e)).
Proof.
  destruct e; reflexivity.
Qed.

Lemma subtreeIds_children (e c : Element) :
  Forall (fun id => id <> "") (subtreeIds e) -> In c (children e) ->
  Forall (fun id => id <> "") (subtreeIds c).
Proof.
  intros Hall Hc. destruct e as [i t d sh sv im st cs]. simpl in *.
  apply Forall_cons_iff in Hall as [_ Hall].
  rewrite List.Forall_forall in *. intros id Hid. apply Hall.
  apply in_flat_map. now exists c.
Qed.

Lemma chain_nonempty (ancestors : list string) (e : Element) :
  Forall (fun id => id <> "") ancestors ->
  Forall (fun id => id <> "") (subtreeIds e) ->
  Forall (fun id => id <> "") (ancestors ++ [element_id e]).
Proof.
  intros Ha He. apply Forall_app. split; [exact Ha|].
  constructor; [|constructor].
  destruct e; simpl in *. now apply Forall_cons_iff in He as [He _].
Qed.

(** The stylesheet of an element: the threaded prefix gives the composed
    names. *)
Lemma generateElementCSS_rules (env : Host) (fontMap : gmap string Font)
      (colorMap : gmap string Color) (e : Element) :
  forall ancestors,
    Forall (fun id => id <> "") ancestors ->
    Forall (fun id => id <> "") (subtreeIds e) ->
    generateElementCSS env fontMap colorMap (String.concat "-" ancestors) e
    = spec_rules env "-" fontMap colorMap ancestors e.
Proof.
  induction e as [e IH] using Element_nested_ind. intros ancestors Ha He.
  rewrite generateElementCSS_unfold, spec_rules_unfold.
  rewrite (className_joined _ _ Ha).
  f_equal.
  - destruct (style e) as [st|]; [|reflexivity].
    now rewrite convertStyleToCSS_nonempty.
  - f_equal. apply map_ext_in. intros c Hc.
    rewrite List.Forall_forall in IH. unfold joinedName.
    apply (IH c Hc).
    + now apply chain_nonempty.
    + now apply (subtreeIds_children e).
Qed.

(** The markup of an element: the same composed names. *)
Lemma generateElementHTML_markup (dataItemMap : gmap string DataItem)
      (e : Element) :
  forall indentLevel ancestors,
    Forall (fun id => id <> "") ancestors ->
    Forall (fun id => id <> "") (subtreeIds e) ->
    generateElementHTML dataItemMap indentLevel (String.concat "-" ancestors) e
    = spec_markup "-" dataItemMap indentLevel ancestors e.
Proof.
  induction e as [e IH] using Element_nested_ind.
  intros indentLevel ancestors Ha He.
  pose proof (className_joined _ e Ha) as Hname.
  assert (Hmap :
            map (generateElementHTML dataItemMap (S indentLevel)
                                     (joinedName "-" ancestors e))
                (children e)
            = map (spec_markup "-" dataItemMap (S indentLevel)
                               (ancestors ++ [element_id e]))
                  (children e)).
  { apply map_ext_in. intros c Hc.
    rewrite List.Forall_forall in IH. unfold joinedName.
    apply (IH c Hc).
    - now apply chain_nonempty.
    - now apply (subtreeIds_children e). }
  destruct e as [i t d sh sv im st cs].
  destruct t; cbn [generateElementHTML spec_markup element_type children];
    rewrite Hname; try reflexivity.
  cbn [children element_id] in Hmap. rewrite Hmap. reflexivity.
Qed.

(** C9, as stated, fails: the badge inside the card gets the class name
    [card-badge], in the stylesheet and in the markup, and not the dot-joined
    [card.badge]. *)
Lemma renderScene_names_not_dot_joined :
  let els := elements (scene_template sceneNested) in
  className "card" badge = "card-badge"
  /\ joinedName "." ["card"] badge = "card.badge"
  /\ String.eqb
       (concatStrings (map (generateElementCSS sampleHost ∅ ∅ "") els))
       (concatStrings (map (spec_rules sampleHost "." ∅ ∅ []) els))
     = false
  /\ String.eqb
       (concatStrings (map (generateElementHTML ∅ 1 "") els))
       (concatStrings (map (spec_markup "." ∅ 1 []) els))
     = false.
Proof.
  repeat split; vm_compute; reflexivity.
Qed.

(** C9, amended.  For every Scene whose element ids are not empty, the
    stylesheet emitted by the renderer is the preamble followed by one rule
    per Element that has a style map, whose class name is the element id
    prefixed by the hyphen-joined chain of its ancestor ids, and the markup
    gives each element it renders the same composed class name. *)
Theorem renderScene_class_names (env : Host) (scene : Scene) :
  Forall (fun id => id <> "") (forestIds (elements (scene_template scene))) ->
  css (renderScene env scene)
  = sceneContainerCSS env (scene_theme scene) (scene_template scene)
    +:+ concatStrings
          (map (spec_rules env "-" (fontMapOf scene) (colorMapOf scene) [])
               (elements (scene_template scene)))
  /\ html (renderScene env scene)
     = "<div class=" +:+ dq +:+ "scene-container" +:+ dq +:+ ">" +:+ nl
       +:+ concatStrings
             (map (spec_markup "-" (dataItemMapOf scene) 1 [])
                  (elements (scene_template scene)))
       +:+ "</div>".
Proof.
  intros Hids.
  assert (Hel : forall e, In e (elements (scene_template scene)) ->
                          Forall (fun id => id <> "") (subtreeIds e)).
  { intros e He. rewrite List.Forall_forall in *. intros id Hid.
    apply Hids. apply in_flat_map. now exists e. }
  assert (Hcss :
            map (generateElementCSS env (fontMapOf scene) (colorMapOf scene) "")
                (elements (scene_template scene))
            = map (spec_rules env "-" (fontMapOf scene) (colorMapOf scene) [])
                  (elements (scene_template scene))).
  { apply map_ext_in. intros e He.
    apply (generateElementCSS_rules env _ _ e []); [constructor | now apply Hel]. }
  assert (Hhtml :
            map (generateElementHTML (dataItemMapOf scene) 1 "")
                (elements (scene_template scene))
            = map (spec_markup "-" (dataItemMapOf scene) 1 [])
                  (elements (scene_template scene))).
  { apply map_ext_in. intros e He.
    apply (generateElementHTML_markup _ e 1%nat []);
      [constructor | now apply Hel]. }
  unfold renderScene, generateCSS, generateHTML. cbn [css html].
  rewrite Hcss, Hhtml. split; reflexivity.
Qed.

Lemma renderScene_class_names_witness :
  css (renderScene sampleHost sceneNested)
  = sceneContainerCSS sampleHost (scene_theme sceneNested)
                      (scene_template sceneNested)
    +:+ concatStrings
          (map (spec_rules sampleHost "-" (fontMapOf sceneNested)
                           (colorMapOf sceneNested) [])
               (elements (scene_template sceneNested)))
  /\ html (renderScene sampleHost sceneNested)
     = "<div class=" +:+ dq +:+ "scene-container" +:+ dq +:+ ">" +:+ nl
       +:+ concatStrings
             (map (spec_markup "-" (dataItemMapOf sceneNested) 1 [])
                  (elements (scene_template sceneNested)))
       +:+ "</div>".
Proof.
  apply (renderScene_class_names sampleHost sceneNested).
  apply (bool_decide_unpack _). vm_compute. exact I.
Defined.

(** ** Runs of the executor *)

Lemma finishRun_world (env : Host)
      (saveSceneToDirectory : ExecutionContext -> Result string) (r : Run) :
  world (snd (finishRun env saveSceneToDirectory r)) = world r.
Proof.
  unfold finishRun.
  destruct (validateScene (context (world r))); [|reflexivity].
  destruct (saveSceneToDirectory (context (world r))); reflexivity.
Qed.

(** What a run leaves in the world is what its steps left: validation,
    persistence and rendering change nothing. *)
Lemma executeOperations_world (env : Host)
      (otherHandlers : string -> option OperationHandler)
      (saveSceneToDirectory : ExecutionContext -> Result string)
      (tick0 : nat) (cache0 : gmap string bool) (sceneId sceneName : string)
      (operations : list Operation) :
  world (executeOperations env otherHandlers saveSceneToDirectory tick0 cache0
                           sceneId sceneName operations)
  = world (snd (executeSteps env otherHandlers operations
                  (mkRun (mkWorld (initialContext sceneId sceneName operations)
                                  tick0 cache0) [] []))).
Proof.
  unfold executeOperations.
  destruct (executeSteps env otherHandlers operations _) as [[[]|e] r1]; simpl.
  - pose proof (finishRun_world env saveSceneToDirectory r1) as Hw.
    destruct (finishRun env saveSceneToDirectory r1) as [[[]|e] r2];
      simpl in *; exact Hw.
  - reflexivity.
Qed.

(** C7, as stated, fails: the run of the scenario leaves two colours in the
    palette, which was empty (the yellow of the background and the black that
    a text layer takes by default), and the transform of the text element is
    the [calc] form that the [center] anchor produces. *)
Lemma scenario_two_colours_and_calc_transform :
  let r := executeOperations sampleHost (fun _ => None)
                             (fun _ => Ok "scenes/s") 0 ∅ "s" "S"
                             scenarioOperations in
  let c := context (world r) in
  List.length (color_palette (theme c)) = 2%nat
  /\ map transformOf (elements (template c))
     = [None; Some "translate(calc(-50% + 0px), calc(-50% + 0px))"]
  /\ isComplete (last (sent r)) = true.
Proof.
  repeat split; vm_compute; reflexivity.
Qed.

(** C7, amended.  Executing [create_canvas] with width 1240, height 1748 and
    background colour [#FFFF00], then [add_text_layer] with layer name
    [title], text [Hello] and anchor [center], produces a canvas of 1240 by
    1748 and a template with exactly two elements, a full-size rectangle
    shape styled with the yellow colour first, then the text element; the
    palette, empty before, holds exactly two colours, the yellow and the
    default black of the text; the style of the text element has [left: 50%],
    [top: 50%] and the transform
    [translate(calc(-50% + 0px), calc(-50% + 0px))]. *)
Theorem scenario_canvas_then_text (env : Host)
        (otherHandlers : string -> option OperationHandler)
        (saveSceneToDirectory : ExecutionContext -> Result string)
        (tick0 : nat) (cache0 : gmap string bool)
        (sceneId sceneName : string) :
  let r := executeOperations env otherHandlers saveSceneToDirectory tick0
                             cache0 sceneId sceneName scenarioOperations in
  let c := context (world r) in
  let yellowId := generateId env tick0 "color" in
  let rectangleId := generateId env (1 + tick0) "elem" in
  let fontId := generateId env (2 + tick0) "font" in
  let blackId := generateId env (3 + tick0) "color" in
  let dataItemId := generateId env (4 + tick0) "data" in
  let textId := generateId env (5 + tick0) "elem" in
  canvas (template c) = mkCanvas (numZ 1240) (numZ 1748)
  /\ elements (template c)
     = [mkElement rectangleId shape None (Some rectangle) None None
                  (Some [("width", "100%"); ("height", "100%");
                         ("background_color", yellowId)]) [];
        mkElement textId data_item (Some dataItemId) None None None
                  (Some [("position", "absolute"); ("left", "50%");
                         ("top", "50%"); ("font", fontId);
                         ("font_size", "16px"); ("color", blackId);
                         ("text_align", "left");
                         ("transform",
                          "translate(calc(-50% + 0px), calc(-50% + 0px))")])
                  []]
  /\ color_palette (theme c)
     = [mkColor yellowId "color_1" (numZ 255) (numZ 255) (numZ 0) (numZ 1);
        mkColor blackId "color_2" (numZ 0) (numZ 0) (numZ 0) (numZ 1)]
  /\ data_items (data c)
     = [mkDataItem dataItemId TextItem "title" (Some "Hello") None].
Proof.
  intros r c. subst c r. rewrite executeOperations_world.
  repeat split; vm_compute; reflexivity.
Qed.

(** The loop stops at the first step that throws: whatever operations follow
    it, the run is left as that step left it, handler calls included. *)
Lemma executeSteps_abort (env : Host)
      (otherHandlers : string -> option OperationHandler)
      (before after : list Operation) (op : Operation) (r r1 r2 : Run)
      (e : Error) :
  executeSteps env otherHandlers before r = (Ok tt, r1) ->
  executeStep env otherHandlers op r1 = (Throw e, r2) ->
  executeSteps env otherHandlers (before ++ op :: after) r = (Throw e, r2).
Proof.
  revert r. induction before as [|b before IH]; intros r Hbefore Hop.
  - simpl in Hbefore. injection Hbefore as <-. simpl. now rewrite Hop.
  - simpl in *.
    destruct (executeStep env otherHandlers b r) as [[[]|e'] r'];
      [|discriminate].
    now apply IH.
Qed.

(** A step adds at most its own call to the handler calls of the run. *)
Lemma executeStep_invoked (env : Host)
      (otherHandlers : string -> option OperationHandler)
      (op : Operation) (r : Run) :
  let r' := snd (executeStep env otherHandlers op r) in
  invoked r' = invoked r \/ invoked r' = invoked r ++ [(step op, operation op)].
Proof.
  unfold executeStep.
  destruct (OPERATION_HANDLERS env otherHandlers (operation op)) as [handler|];
    [|now left].
  destruct (resolveParameters _ (parameters op)) as [resolved|e]; [|now left].
  destruct (handler resolved _) as [[result|e] w3]; [|now right].
  destruct (success result); simpl; [|now right].
  destruct (output result); now right.
Qed.

(** The failure report never names the step nor the operation: no error
    carries them. *)
Lemma failureMessage_unknown (operations : list Operation) (e : Error) :
  exists message,
    failureMessage operations e = EXECUTION_FAILED 0 "unknown" message.
Proof.
  unfold failureMessage, error_step, error_operation.
  assert (Hnone : forall l i,
             findIndexFrom (fun _ : Operation => false) l i = -1)
    by (induction l as [|x l IH]; intros i; simpl; [reflexivity | apply IH]).
  unfold findIndex. rewrite Hnone. simpl. eexists. reflexivity.
Qed.

(** C1, on a list of five operations whose third step fails: the handlers of
    steps 4 and 5 are not called, and the failure report carries the error
    message, but step 0 and the operation name [unknown] instead of step 3 and
    [resize_image]. *)
Theorem executeOperations_failure_report_at_step_3 :
  let r := executeOperations sampleHost (fun _ => None)
                             (fun _ => Ok "scenes/s") 0 ∅ "s" "S"
                             fiveOperations in
  invoked r = [(1, "create_canvas"); (2, "add_text_layer"); (3, "resize_image")]
  /\ sent r
     = [EXECUTION_PROGRESS 1 5 "create_canvas" "Executing create_canvas...";
        EXECUTION_PROGRESS 2 5 "add_text_layer" "Executing add_text_layer...";
        EXECUTION_PROGRESS 3 5 "resize_image" "Executing resize_image...";
        EXECUTION_FAILED 0 "unknown"
                         "resize_image operation is not implemented yet"].
Proof.
  split; vm_compute; reflexivity.
Qed.

(** The abort of a run, for every operation list: when the steps before [op]
    succeed and [op] throws, the run ends as [op] left it (no handler of a
    later operation is called) with the failure report as its last message. *)
Lemma executeOperations_stops_at_failure (env : Host)
      (otherHandlers : string -> option OperationHandler)
      (saveSceneToDirectory : ExecutionContext -> Result string)
      (tick0 : nat) (cache0 : gmap string bool) (sceneId sceneName : string)
      (before after : list Operation) (op : Operation) (r1 r2 : Run)
      (e : Error) :
  let operations := before ++ op :: after in
  let r0 := mkRun (mkWorld (initialContext sceneId sceneName operations)
                           tick0 cache0) [] [] in
  executeSteps env otherHandlers before r0 = (Ok tt, r1) ->
  executeStep env otherHandlers op r1 = (Throw e, r2) ->
  let r := executeOperations env otherHandlers saveSceneToDirectory tick0
                             cache0 sceneId sceneName operations in
  world r = world r2
  /\ invoked r = invoked r2
  /\ sent r = sent r2 ++ [failureMessage operations e].
Proof.
  intros operations r0 Hbefore Hop r. subst r r0 operations.
  unfold executeOperations.
  rewrite (executeSteps_abort env otherHandlers before after op _ r1 r2 e
                              Hbefore Hop).
  repeat split; reflexivity.
Qed.

(** After steps that all succeed, the run ends with the failure report of the
    final validation when it throws, and with the completion message when it
    passes and the scene is saved. *)
Lemma executeOperations_after_steps (env : Host)
      (otherHandlers : string -> option OperationHandler)
      (saveSceneToDirectory : ExecutionContext -> Result string)
      (tick0 : nat) (cache0 : gmap string bool) (sceneId sceneName : string)
      (operations : list Operation) (r1 : Run) :
  executeSteps env otherHandlers operations
               (mkRun (mkWorld (initialContext sceneId sceneName operations)
                               tick0 cache0) [] [])
  = (Ok tt, r1) ->
  let r := executeOperations env otherHandlers saveSceneToDirectory tick0
                             cache0 sceneId sceneName operations in
  (forall e, validateScene (context (world r1)) = Throw e ->
             sent r = sent r1 ++ [failureMessage operations e])
  /\ (forall scenePath,
         validateScene (context (world r1)) = Ok tt ->
         saveSceneToDirectory (context (world r1)) = Ok scenePath ->
         isComplete (last (sent r)) = true).
Proof.
  intros Hsteps r. subst r. unfold executeOperations. rewrite Hsteps.
  unfold finishRun. split.
  - intros e He. rewrite He. reflexivity.
  - intros scenePath Hvalid Hsave. rewrite Hvalid, Hsave. simpl.
    rewrite last_snoc. reflexivity.
Qed.

(** * Further properties *)

(** ** Colour literals *)

Lemma parseIntZ_two_hex (c1 c2 : ascii) :
  isHexDigit c1 = true -> isHexDigit c2 = true ->
  exists z, parseIntZ (String c1 (String c2 "")) 16 = Some z /\ 0 <= z <= 255.
Proof.
  intros H1 H2.
  destruct c1 as [[] [] [] [] [] [] [] []]; try discriminate H1;
    destruct c2 as [[] [] [] [] [] [] [] []]; try discriminate H2;
    (eexists; split; [vm_compute; reflexivity | lia]).
Qed.

Lemma parseInt_two_hex (c1 c2 : ascii) :
  isHexDigit c1 = true -> isHexDigit c2 = true ->
  channel (parseInt (String c1 (String c2 "")) 16).
Proof.
  intros H1 H2. destruct (parseIntZ_two_hex c1 c2 H1 H2) as (z & Hz & Hr).
  exists z. unfold parseInt. now rewrite Hz.
Qed.

(** X1.  For a literal of ASCII characters, [hexToRGBA] returns a colour
    exactly when the literal, without one leading [#], has 6 or 8 characters;
    any other length is the [ValidationError] that quotes the literal without
    the [#].  When the characters are hexadecimal digits, the red, green and
    blue components are whole numbers from 0 to 255, and the alpha is 1 for 6
    digits and a byte divided by 255 for 8 digits. *)
Theorem hexToRGBA_channels (hex : string) :
  isAscii hex = true ->
  let digits := stripHash hex in
  ((exists v, hexToRGBA hex = Ok v)
   <-> String.length digits = 6%nat \/ String.length digits = 8%nat)
  /\ (String.length digits <> 6%nat -> String.length digits <> 8%nat ->
      hexToRGBA hex
      = Throw (ValidationError ("Invalid hex color: " +:+ digits)))
  /\ (allHexDigits digits = true ->
      String.length digits = 6%nat ->
      exists v, hexToRGBA hex = Ok v
                /\ channel (rgba_r v) /\ channel (rgba_g v)
                /\ channel (rgba_b v) /\ rgba_a v = numZ 1)
  /\ (allHexDigits digits = true ->
      String.length digits = 8%nat ->
      exists v, hexToRGBA hex = Ok v
                /\ channel (rgba_r v) /\ channel (rgba_g v)
                /\ channel (rgba_b v) /\ alphaOfByte (rgba_a v)).
Proof.
  intros _ digits. unfold hexToRGBA. fold digits. split; [|split; [|split]].
  - destruct (Nat.eqb_spec (String.length digits) 6) as [H6|H6].
    { split; [now left | intros _; eexists; reflexivity]. }
    destruct (Nat.eqb_spec (String.length digits) 8) as [H8|H8].
    { split; [now right | intros _; eexists; reflexivity]. }
    split; [intros [v Hv]; discriminate Hv | intros [?|?]; contradiction].
  - intros H6 H8.
    destruct (Nat.eqb_spec (String.length digits) 6); [contradiction|].
    destruct (Nat.eqb_spec (String.length digits) 8); [contradiction|].
    reflexivity.
  - intros Hhex Hlen. rewrite Hlen. simpl Nat.eqb. cbv iota.
    destruct digits as [|a [|b [|c [|d [|e [|f [|]]]]]]]; try discriminate Hlen.
    simpl in Hhex.
    repeat (apply andb_prop in Hhex as [? Hhex]).
    eexists. split; [reflexivity|]. simpl.
    repeat split; try (now apply parseInt_two_hex).
  - intros Hhex Hlen. rewrite Hlen. simpl Nat.eqb. cbv iota.
    destruct digits as [|a [|b [|c [|d [|e [|f [|g [|h [|]]]]]]]]];
      try discriminate Hlen.
    simpl in Hhex.
    repeat (apply andb_prop in Hhex as [? Hhex]).
    eexists. split; [reflexivity|]. simpl.
    repeat split; try (now apply parseInt_two_hex).
    destruct (parseIntZ_two_hex g h) as (z & Hz & Hr); try assumption.
    exists z. split; [|exact Hr].
    unfold js_substring, parseInt. simpl String.substring. now rewrite Hz.
Qed.

Lemma hexToRGBA_channels_witness :
  exists v, hexToRGBA "#1e90ff80" = Ok v
            /\ channel (rgba_r v) /\ channel (rgba_g v)
            /\ channel (rgba_b v) /\ alphaOfByte (rgba_a v).
Proof.
  apply (proj2 (proj2 (proj2 (hexToRGBA_channels "#1e90ff80" eq_refl))));
    reflexivity.
Defined.

(** ** The palettes *)

Lemma sameRGBA_hasNaN (v : RGBA) (c : Color) :
  hasNaN v = true -> sameRGBA v c = false.
Proof.
  unfold hasNaN, sameRGBA. destruct v as [r g b a]. simpl.
  destruct r, g, b, a; try discriminate; intros _;
    destruct (color_r c), (color_g c), (color_b c), (color_a c);
    simpl; rewrite ?andb_false_r; reflexivity.
Qed.

Lemma find_all_false {A : Type} (p : A -> bool) (l : list A) :
  (forall x, p x = false) -> List.find p l = None.
Proof.
  intros H. induction l as [|x l IH]; simpl; [reflexivity|].
  now rewrite H.
Qed.

(** X2.  [hexToRGBA] does not reject characters that are no hexadecimal
    digits: the component they stand for is [NaN].  Such a colour is equal to
    no palette entry, itself included, so [ensureColorInTheme] never finds it:
    whatever the palette holds, each call with room left appends a new
    entry. *)
Theorem ensureColorInTheme_NaN_never_found (env : Host) (tick : nat)
        (theme : Theme) (color : string) (v : RGBA) :
  hexToRGBA color = Ok v ->
  hasNaN v = true ->
  (List.length (color_palette theme) < 16)%nat ->
  exists theme',
    ensureColorInTheme env tick theme color
    = (Ok (generateId env tick "color"), theme', S tick)
    /\ List.length (color_palette theme')
       = S (List.length (color_palette theme))
    /\ List.find (sameRGBA v) (color_palette theme') = None.
Proof.
  intros Hparse Hnan Hlen. unfold ensureColorInTheme. rewrite Hparse.
  rewrite (find_all_false _ _ (fun c => sameRGBA_hasNaN v c Hnan)).
  destruct (16 <=? List.length (color_palette theme))%nat eqn:Hfull;
    [apply Nat.leb_le in Hfull; lia|].
  eexists. split; [reflexivity|]. split.
  - simpl. rewrite length_app. simpl. lia.
  - apply find_all_false. intros c. now apply sameRGBA_hasNaN.
Qed.

Lemma ensureColorInTheme_NaN_never_found_witness :
  exists theme',
    ensureColorInTheme sampleHost 0 themeYellow "#GGGGGG"
    = (Ok (generateId sampleHost 0 "color"), theme', 1%nat)
    /\ List.length (color_palette theme')
       = S (List.length (color_palette themeYellow))
    /\ List.find (sameRGBA (mkRGBA NaN NaN NaN (numZ 1)))
                 (color_palette theme') = None.
Proof.
  apply (ensureColorInTheme_NaN_never_found sampleHost 0 themeYellow "#GGGGGG"
           (mkRGBA NaN NaN NaN (numZ 1)));
    [reflexivity | reflexivity | simpl; lia].
Defined.

(** X3.  [ensureColorInTheme] only ever appends: the palette after a call is
    the palette before it followed by at most one entry, the fonts and the
    names of the theme are untouched, a palette of at most 16 entries stays
    so, and a call that throws leaves the theme and the tick as they were. *)
Theorem ensureColorInTheme_appends (env : Host) (tick : nat) (theme : Theme)
        (color : string) :
  let outcome := ensureColorInTheme env tick theme color in
  let theme' := snd (fst outcome) in
  (exists added, color_palette theme' = color_palette theme ++ added
                 /\ (List.length added <= 1)%nat)
  /\ font_palette theme' = font_palette theme
  /\ theme_id theme' = theme_id theme
  /\ theme_name theme' = theme_name theme
  /\ ((List.length (color_palette theme) <= 16)%nat ->
      (List.length (color_palette theme') <= 16)%nat)
  /\ (forall e, fst (fst outcome) = Throw e ->
                theme' = theme /\ snd outcome = tick).
Proof.
  unfold ensureColorInTheme.
  destruct (hexToRGBA color) as [v|e0]; cbn [fst snd].
  2:{ repeat split; try reflexivity; try (intros; assumption).
      exists []. rewrite app_nil_r. split; [reflexivity | simpl; lia]. }
  destruct (List.find (sameRGBA v) (color_palette theme)) as [c|]; cbn [fst snd].
  { repeat split; try reflexivity; try (intros; assumption); try discriminate.
    exists []. rewrite app_nil_r. split; [reflexivity | simpl; lia]. }
  destruct (Nat.leb_spec 16 (List.length (color_palette theme))); cbn [fst snd].
  { repeat split; try reflexivity; try (intros; assumption).
    exists []. rewrite app_nil_r. split; [reflexivity | simpl; lia]. }
  repeat split; try reflexivity; try discriminate.
  - eexists. split; [reflexivity | simpl; lia].
  - intros _. simpl. rewrite length_app. simpl. lia.
Qed.

Lemma sameFontName_find (name name' : string) (fonts : list Font) :
  sameFontName name name' = true ->
  List.find (fun f => String.eqb (toLowerCase (font_name f))
                                 (toLowerCase name')) fonts
  = List.find (fun f => String.eqb (toLowerCase (font_name f))
                                   (toLowerCase name)) fonts.
Proof.
  unfold sameFontName. intros H. apply String.eqb_eq in H.
  now rewrite H.
Qed.

Lemma find_none_Forall {A : Type} (p : A -> bool) (l : list A) :
  Forall (fun x => p x = false) l -> List.find p l = None.
Proof.
  induction 1 as [|x l Hx _ IH]; simpl; [reflexivity|]. now rewrite Hx.
Qed.

Lemma find_first {A : Type} (p : A -> bool) (before after : list A) (x : A) :
  Forall (fun y => p y = false) before -> p x = true ->
  List.find p (before ++ x :: after) = Some x.
Proof.
  induction 1 as [|y l Hy _ IH]; simpl; intros Hx.
  - now rewrite Hx.
  - rewrite Hy. now apply IH.
Qed.

(** X4.  For a family name and a palette of ASCII characters,
    [ensureFontInTheme] matches family names without regard to case.  When
    the palette has fonts of that name, the id of the first of them is
    returned and nothing changes, the font cache included (no lookup is
    made).  When it has none and already holds 8 fonts, the call throws the
    capacity [ValidationError] and nothing changes either.  Otherwise exactly
    one font is appended, under the name as given, and from then on every
    spelling of that name, at any tick and with any cache, gets the id of
    this font and changes nothing. *)
Theorem ensureFontInTheme_dedup (env : Host) (tick : nat)
        (cache : gmap string bool) (theme : Theme) (name : string) :
  isAscii name = true ->
  Forall (fun f => isAscii (font_name f) = true) (font_palette theme) ->
  let other := fun f => sameFontName (font_name f) name = false in
  (forall before existing after,
      font_palette theme = before ++ existing :: after ->
      Forall other before ->
      sameFontName (font_name existing) name = true ->
      ensureFontInTheme env tick cache theme name
      = (Ok (font_id existing), theme, tick, cache))
  /\ (Forall other (font_palette theme) ->
      (8 <= List.length (font_palette theme))%nat ->
      ensureFontInTheme env tick cache theme name
      = (Throw (ValidationError "Font palette limit reached (max 8 fonts)"),
         theme, tick, cache))
  /\ (Forall other (font_palette theme) ->
      (List.length (font_palette theme) < 8)%nat ->
      exists theme',
        ensureFontInTheme env tick cache theme name
        = (Ok (generateId env tick "font"), theme', S tick,
           snd (getFontUrl env cache name))
        /\ font_palette theme'
           = font_palette theme
             ++ [mkFont (generateId env tick "font") name
                        (fst (getFontUrl env cache name))]
        /\ color_palette theme' = color_palette theme
        /\ forall name' tick' cache',
            sameFontName name name' = true ->
            ensureFontInTheme env tick' cache' theme' name'
            = (Ok (generateId env tick "font"), theme', tick', cache')).
Proof.
  intros _ _ other. subst other. unfold sameFontName. split; [|split].
  - intros before existing after Hpalette Hbefore Hexisting.
    unfold ensureFontInTheme. rewrite Hpalette.
    now rewrite (find_first _ before after existing Hbefore Hexisting).
  - intros Hnone Hfull. unfold ensureFontInTheme.
    rewrite (find_none_Forall _ _ Hnone).
    apply Nat.leb_le in Hfull. now rewrite Hfull.
  - intros Hnone Hroom. apply find_none_Forall in Hnone.
    unfold ensureFontInTheme at 1. rewrite Hnone.
    destruct (Nat.leb_spec 8 (List.length (font_palette theme))); [lia|].
    eexists. split; [reflexivity|]. split; [reflexivity|].
    split; [reflexivity|].
    intros name' tick' cache' Hsame. unfold ensureFontInTheme.
    rewrite (sameFontName_find name name' _ Hsame). simpl font_palette.
    rewrite (find_app_none _ _ _ Hnone); [reflexivity|].
    simpl. apply String.eqb_refl.
Qed.

(** [Open Sans] enters an empty palette, and [OPEN SANS] then gets its id. *)
Lemma ensureFontInTheme_dedup_witness :
  exists theme',
    ensureFontInTheme sampleHost 0 ∅ emptyTheme "Open Sans"
    = (Ok (generateId sampleHost 0 "font"), theme', 1%nat,
       snd (getFontUrl sampleHost ∅ "Open Sans"))
    /\ ensureFontInTheme sampleHost 7 ∅ theme' "OPEN SANS"
       = (Ok (generateId sampleHost 0 "font"), theme', 7%nat, ∅).
Proof.
  destruct (proj2 (proj2 (ensureFontInTheme_dedup sampleHost 0 ∅ emptyTheme
                            "Open Sans" eq_refl (List.Forall_nil _)))
                  (List.Forall_nil _) ltac:(simpl; lia))
    as (theme' & Hfirst & _ & _ & Hnext).
  exists theme'. split; [exact Hfirst|]. apply Hnext. reflexivity.
Defined.

(** X5.  The font cache is keyed by the family name in lower case: once a
    name has been looked up, a second lookup under any spelling of its case
    answers as the first did, without asking the network again and without
    changing the cache. *)
Theorem isGoogleFont_cached (env : Host) (cache : gmap string bool)
        (name name' : string) :
  sameFontName name name' = true ->
  let first := isGoogleFont env cache name in
  isGoogleFont env (snd first) name' = (fst first, snd first).
Proof.
  unfold sameFontName. intros Hsame. apply String.eqb_eq in Hsame.
  unfold isGoogleFont. rewrite <- Hsame.
  destruct (cache !! toLowerCase name) as [known|] eqn:Hcache; simpl.
  - now rewrite Hcache.
  - now rewrite lookup_insert_eq.
Qed.

Lemma isGoogleFont_cached_witness :
  isGoogleFont sampleHost (snd (isGoogleFont sampleHost ∅ "Open Sans"))
               "OPEN SANS"
  = (fst (isGoogleFont sampleHost ∅ "Open Sans"),
     snd (isGoogleFont sampleHost ∅ "Open Sans")).
Proof.
  apply (isGoogleFont_cached sampleHost ∅ "Open Sans" "OPEN SANS").
  reflexivity.
Defined.

(** ** Search, removal and move in the element tree *)

(** What [findElement] finds is what [removeElementFromArray] removes. *)
Lemma removeElementFromArray_agrees (elementId : string)
      (elements : list Element) :
  match findElement elements elementId with
  | Some found =>
      exists elements', removeElementFromArray elements elementId
                        = Some (found, elements')
  | None => removeElementFromArray elements elementId = None
  end.
Proof.
  assert (Hlist : forall l,
             Forall (fun e =>
                       String.eqb (element_id e) elementId = false ->
                       match findElementIn elementId e with
                       | Some found =>
                           exists e', removeWithin elementId e = Some (found, e')
                       | None => removeWithin elementId e = None
                       end) l ->
             match firstSome (findElementIn elementId) l with
             | Some found =>
                 exists l', changeFirst (spliceHere elementId)
                                        (removeWithin elementId) l
                            = Some (found, l')
             | None => changeFirst (spliceHere elementId)
                                   (removeWithin elementId) l = None
             end).
  { intros l Hall. induction Hall as [|e l He Hall IH]; [reflexivity|].
    simpl firstSome. simpl changeFirst. unfold spliceHere at 1 3.
    destruct (String.eqb (element_id e) elementId) eqn:Hid.
    - assert (Hfind : findElementIn elementId e = Some e)
        by (destruct e; simpl in *; now rewrite Hid).
      rewrite Hfind. eexists. reflexivity.
    - specialize (He eq_refl).
      destruct (findElementIn elementId e) as [found|].
      + destruct He as [e' He]. rewrite He. eexists. reflexivity.
      + rewrite He.
        destruct (firstSome (findElementIn elementId) l) as [found|].
        * destruct IH as [l' IH]. rewrite IH. eexists. reflexivity.
        * now rewrite IH. }
  assert (Hel : forall e,
             String.eqb (element_id e) elementId = false ->
             match findElementIn elementId e with
             | Some found =>
                 exists e', removeWithin elementId e = Some (found, e')
             | None => removeWithin elementId e = None
             end).
  { induction e as [e IH] using Element_nested_ind. intros Hid.
    specialize (Hlist _ IH).
    destruct e as [i t d sh sv im st cs]. simpl in *. rewrite Hid.
    destruct (is_container _); [|reflexivity].
    destruct (firstSome (findElementIn elementId) cs) as [found|].
    - destruct Hlist as [cs' Hcs]. rewrite Hcs. eexists. reflexivity.
    - now rewrite Hlist. }
  apply Hlist. apply List.Forall_forall. intros e _. apply Hel.
Qed.

(** X6.  [removeElementFromTemplate] and [findElement] agree: the removal
    returns [null] exactly when the search does, and otherwise it removes the
    very element that the search returns. *)
Theorem removeElementFromTemplate_agrees (template : Template)
        (elementId : string) :
  (findElement (elements template) elementId = None
   <-> removeElementFromTemplate template elementId = None)
  /\ (forall found,
         findElement (elements template) elementId = Some found ->
         exists template',
           removeElementFromTemplate template elementId
           = Some (found, template'))
  /\ (forall removed template',
         removeElementFromTemplate template elementId
         = Some (removed, template') ->
         findElement (elements template) elementId = Some removed).
Proof.
  pose proof (removeElementFromArray_agrees elementId (elements template))
    as Hagree.
  unfold removeElementFromTemplate.
  destruct (findElement (elements template) elementId) as [found|].
  - destruct Hagree as [els' Hrem]. rewrite Hrem. repeat split.
    + discriminate.
    + discriminate.
    + intros f [= <-]. eexists. reflexivity.
    + intros removed template' [= <- _]. reflexivity.
  - rewrite Hagree. repeat split; try discriminate; reflexivity.
Qed.

Lemma pushChild_updateElement (elements : list Element) (containerId : string)
      (child : Element) :
  pushChild elements containerId child
  = updateElement (appendChild child) elements containerId.
Proof.
  assert (Hlist : forall l,
             Forall (fun e => pushWithin containerId child e
                              = updateWithin (appendChild child) containerId e)
                    l ->
             changeFirst (pushHere containerId child)
                         (pushWithin containerId child) l
             = changeFirst (updateHere (appendChild child) containerId)
                           (updateWithin (appendChild child) containerId) l).
  { intros l Hall. induction Hall as [|e l He _ IH]; [reflexivity|].
    simpl. rewrite He, IH. reflexivity. }
  assert (Hel : forall e, pushWithin containerId child e
                          = updateWithin (appendChild child) containerId e).
  { induction e as [e IH] using Element_nested_ind.
    destruct e as [i t d sh sv im st cs]. simpl in *.
    now rewrite (Hlist _ IH). }
  unfold pushChild, updateElement. rewrite Hlist; [reflexivity|].
  apply List.Forall_forall. intros e _. apply Hel.
Qed.

Lemma subtreeLabels_unfold {L : Type} (label : Element -> list L)
      (e : Element) :
  subtreeLabels label e = label e ++ forestLabels label (children e).
Proof.
  destruct e; reflexivity.
Qed.

Lemma subtreeIds_labels (e : Element) :
  subtreeIds e = subtreeLabels idLabel e.
Proof.
  induction e as [e IH] using Element_nested_ind.
  destruct e as [i t d sh sv im st cs]. simpl in *. f_equal.
  induction IH as [|c cs Hc _ IHcs]; simpl; [reflexivity|].
  now rewrite Hc, IHcs.
Qed.

Lemma forestIds_labels (l : list Element) :
  forestIds l = forestLabels idLabel l.
Proof.
  unfold forestIds, forestLabels.
  induction l as [|e l IH]; simpl; [reflexivity|].
  now rewrite subtreeIds_labels, IH.
Qed.

Section TreeChanges.
Context {L : Type} (label : Element -> list L).
Hypothesis label_set_children :
  forall e cs, label (set_children e cs) = label e.

(** Removing an element takes the labels of its subtree out of the array and
    leaves the others. *)
Lemma removeElementFromArray_labels (elementId : string)
      (elements : list Element) (removed : Element)
      (elements' : list Element) :
  removeElementFromArray elements elementId = Some (removed, elements') ->
  Permutation (forestLabels label elements)
              (subtreeLabels label removed ++ forestLabels label elements').
Proof.
  assert (Hlist : forall l,
             Forall (fun e => forall x e',
                         removeWithin elementId e = Some (x, e') ->
                         Permutation (subtreeLabels label e)
                                     (subtreeLabels label x
                                      ++ subtreeLabels label e')) l ->
             forall x l',
               changeFirst (spliceHere elementId) (removeWithin elementId) l
               = Some (x, l') ->
               Permutation (forestLabels label l)
                           (subtreeLabels label x ++ forestLabels label l')).
  { intros l Hall. induction Hall as [|e l He Hall IH]; intros x l'.
    - discriminate.
    - simpl changeFirst. unfold spliceHere at 1.
      destruct (String.eqb (element_id e) elementId).
      + intros [= <- <-]. reflexivity.
      + destruct (removeWithin elementId e) as [[y e']|] eqn:Hw.
        * intros [= <- <-]. unfold forestLabels. simpl flat_map.
          rewrite (He _ _ eq_refl), <- app_assoc. reflexivity.
        * destruct (changeFirst _ _ l) as [[y rest']|] eqn:Hrest;
            [|discriminate].
          intros [= <- <-]. unfold forestLabels in *. simpl flat_map.
          rewrite (IH _ _ eq_refl). rewrite !app_assoc.
          apply Permutation_app_tail. apply Permutation_app_comm. }
  assert (Hel : forall e x e',
             removeWithin elementId e = Some (x, e') ->
             Permutation (subtreeLabels label e)
                         (subtreeLabels label x ++ subtreeLabels label e')).
  { induction e as [e IH] using Element_nested_ind. intros x e'.
    rewrite (subtreeLabels_unfold label e).
    destruct e as [i t d sh sv im st cs]. simpl removeWithin. simpl children.
    destruct (is_container _); [|discriminate].
    destruct (changeFirst _ _ cs) as [[y cs']|] eqn:Hcs; [|discriminate].
    intros [= <- <-]. rewrite (subtreeLabels_unfold label (set_children _ _)),
      label_set_children.
    simpl children. rewrite (Hlist _ IH _ _ Hcs).
    rewrite !app_assoc. apply Permutation_app_tail. apply Permutation_app_comm. }
  intros Hrem. apply (Hlist elements); [|exact Hrem].
  apply List.Forall_forall. intros e _. apply Hel.
Qed.

(** A change in place of the element found adds to the labels of the array
    what it adds to the labels of that element. *)
Lemma updateElement_labels (f : Element -> Element) (added : list L)
      (elementId : string) (elements elements' : list Element) :
  (forall e, Permutation (subtreeLabels label (f e))
                         (added ++ subtreeLabels label e)) ->
  updateElement f elements elementId = Some elements' ->
  Permutation (forestLabels label elements')
              (added ++ forestLabels label elements).
Proof.
  intros Hf.
  assert (Hlist : forall l,
             Forall (fun e => forall e',
                         updateWithin f elementId e = Some (tt, e') ->
                         Permutation (subtreeLabels label e')
                                     (added ++ subtreeLabels label e)) l ->
             forall l',
               changeFirst (updateHere f elementId) (updateWithin f elementId) l
               = Some (tt, l') ->
               Permutation (forestLabels label l')
                           (added ++ forestLabels label l)).
  { intros l Hall. induction Hall as [|e l He Hall IH]; intros l'.
    - discriminate.
    - simpl changeFirst. unfold updateHere at 1.
      destruct (String.eqb (element_id e) elementId).
      + intros [= <-]. unfold forestLabels. simpl flat_map.
        rewrite Hf, <- app_assoc. reflexivity.
      + destruct (updateWithin f elementId e) as [[[] e']|] eqn:Hw.
        * intros [= <-]. unfold forestLabels. simpl flat_map.
          rewrite (He _ eq_refl), <- app_assoc. reflexivity.
        * destruct (changeFirst _ _ l) as [[[] rest']|] eqn:Hrest;
            [|discriminate].
          intros [= <-]. unfold forestLabels in *. simpl flat_map.
          rewrite (IH _ eq_refl). rewrite !app_assoc.
          apply Permutation_app_tail. apply Permutation_app_comm. }
  assert (Hel : forall e e',
             updateWithin f elementId e = Some (tt, e') ->
             Permutation (subtreeLabels label e')
                         (added ++ subtreeLabels label e)).
  { induction e as [e IH] using Element_nested_ind. intros e'.
    rewrite (subtreeLabels_unfold label e).
    destruct e as [i t d sh sv im st cs]. simpl updateWithin. simpl children.
    destruct (is_container _); [|discriminate].
    destruct (changeFirst _ _ cs) as [[[] cs']|] eqn:Hcs; [|discriminate].
    intros [= <-]. rewrite (subtreeLabels_unfold label (set_children _ _)),
      label_set_children.
    simpl children. rewrite (Hlist _ IH _ Hcs).
    rewrite !app_assoc. apply Permutation_app_tail. apply Permutation_app_comm. }
  unfold updateElement.
  destruct (changeFirst _ _ elements) as [[[] l']|] eqn:Hch; [|discriminate].
  intros [= <-]. apply (Hlist elements); [|exact Hch].
  apply List.Forall_forall. intros e _. apply Hel.
Qed.

End TreeChanges.

(** A change in place reaches the element that [findElement] finds, and a
    change that keeps the id leaves it where the search finds it again. *)
Lemma updateElement_finds (f : Element -> Element) (elementId : string)
      (elements : list Element) :
  (forall e, element_id (f e) = element_id e) ->
  match findElement elements elementId with
  | Some found =>
      exists elements', updateElement f elements elementId = Some elements'
                        /\ findElement elements' elementId = Some (f found)
  | None => updateElement f elements elementId = None
  end.
Proof.
  intros Hf.
  assert (Hlist : forall l,
             Forall (fun e =>
                       String.eqb (element_id e) elementId = false ->
                       match findElementIn elementId e with
                       | Some found =>
                           exists e', updateWithin f elementId e = Some (tt, e')
                                      /\ findElementIn elementId e'
                                         = Some (f found)
                       | None => updateWithin f elementId e = None
                       end) l ->
             match firstSome (findElementIn elementId) l with
             | Some found =>
                 exists l', changeFirst (updateHere f elementId)
                                        (updateWithin f elementId) l
                            = Some (tt, l')
                            /\ firstSome (findElementIn elementId) l'
                               = Some (f found)
             | None => changeFirst (updateHere f elementId)
                                   (updateWithin f elementId) l = None
             end).
  { intros l Hall. induction Hall as [|e l He Hall IH]; [reflexivity|].
    simpl firstSome. simpl changeFirst. unfold updateHere at 1 3.
    destruct (String.eqb (element_id e) elementId) eqn:Hid.
    - assert (Hfind : findElementIn elementId e = Some e)
        by (destruct e; simpl in *; now rewrite Hid).
      rewrite Hfind. eexists. split; [reflexivity|]. simpl.
      assert (Hfind' : findElementIn elementId (f e) = Some (f e)).
      { specialize (Hf e). destruct (f e); simpl in *.
        rewrite Hf. now rewrite Hid. }
      now rewrite Hfind'.
    - specialize (He eq_refl).
      destruct (findElementIn elementId e) as [found|] eqn:Hfe.
      + destruct He as (e' & He & Hfind'). rewrite He.
        eexists. split; [reflexivity|]. simpl. now rewrite Hfind'.
      + rewrite He.
        destruct (firstSome (findElementIn elementId) l) as [found|].
        * destruct IH as (l' & IH & Hfind'). rewrite IH.
          eexists. split; [reflexivity|]. simpl. now rewrite Hfe.
        * now rewrite IH. }
  assert (Hel : forall e,
             String.eqb (element_id e) elementId = false ->
             match findElementIn elementId e with
             | Some found =>
                 exists e', updateWithin f elementId e = Some (tt, e')
                            /\ findElementIn elementId e' = Some (f found)
             | None => updateWithin f elementId e = None
             end).
  { induction e as [e IH] using Element_nested_ind. intros Hid.
    specialize (Hlist _ IH).
    destruct e as [i t d sh sv im st cs]. simpl in *. rewrite Hid.
    destruct (is_container _) eqn:Hc; [|reflexivity].
    destruct (firstSome (findElementIn elementId) cs) as [found|].
    - destruct Hlist as (cs' & Hcs & Hfind'). rewrite Hcs.
      eexists. split; [reflexivity|]. simpl. rewrite Hid.
      unfold is_container in *. simpl in *. rewrite Hc. exact Hfind'.
    - now rewrite Hlist. }
  pose proof (Hlist elements) as Hall. unfold findElement, updateElement.
  assert (Hforall : Forall (fun e =>
                       String.eqb (element_id e) elementId = false ->
                       match findElementIn elementId e with
                       | Some found =>
                           exists e', updateWithin f elementId e = Some (tt, e')
                                      /\ findElementIn elementId e'
                                         = Some (f found)
                       | None => updateWithin f elementId e = None
                       end) elements)
    by (apply List.Forall_forall; intros e _; apply Hel).
  specialize (Hall Hforall).
  destruct (firstSome (findElementIn elementId) elements) as [found|].
  - destruct Hall as (l' & Hch & Hfind'). rewrite Hch.
    eexists. split; [reflexivity | exact Hfind'].
  - now rewrite Hall.
Qed.

Lemma subtreeLabels_appendChild {L : Type} (label : Element -> list L)
      (child e : Element) :
  (forall e cs, label (set_children e cs) = label e) ->
  Permutation (subtreeLabels label (appendChild child e))
              (subtreeLabels label child ++ subtreeLabels label e).
Proof.
  intros Hlabel. unfold appendChild.
  rewrite (subtreeLabels_unfold label (set_children _ _)), Hlabel.
  rewrite (subtreeLabels_unfold label e).
  destruct e as [i t d sh sv im st cs]. simpl children.
  unfold forestLabels. rewrite flat_map_app. simpl flat_map.
  rewrite app_nil_r, app_assoc. apply Permutation_app_comm.
Qed.

Lemma referenceLabel_set_children (e : Element) (cs : list Element) :
  referenceLabel (set_children e cs) = referenceLabel e.
Proof.
  reflexivity.
Qed.

Lemma idLabel_set_children (e : Element) (cs : list Element) :
  idLabel (set_children e cs) = idLabel e.
Proof.
  reflexivity.
Qed.

(** A successful move keeps the labels of the tree. *)
Lemma addElementToContainer_labels {L : Type} (label : Element -> list L)
      (template template' : Template) (elementId containerId : string) :
  (forall e cs, label (set_children e cs) = label e) ->
  addElementToContainer template elementId containerId = (Ok tt, template') ->
  Permutation (forestLabels label (elements template'))
              (forestLabels label (elements template)).
Proof.
  intros Hlabel. unfold addElementToContainer, removeElementFromTemplate.
  destruct (removeElementFromArray (elements template) elementId)
    as [[element els]|] eqn:Hrem; [|discriminate].
  simpl elements.
  destruct (findElement els containerId) as [found|] eqn:Hfind;
    [|discriminate].
  destruct (negb (is_container found)); [discriminate|].
  rewrite pushChild_updateElement.
  pose proof (updateElement_finds (appendChild element) containerId els
                (fun e => eq_refl)) as Hupd.
  rewrite Hfind in Hupd. destruct Hupd as (els' & Hupd & _). rewrite Hupd.
  intros [= <-]. simpl elements.
  rewrite (updateElement_labels label Hlabel (appendChild element)
             (subtreeLabels label element) containerId els els'
             (fun e => subtreeLabels_appendChild label element e Hlabel) Hupd).
  symmetry. apply (removeElementFromArray_labels label Hlabel _ _ _ _ Hrem).
Qed.

(** X7.  When [addElementToContainer] returns, the element that [findElement]
    found under the given id has become the last child of the container that
    [findElement] now finds under the container id; the ids of the tree and
    the data items its elements reference are those of before, each as many
    times as before (the element is moved, not copied, and nothing else is
    lost), and the canvas is untouched. *)
Theorem addElementToContainer_moves (template template' : Template)
        (elementId containerId : string) :
  addElementToContainer template elementId containerId = (Ok tt, template') ->
  (exists element container,
      findElement (elements template) elementId = Some element
      /\ is_container container = true
      /\ findElement (elements template') containerId
         = Some (set_children container (children container ++ [element])))
  /\ Permutation (forestIds (elements template'))
                 (forestIds (elements template))
  /\ Permutation (forestLabels referenceLabel (elements template'))
                 (forestLabels referenceLabel (elements template))
  /\ canvas template' = canvas template.
Proof.
  intros Hmove. split; [|split; [|split]].
  - revert Hmove. unfold addElementToContainer, removeElementFromTemplate.
    pose proof (removeElementFromArray_agrees elementId (elements template))
      as Hagree.
    destruct (removeElementFromArray (elements template) elementId)
      as [[element els]|] eqn:Hrem; [|discriminate].
    simpl elements.
    destruct (findElement els containerId) as [found|] eqn:Hfind;
      [|discriminate].
    destruct (is_container found) eqn:Hcont; [|discriminate]. simpl negb.
    cbv iota. rewrite pushChild_updateElement.
    pose proof (updateElement_finds (appendChild element) containerId els
                  (fun e => eq_refl)) as Hupd.
    rewrite Hfind in Hupd. destruct Hupd as (els' & Hupd & Hfound).
    rewrite Hupd. intros [= <-]. exists element, found.
    split; [|split; [exact Hcont | exact Hfound]].
    destruct (findElement (elements template) elementId) as [e|].
    + destruct Hagree as [l Hl]. congruence.
    + discriminate.
  - rewrite !forestIds_labels.
    apply (addElementToContainer_labels idLabel _ _ _ _
             idLabel_set_children Hmove).
  - apply (addElementToContainer_labels referenceLabel _ _ _ _
             referenceLabel_set_children Hmove).
  - revert Hmove. unfold addElementToContainer, removeElementFromTemplate.
    destruct (removeElementFromArray (elements template) elementId)
      as [[element els]|]; [|discriminate].
    simpl elements.
    destruct (findElement els containerId) as [found|]; [|discriminate].
    destruct (negb (is_container found)); [discriminate|].
    destruct (pushChild els containerId element); intros [= <-]; reflexivity.
Qed.

Lemma addElementToContainer_moves_witness :
  addElementToContainer templateNested "label" "box"
  = (Ok tt,
     mkTemplate "t_template" "T Template" (mkCanvas (numZ 800) (numZ 600))
       [plainElement "box" container [plainElement "label" shape []];
        plainElement "column" container [plainElement "row" container []]])
  /\ Permutation
       (forestIds
          [plainElement "box" container [plainElement "label" shape []];
           plainElement "column" container [plainElement "row" container []]])
       (forestIds (elements templateNested)).
Proof.
  split; [reflexivity|].
  exact (proj1 (proj2 (addElementToContainer_moves
                         templateNested
                         (mkTemplate "t_template" "T Template"
                            (mkCanvas (numZ 800) (numZ 600))
                            [plainElement "box" container
                               [plainElement "label" shape []];
                             plainElement "column" container
                               [plainElement "row" container []]])
                         "label" "box" eq_refl))).
Defined.

Lemma someTruthyStr_Some (v : option string) (s : string) :
  someTruthyStr v = Some s -> v = Some s /\ s <> "".
Proof.
  destruct v as [t|]; simpl; [|discriminate]. unfold truthyStr.
  destruct (String.eqb_spec t ""); simpl; [discriminate|].
  intros [= <-]. auto.
Qed.

(** ** Handlers that address a layer *)

(** X8.  [delete_layer] changes nothing unless it succeeds, and its error
    [Failed to remove element] never occurs: once [findElement] has found the
    element of the layer, [removeElementFromTemplate] removes that element.
    A success leaves the template without the element, the layer name
    unbound and, for a [data_item] element, the data without the first item
    of the id the element references. *)
Theorem handleDeleteLayer_all_or_nothing (params : JValue) (w : World) :
  match handleDeleteLayer params w with
  | (Ok result, w') =>
      exists layer_name elementId element template',
        someTruthyStr (strField "layer_name" params) = Some layer_name
        /\ layerMap (context w) !! layer_name = Some elementId
        /\ findElement (elements (template (context w))) elementId
           = Some element
        /\ removeElementFromTemplate (template (context w)) elementId
           = Some (element, template')
        /\ template (context w') = template'
        /\ layerMap (context w') = delete layer_name (layerMap (context w))
        /\ data_items (data (context w'))
           = match (if is_data_item element
                    then someTruthyStr (data_item_id element) else None) with
             | Some id => removeDataItem (data_items (data (context w))) id
             | None => data_items (data (context w))
             end
        /\ theme (context w') = theme (context w)
        /\ result = okResult (JObj [("elementId", JStr elementId)])
  | (Throw e, w') =>
      w' = w
      /\ forall id, e <> ReferenceError ("Failed to remove element: " +:+ id)
  end.
Proof.
  unfold handleDeleteLayer.
  destruct (someTruthyStr (strField "layer_name" params)) as [layer_name|]
    eqn:Hname; [|split; [reflexivity | discriminate]].
  unfold lookupLayer, bind, getContext, throw, ret.
  destruct (someTruthyStr (layerMap (context w) !! layer_name))
    as [elementId|] eqn:Hlayer; [|split; [reflexivity | discriminate]].
  apply someTruthyStr_Some in Hlayer as [Hlayer _].
  pose proof (removeElementFromArray_agrees elementId
                (elements (template (context w)))) as Hagree.
  destruct (findElement (elements (template (context w))) elementId)
    as [element|] eqn:Hfind; [|split; [reflexivity | discriminate]].
  destruct Hagree as [els' Hrem]. cbn [fst snd].
  set (gone := if is_data_item element
               then someTruthyStr (data_item_id element) else None).
  assert (Hremoved : forall c, template c = template (context w) ->
             removeElementFromTemplate (template c) elementId
             = Some (element, set_elements (template (context w)) els')).
  { intros c ->. unfold removeElementFromTemplate. now rewrite Hrem. }
  destruct gone as [id|] eqn:Hgone; unfold modifyContext; cbn [fst snd];
    cbn [context set_context]; rewrite Hremoved by reflexivity;
    exists layer_name, elementId, element,
           (set_elements (template (context w)) els');
    repeat split; try assumption; try reflexivity.
  - apply Hremoved. reflexivity.
  - unfold gone in Hgone. rewrite Hgone. reflexivity.
  - apply Hremoved. reflexivity.
  - unfold gone in Hgone. rewrite Hgone. reflexivity.
Qed.

(** ** The protocol of a run *)

(** The loop sends one progress message per operation it starts and calls
    the handlers of the operations it starts, the last one excepted when the
    step fails before its handler. *)
Lemma executeSteps_trace (env : Host)
      (otherHandlers : string -> option OperationHandler)
      (ops : list Operation) (r : Run) :
  let res := fst (executeSteps env otherHandlers ops r) in
  let r' := snd (executeSteps env otherHandlers ops r) in
  exists started j,
    sent r' = sent r ++ started
    /\ map announced started
       = map (fun op => Some (callOf op)) (firstn (List.length started) ops)
    /\ (List.length started <= List.length ops)%nat
    /\ invoked r' = invoked r ++ map callOf (firstn j ops)
    /\ match res with
       | Ok _ => List.length started = List.length ops /\ j = List.length ops
       | Throw _ => j = List.length started \/ S j = List.length started
       end.
Proof.
  revert r. induction ops as [|op ops IH]; intros r; simpl.
  - exists [], 0%nat. rewrite !app_nil_r. repeat split; reflexivity.
  - assert (Hstep :
        let res := fst (executeStep env otherHandlers op r) in
        let r1 := snd (executeStep env otherHandlers op r) in
        exists m, sent r1 = sent r ++ [m]
                  /\ announced m = Some (callOf op)
                  /\ match res with
                     | Ok _ => invoked r1 = invoked r ++ [callOf op]
                     | Throw _ => invoked r1 = invoked r
                                  \/ invoked r1 = invoked r ++ [callOf op]
                     end).
    { unfold executeStep. eexists.
      destruct (OPERATION_HANDLERS env otherHandlers (operation op))
        as [handler|]; [|repeat split; now left].
      destruct (resolveParameters _ (parameters op)) as [resolved|e];
        [|repeat split; now left].
      destruct (handler resolved _) as [[result|e] w3];
        [|repeat split; now right].
      destruct (success result); simpl; [|repeat split; now right].
      destruct (output result); repeat split; reflexivity. }
    destruct (executeStep env otherHandlers op r) as [[[]|e] r1];
      simpl in Hstep; destruct Hstep as (m & Hsent & Hm & Hinv).
    + specialize (IH r1). simpl in IH.
      destruct IH as (started & j & Hs & Ha & Hl & Hi & Hres).
      exists (m :: started), (S j). simpl.
      rewrite Hs, Hsent, Hi, Hinv, <- !app_assoc, Hm, Ha.
      repeat split; try reflexivity; try lia.
      destruct (fst (executeSteps env otherHandlers ops r1)); lia.
    + simpl. destruct Hinv as [Hinv|Hinv].
      * exists [m], 0%nat. simpl. rewrite Hsent, Hinv, Hm, app_nil_r.
        repeat split; try reflexivity; try lia.
      * exists [m], 1%nat. simpl. rewrite Hsent, Hinv, Hm.
        repeat split; try reflexivity; try lia.
Qed.

(** X9.  The messages of a run, for every list of operations and whatever
    the handlers do: one progress message per operation started, in the order
    of the list, then exactly one final message, which is the completion or
    the failure report.  A run that completes has started every operation;
    a failure report carries step 0 and the operation [unknown].  The handler
    calls are those of the operations started, in order, the last one
    excepted when its step fails before the handler is reached. *)
Theorem executeOperations_protocol (env : Host)
        (otherHandlers : string -> option OperationHandler)
        (saveSceneToDirectory : ExecutionContext -> Result string)
        (tick0 : nat) (cache0 : gmap string bool) (sceneId sceneName : string)
        (operations : list Operation) :
  let r := executeOperations env otherHandlers saveSceneToDirectory tick0
                             cache0 sceneId sceneName operations in
  exists started final j,
    sent r = started ++ [final]
    /\ map announced started
       = map (fun op => Some (callOf op))
             (firstn (List.length started) operations)
    /\ (List.length started <= List.length operations)%nat
    /\ invoked r = map callOf (firstn j operations)
    /\ (j = List.length started \/ S j = List.length started)
    /\ match final with
       | EXECUTION_COMPLETE _ _ _ _ =>
           List.length started = List.length operations
           /\ j = List.length operations
       | EXECUTION_FAILED s o _ => s = 0 /\ o = "unknown"
       | EXECUTION_PROGRESS _ _ _ _ => False
       end.
Proof.
  intros r. subst r. unfold executeOperations.
  pose proof (executeSteps_trace env otherHandlers operations
                (mkRun (mkWorld (initialContext sceneId sceneName operations)
                                tick0 cache0) [] [])) as Htrace.
  simpl in Htrace. destruct Htrace as (started & j & Hs & Ha & Hl & Hi & Hres).
  destruct (executeSteps env otherHandlers operations _) as [[[]|e] r1];
    simpl in *.
  - destruct Hres as [Hn Hj]. unfold finishRun.
    destruct (validateScene (context (world r1))) as [[]|e].
    + destruct (saveSceneToDirectory (context (world r1))) as [path|e].
      * exists started. eexists. exists j. simpl. rewrite Hs, Hi.
        repeat split; try reflexivity; try assumption. left. congruence.
      * destruct (failureMessage_unknown operations e) as [msg Hmsg].
        exists started. eexists. exists j. simpl. rewrite Hs, Hi, Hmsg.
        repeat split; try reflexivity; try assumption. left. congruence.
    + destruct (failureMessage_unknown operations e) as [msg Hmsg].
      exists started. eexists. exists j. simpl. rewrite Hs, Hi, Hmsg.
      repeat split; try reflexivity; try assumption. left. congruence.
  - destruct (failureMessage_unknown operations e) as [msg Hmsg].
    exists started. eexists. exists j. simpl. rewrite Hs, Hi, Hmsg.
    repeat split; try reflexivity; try assumption.
Qed.

(** The loop throws when it comes to an operation without implementation. *)
Lemma executeSteps_placeholder (env : Host)
      (otherHandlers : string -> option OperationHandler)
      (ops : list Operation) (r : Run) :
  Exists (fun op => In (operation op) placeholderOperations) ops ->
  exists e, fst (executeSteps env otherHandlers ops r) = Throw e.
Proof.
  intros Hex. revert r. induction Hex as [op ops Hop|op ops Hex IH]; intros r.
  - simpl.
    assert (Hstep : exists e,
               fst (executeStep env otherHandlers op r) = Throw e).
    { unfold executeStep.
      assert (Hhandler : exists message,
                 OPERATION_HANDLERS env otherHandlers (operation op)
                 = Some (fun _ => throw (ValidationError message))).
      { simpl in Hop.
        destruct Hop as [<-|[<-|[<-|[<-|[<-|[]]]]]]; eexists; reflexivity. }
      destruct Hhandler as [message ->].
      destruct (resolveParameters _ (parameters op)); eexists; reflexivity. }
    destruct Hstep as [e He].
    destruct (executeStep env otherHandlers op r) as [[[]|e'] r1];
      simpl in He; [discriminate|]. eexists. reflexivity.
  - simpl. destruct (executeStep env otherHandlers op r) as [[[]|e'] r1].
    + apply IH.
    + eexists. reflexivity.
Qed.

(** X10.  A list of operations that contains [resize_image], [crop_image],
    [remove_background], [upscale] or [segment] never completes, whatever
    the other operations and their handlers do: the run ends with a failure
    report. *)
Theorem executeOperations_placeholder_fails (env : Host)
        (otherHandlers : string -> option OperationHandler)
        (saveSceneToDirectory : ExecutionContext -> Result string)
        (tick0 : nat) (cache0 : gmap string bool) (sceneId sceneName : string)
        (operations : list Operation) :
  Exists (fun op => In (operation op) placeholderOperations) operations ->
  let r := executeOperations env otherHandlers saveSceneToDirectory tick0
                             cache0 sceneId sceneName operations in
  exists message, last (sent r) = Some (EXECUTION_FAILED 0 "unknown" message).
Proof.
  intros Hex r. subst r. unfold executeOperations.
  destruct (executeSteps_placeholder env otherHandlers operations
              (mkRun (mkWorld (initialContext sceneId sceneName operations)
                              tick0 cache0) [] []) Hex) as [e He].
  destruct (executeSteps env otherHandlers operations _) as [[[]|e'] r1];
    simpl in He; [discriminate|].
  destruct (failureMessage_unknown operations e') as [msg Hmsg].
  exists msg. simpl. rewrite Hmsg. apply last_snoc.
Qed.

Lemma executeOperations_placeholder_fails_witness :
  exists message,
    last (sent (executeOperations sampleHost (fun _ => None)
                  (fun _ => Ok "scenes/s") 0 ∅ "s" "S" fiveOperations))
    = Some (EXECUTION_FAILED 0 "unknown" message).
Proof.
  apply (executeOperations_placeholder_fails sampleHost (fun _ => None)
           (fun _ => Ok "scenes/s") 0 ∅ "s" "S" fiveOperations).
  apply (bool_decide_unpack _). vm_compute. exact I.
Defined.

(** ** Placeholders and recorded outputs *)

(** X11.  Recording more outputs never changes what a parameter resolves to:
    a value that resolves with the outputs recorded so far resolves to the
    same result once further steps have recorded theirs (or a step has
    recorded again the output it had). *)
Theorem resolveParameters_monotone (outs outs' : gmap Z JValue)
        (params result : JValue) :
  outs ⊆ outs' ->
  resolveParameters outs params = Ok result ->
  resolveParameters outs' params = Ok result.
Proof.
  intros Hsub. revert result.
  induction params as [| b | n | s | items IH | entries IH]
    using JValue_nested_ind; intros result; simpl; try (intros H; exact H).
  - destruct (matchPlaceholder s) as [digits|]; [|intros H; exact H].
    destruct (parseIntZ digits 10) as [stepNum|]; [|intros H; exact H].
    destruct (outs !! stepNum) as [v|] eqn:Hv; [|discriminate].
    rewrite (lookup_weaken _ _ _ _ Hv Hsub). intros H; exact H.
  - destruct (mapResult (resolveParameters outs) items) as [items'|] eqn:Hmap;
      [|discriminate].
    intros [= <-].
    assert (Hmap' : mapResult (resolveParameters outs') items = Ok items').
    { revert items' Hmap. induction IH as [|x items Hx _ IHitems];
        intros items'; simpl; [intros H; exact H|].
      destruct (resolveParameters outs x) as [y|]; [|discriminate].
      rewrite (Hx y eq_refl).
      destruct (mapResult (resolveParameters outs) items); [|discriminate].
      rewrite (IHitems _ eq_refl). intros H; exact H. }
    now rewrite Hmap'.
  - match goal with
    | |- match ?m with _ => _ end = _ -> _ =>
        destruct m as [entries'|] eqn:Hmap; [|discriminate]
    end.
    intros [= <-].
    match goal with
    | |- match ?m with _ => _ end = _ =>
        assert (Hmap' : m = Ok entries'); [|now rewrite Hmap']
    end.
    revert entries' Hmap. induction IH as [|x entries Hx _ IHentries];
      intros entries'; simpl; [intros H; exact H|].
    destruct (resolveParameters outs (snd x)) as [y|]; [|discriminate].
    rewrite (Hx y eq_refl).
    match goal with
    | |- match ?m with _ => _ end = _ -> _ =>
        destruct m; [|discriminate]
    end.
    rewrite (IHentries _ eq_refl). intros H; exact H.
Qed.

Lemma resolveParameters_monotone_witness :
  resolveParameters (<[2 := JNum (numZ 7)]> (<[1 := JStr "a.png"]> ∅))
                    (JObj [("input_image", JStr "$output_of_step_1")])
  = Ok (JObj [("input_image", JStr "a.png")]).
Proof.
  apply (resolveParameters_monotone (<[1 := JStr "a.png"]> ∅)).
  - apply insert_subseteq. reflexivity.
  - reflexivity.
Defined.

(** ** Anchors *)







(** ** The final validation of a run *)

Lemma sound_weaken (s spare : list string) (c : ExecutionContext) :
  sound (s ++ spare) c -> sound spare c.
Proof.
  unfold sound. intros (Hw & Hh & Hc & Hf & Hr). repeat split; try assumption.
  etransitivity; [|exact Hr]. rewrite <- app_assoc.
  apply submseteq_inserts_l. reflexivity.
Qed.

Lemma keeps_moves {A : Type} (c : M A) (s : list string) :
  keeps c -> moves s s c.
Proof.
  intros H. apply H.
Qed.

Lemma moves_bind {A B : Type} (s s' s'' : list string) (c : M A)
      (k : A -> M B) :
  moves s s' c -> (forall x, moves s' s'' (k x)) -> moves s s'' (bind c k).
Proof.
  intros Hc Hk spare w Hw. unfold bind. specialize (Hc spare w Hw).
  destruct (c w) as [[x|e] w']; [|exact Hc].
  apply (Hk x spare w' Hc).
Qed.

Lemma keeps_bind {A B : Type} (c : M A) (k : A -> M B) :
  keeps c -> (forall x, keeps (k x)) -> keeps (bind c k).
Proof.
  intros Hc Hk s. apply (moves_bind s s s); [apply Hc | intros x; apply Hk].
Qed.

Lemma keeps_ret {A : Type} (x : A) : keeps (ret x).
Proof.
  intros s spare w Hw. exact Hw.
Qed.

Lemma keeps_throw {A : Type} (e : Error) : keeps (@throw A e).
Proof.
  intros s spare w Hw. simpl. apply (sound_weaken s), Hw.
Qed.

Lemma keeps_getContext : keeps getContext.
Proof.
  intros s spare w Hw. exact Hw.
Qed.

Lemma keeps_liftResult {A : Type} (r : Result A) : keeps (liftResult r).
Proof.
  intros s spare w Hw. unfold liftResult.
  destruct r; [exact Hw | apply (sound_weaken s), Hw].
Qed.

Lemma keeps_freshId (env : Host) (prefix : string) : keeps (freshId env prefix).
Proof.
  intros s spare w Hw. exact Hw.
Qed.

Lemma keeps_modifyContext (f : ExecutionContext -> ExecutionContext) :
  (forall spare c, sound spare c -> sound spare (f c)) ->
  keeps (modifyContext f).
Proof.
  intros Hf s spare w Hw. simpl. apply Hf, Hw.
Qed.

Lemma keeps_ensureColor (env : Host) (color : string) :
  keeps (ensureColor env color).
Proof.
  intros s spare w (Hw & Hh & Hc & Hf & Hr). unfold ensureColor.
  assert (Hsound : sound (s ++ spare)
                     (set_theme (context w)
                        (snd (fst (ensureColorInTheme env (tick w)
                                     (theme (context w)) color))))).
  { unfold ensureColorInTheme.
    destruct (hexToRGBA color) as [rgba|e];
      [|repeat split; assumption].
    destruct (List.find (sameRGBA rgba) (color_palette (theme (context w))));
      [repeat split; assumption|].
    destruct (Nat.leb_spec 16 (List.length (color_palette (theme (context w)))))
      as [Hfull|Hroom]; [repeat split; assumption|].
    repeat split; try assumption. simpl. rewrite length_app. simpl. lia. }
  destruct (ensureColorInTheme env (tick w) (theme (context w)) color)
    as [[[x|e] theme'] tick']; simpl in *;
    [exact Hsound | apply (sound_weaken s), Hsound].
Qed.

Lemma keeps_ensureFont (env : Host) (fontName : string) :
  keeps (ensureFont env fontName).
Proof.
  intros s spare w (Hw & Hh & Hc & Hf & Hr). unfold ensureFont.
  assert (Hsound : sound (s ++ spare)
                     (set_theme (context w)
                        (snd (fst (fst (ensureFontInTheme env (tick w)
                                          (googleFontCache w)
                                          (theme (context w)) fontName)))))).
  { unfold ensureFontInTheme.
    destruct (List.find _ (font_palette (theme (context w))));
      [repeat split; assumption|].
    destruct (Nat.leb_spec 8 (List.length (font_palette (theme (context w)))))
      as [Hfull|Hroom]; [repeat split; assumption|].
    repeat split; try assumption. simpl. rewrite length_app. simpl. lia. }
  destruct (ensureFontInTheme env (tick w) (googleFontCache w)
              (theme (context w)) fontName)
    as [[[[x|e] theme'] tick'] cache']; simpl in *;
    [exact Hsound | apply (sound_weaken s), Hsound].
Qed.

Lemma keeps_setLayer (layer_name elementId : string) :
  keeps (setLayer layer_name elementId).
Proof.
  apply keeps_modifyContext. intros spare c H. exact H.
Qed.

(** A new data item is a spare one until an element references it. *)
Lemma moves_pushDataItem (s : list string) (dataItem : DataItem) :
  moves s (item_id dataItem :: s) (pushDataItem dataItem).
Proof.
  intros spare w (Hw & Hh & Hc & Hf & Hr). simpl.
  repeat split; try assumption.
  unfold itemIds, references in *. simpl. rewrite map_app. simpl.
  rewrite <- Permutation_cons_append. apply submseteq_skip. exact Hr.
Qed.

Lemma moves_pushElement (s : list string) (element : Element) :
  moves (subtreeLabels referenceLabel element ++ s) s (pushElement element).
Proof.
  intros spare w (Hw & Hh & Hc & Hf & Hr). simpl.
  repeat split; try assumption.
  unfold itemIds, references, forestLabels in *. simpl.
  rewrite flat_map_app. simpl. rewrite app_nil_r.
  etransitivity; [|exact Hr].
  apply Permutation_submseteq.
  rewrite <- !app_assoc.
  rewrite (Permutation_app_comm (subtreeLabels referenceLabel element)).
  rewrite <- !app_assoc. reflexivity.
Qed.

Lemma keeps_pushElement (element : Element) :
  subtreeLabels referenceLabel element = [] -> keeps (pushElement element).
Proof.
  intros Hnone s. pose proof (moves_pushElement s element) as H.
  rewrite Hnone in H. exact H.
Qed.

(** A change of style in place keeps the references. *)
Lemma keeps_mutateElement (elementId : string) (f : Element -> Element) :
  (forall e, referenceLabel (f e) = referenceLabel e
             /\ children (f e) = children e) ->
  keeps (mutateElement elementId f).
Proof.
  intros Hf. apply keeps_modifyContext.
  intros spare c (Hw & Hh & Hc & Hfo & Hr).
  destruct (updateElement f (elements (template c)) elementId) as [els'|]
    eqn:Hupd; [|repeat split; assumption].
  repeat split; try assumption.
  unfold references, itemIds in *. simpl.
  rewrite (updateElement_labels referenceLabel referenceLabel_set_children
             f [] elementId (elements (template c)) els'); [exact Hr | | exact Hupd].
  intros e. simpl. rewrite !subtreeLabels_unfold.
  destruct (Hf e) as [-> ->]. reflexivity.
Qed.

Lemma setStyleProperty_keeps (key value : string) (e : Element) :
  referenceLabel (setStyleProperty key value e) = referenceLabel e
  /\ children (setStyleProperty key value e) = children e.
Proof.
  split; reflexivity.
Qed.

Lemma someTruthyNum_Some (v : option number) (n : number) :
  someTruthyNum v = Some n -> truthyNum n = true.
Proof.
  destruct v as [m|]; simpl; [|discriminate].
  destruct (truthyNum m) eqn:Hm; [|discriminate]. now intros [= <-].
Qed.

Ltac keeps_step :=
  cbv zeta;
  first [ apply keeps_ret | apply keeps_throw | apply keeps_getContext
        | apply keeps_liftResult | apply keeps_freshId
        | apply keeps_ensureColor | apply keeps_ensureFont
        | apply keeps_setLayer
        | apply keeps_pushElement; reflexivity
        | apply keeps_mutateElement; intros ?; split; reflexivity
        | apply keeps_bind; [|intros ?]
        | match goal with
          | |- keeps (match ?x with _ => _ end) => destruct x eqn:?
          | |- keeps (if ?x then _ else _) => destruct x eqn:?
          end ].

Lemma keeps_handleCreateCanvas (env : Host) (params : JValue) :
  keeps (handleCreateCanvas env params).
Proof.
  unfold handleCreateCanvas.
  destruct (someTruthyNum (numField "width" params)) as [cw|] eqn:Hcw;
    [|apply keeps_throw].
  destruct (someTruthyNum (numField "height" params)) as [ch|] eqn:Hch;
    [|apply keeps_throw].
  apply someTruthyNum_Some in Hcw, Hch.
  apply keeps_bind.
  - apply keeps_modifyContext. intros spare c (Hw & Hh & Hrest).
    repeat split; try assumption; apply Hrest.
  - intros _. repeat keeps_step.
Qed.

Lemma keeps_textLayerPosition (env : Host) (params : JValue)
      (sizeValue : SizeValue) :
  keeps (textLayerPosition env params sizeValue).
Proof.
  unfold textLayerPosition. repeat keeps_step.
Qed.

Lemma moves_weaken {A : Type} (x s s' : list string) (c : M A) :
  moves s s' c -> moves (x ++ s) s' c.
Proof.
  intros Hc spare w Hw. apply Hc. rewrite <- app_assoc in Hw.
  apply (sound_weaken x), Hw.
Qed.

(** A new [data_item] element takes the spare data item it references. *)
Lemma moves_pushElement_dataItem (s : list string) (elementId id : string)
      (st : option ElementStyle) :
  moves (id :: s) s
        (pushElement (mkElement elementId data_item (Some id) None None None
                                st [])).
Proof.
  pose proof (moves_pushElement s
                (mkElement elementId data_item (Some id) None None None st []))
    as H.
  simpl in H. unfold referenceLabel in H. simpl in H.
  destruct (truthyStr id); simpl in H; [exact H|].
  apply (moves_weaken [id]), H.
Qed.

Lemma keeps_handleAddTextLayer (env : Host) (params : JValue) :
  keeps (handleAddTextLayer env params).
Proof.
  unfold handleAddTextLayer.
  destruct (someTruthyStr (strField "layer_name" params)) as [layer_name|];
    [|apply keeps_throw].
  destruct (orElse _ _) as [textValue|]; [|apply keeps_throw].
  cbv zeta. intros s.
  eapply moves_bind; [apply keeps_moves, keeps_ensureFont|]. intros fontId.
  eapply moves_bind; [apply keeps_moves, keeps_ensureColor|]. intros colorId.
  eapply moves_bind; [apply keeps_moves, keeps_freshId|]. intros dataItemId.
  eapply moves_bind; [apply moves_pushDataItem|]. intros _. simpl item_id.
  eapply moves_bind; [apply keeps_moves, keeps_textLayerPosition|].
  intros position.
  eapply moves_bind; [apply keeps_moves, keeps_freshId|]. intros elementId.
  eapply moves_bind; [apply keeps_moves; repeat keeps_step|]. intros style4.
  eapply moves_bind; [apply moves_pushElement_dataItem|]. intros _.
  apply keeps_moves. repeat keeps_step.
Qed.

Lemma keeps_handleAddImageLayer (env : Host) (params : JValue) :
  keeps (handleAddImageLayer env params).
Proof.
  unfold handleAddImageLayer.
  destruct (someTruthyStr (strField "layer_name" params)) as [layer_name|];
    [|apply keeps_throw].
  destruct (someTruthyStr (strField "input_image" params)) as [input_image|];
    [|apply keeps_throw].
  cbv zeta. intros s.
  eapply moves_bind; [apply keeps_moves, keeps_freshId|]. intros dataItemId.
  eapply moves_bind; [apply moves_pushDataItem|]. intros _. simpl item_id.
  eapply moves_bind; [apply keeps_moves, keeps_freshId|]. intros elementId.
  eapply moves_bind; [apply moves_pushElement_dataItem|]. intros _.
  apply keeps_moves. repeat keeps_step.
Qed.

Lemma keeps_lookupLayer (layer_name : string) : keeps (lookupLayer layer_name).
Proof.
  unfold lookupLayer. repeat keeps_step.
Qed.

Lemma updateDataItem_ids (f : DataItem -> DataItem) (items : list DataItem)
      (id : string) :
  (forall item, item_id (f item) = item_id item) ->
  map item_id (updateDataItem f items id) = map item_id items.
Proof.
  intros Hf. induction items as [|item items IH]; simpl; [reflexivity|].
  destruct (String.eqb (item_id item) id); simpl; [now rewrite Hf|].
  now rewrite IH.
Qed.

Lemma keeps_handleEditTextLayer (env : Host) (params : JValue) :
  keeps (handleEditTextLayer env params).
Proof.
  unfold handleEditTextLayer.
  destruct (someTruthyStr (strField "layer_name" params)) as [layer_name|];
    [|apply keeps_throw].
  apply keeps_bind; [apply keeps_lookupLayer|]. intros found. cbv zeta.
  destruct (negb (is_data_item (snd found))); [apply keeps_throw|].
  apply keeps_bind; [apply keeps_getContext|]. intros c.
  destruct (match data_item_id (snd found) with
            | Some id => findDataItem (data_items (data c)) id
            | None => None
            end) as [dataItem|]; [|apply keeps_throw].
  destruct (item_type dataItem); [|apply keeps_throw].
  apply keeps_bind.
  { destruct (strField "text_content" params) as [text_content|];
      [|apply keeps_ret].
    apply keeps_modifyContext. intros spare c' (Hw & Hh & Hc & Hf & Hr).
    repeat split; try assumption. unfold itemIds, references in *. simpl.
    rewrite updateDataItem_ids; [exact Hr | reflexivity]. }
  intros _. repeat keeps_step.
Qed.

Lemma keeps_handleSetLayerVisibility (params : JValue) :
  keeps (handleSetLayerVisibility params).
Proof.
  unfold handleSetLayerVisibility.
  destruct (someTruthyStr (strField "layer_name" params)) as [layer_name|];
    [|apply keeps_throw].
  destruct (field "visible" params) as [visible|]; [|apply keeps_throw].
  apply keeps_bind; [apply keeps_lookupLayer|]. intros found.
  repeat keeps_step.
Qed.

Lemma keeps_handleCreateFlexContainer (env : Host) (params : JValue) :
  keeps (handleCreateFlexContainer env params).
Proof.
  unfold handleCreateFlexContainer. repeat keeps_step.
Qed.

Lemma keeps_handleSetFlexLayout (env : Host) (params : JValue) :
  keeps (handleSetFlexLayout env params).
Proof.
  unfold handleSetFlexLayout.
  destruct (someTruthyStr (strField "container_name" params))
    as [container_name|]; [|apply keeps_throw].
  apply keeps_bind; [apply keeps_getContext|]. intros c.
  destruct (someTruthyStr (layerMap c !! container_name))
    as [containerElementId|]; [|apply keeps_throw].
  destruct (findElement (elements (template c)) containerElementId)
    as [found|]; [|apply keeps_throw].
  destruct (negb (is_container found)); [apply keeps_throw|].
  cbv zeta. apply keeps_bind; [|intros _; apply keeps_ret].
  apply keeps_mutateElement. intros e.
  destruct (option_map (pxOrString env) (lengthField "gap" params));
    destruct (strField "align" params); destruct (strField "justify" params);
    destruct (strField "direction" params); split; reflexivity.
Qed.

(** Whatever its outcome, a move adds no label to the tree and leaves the
    canvas. *)
Lemma addElementToContainer_no_more {L : Type} (label : Element -> list L)
      (template : Template) (elementId containerId : string) :
  (forall e cs, label (set_children e cs) = label e) ->
  let template' := snd (addElementToContainer template elementId containerId) in
  forestLabels label (elements template')
  ⊆+ forestLabels label (elements template)
  /\ canvas template' = canvas template.
Proof.
  intros Hlabel.
  destruct (addElementToContainer template elementId containerId)
    as [[[]|e] template'] eqn:Hmove; simpl.
  - split.
    + apply Permutation_submseteq.
      apply (addElementToContainer_labels label _ _ _ _ Hlabel Hmove).
    + revert Hmove. unfold addElementToContainer, removeElementFromTemplate.
      destruct (removeElementFromArray (elements template) elementId)
        as [[element els]|]; [|discriminate].
      simpl elements.
      destruct (findElement els containerId) as [found|]; [|discriminate].
      destruct (negb (is_container found)); [discriminate|].
      destruct (pushChild els containerId element); intros [= <-]; reflexivity.
  - revert Hmove. unfold addElementToContainer, removeElementFromTemplate.
    destruct (removeElementFromArray (elements template) elementId)
      as [[element els]|] eqn:Hrem; [|intros [= _ <-]; split; reflexivity].
    simpl elements.
    assert (Hless : forestLabels label els
                    ⊆+ forestLabels label (elements template)).
    { rewrite (removeElementFromArray_labels label Hlabel _ _ _ _ Hrem).
      apply submseteq_inserts_l. reflexivity. }
    destruct (findElement els containerId) as [found|];
      [|intros [= _ <-]; split; [exact Hless | reflexivity]].
    destruct (negb (is_container found));
      [intros [= _ <-]; split; [exact Hless | reflexivity]|].
    destruct (pushChild els containerId element); discriminate.
Qed.

Lemma keeps_handleAddLayerToContainer (params : JValue) :
  keeps (handleAddLayerToContainer params).
Proof.
  unfold handleAddLayerToContainer.
  destruct (someTruthyStr (strField "layer_name" params)) as [layer_name|];
    [|apply keeps_throw].
  destruct (someTruthyStr (strField "container_name" params))
    as [container_name|]; [|apply keeps_throw].
  apply keeps_bind; [apply keeps_getContext|]. intros c.
  destruct (someTruthyStr (layerMap c !! layer_name)) as [layerElementId|];
    [|apply keeps_throw].
  destruct (someTruthyStr (layerMap c !! container_name))
    as [containerElementId|]; [|apply keeps_throw].
  apply keeps_bind; [|intros _; apply keeps_ret].
  intros s spare w (Hw & Hh & Hc & Hf & Hr).
  pose proof (addElementToContainer_no_more referenceLabel
                (template (context w)) layerElementId containerElementId
                referenceLabel_set_children) as [Hless Hcanvas].
  assert (Hsound : sound (s ++ spare)
            (set_template (context w)
               (snd (addElementToContainer (template (context w))
                       layerElementId containerElementId)))).
  { unfold sound, references, itemIds in *. simpl. rewrite Hcanvas.
    repeat split; try assumption.
    etransitivity; [|exact Hr]. apply submseteq_app; [reflexivity|].
    exact Hless. }
  destruct (addElementToContainer (template (context w)) layerElementId
              containerElementId) as [[[]|e] template']; simpl in *;
    [exact Hsound | apply (sound_weaken s), Hsound].
Qed.

Lemma removeDataItem_ids (items : list DataItem) (id : string) :
  In id (map item_id items) ->
  Permutation (map item_id items) (id :: map item_id (removeDataItem items id)).
Proof.
  induction items as [|item items IH]; simpl; [intros []|].
  destruct (String.eqb_spec (item_id item) id) as [->|Hne]; [reflexivity|].
  intros [Heq|Hin]; [contradiction|]. simpl.
  rewrite (IH Hin). apply perm_swap.
Qed.

Lemma keeps_handleDeleteLayer (params : JValue) :
  keeps (handleDeleteLayer params).
Proof.
  unfold handleDeleteLayer.
  destruct (someTruthyStr (strField "layer_name" params)) as [layer_name|];
    [|apply keeps_throw].
  intros s spare w Hsound.
  unfold lookupLayer, bind, getContext, throw, ret.
  destruct (someTruthyStr (layerMap (context w) !! layer_name))
    as [elementId|]; [|apply (sound_weaken s), Hsound].
  pose proof (removeElementFromArray_agrees elementId
                (elements (template (context w)))) as Hagree.
  destruct (findElement (elements (template (context w))) elementId)
    as [element|] eqn:Hfind; [|apply (sound_weaken s), Hsound].
  destruct Hagree as [els' Hrem]. cbn [fst snd].
  pose proof (removeElementFromArray_labels referenceLabel
                referenceLabel_set_children _ _ _ _ Hrem) as Hperm.
  destruct Hsound as (Hw & Hh & Hc & Hf & Hr).
  unfold references, itemIds in Hr.
  assert (Hremoved : forall c, template c = template (context w) ->
             removeElementFromTemplate (template c) elementId
             = Some (element, set_elements (template (context w)) els')).
  { intros c ->. unfold removeElementFromTemplate. now rewrite Hrem. }
  rewrite subtreeLabels_unfold in Hperm. unfold referenceLabel at 2 in Hperm.
  destruct (if is_data_item element
            then someTruthyStr (data_item_id element) else None)
    as [id|] eqn:Hgone; unfold modifyContext; cbn [fst snd];
    cbn [context set_context]; rewrite Hremoved by reflexivity;
    cbn [fst snd context set_context];
    (repeat split; try assumption);
    unfold references, itemIds; simpl.
  - destruct (is_data_item element); [|discriminate]. rewrite Hgone in Hperm.
    rewrite Hperm in Hr. simpl in Hr.
    assert (Hin : In id (map item_id (data_items (data (context w))))).
    { apply list_elem_of_In. eapply elem_of_submseteq; [|exact Hr].
      apply elem_of_app. right. left. }
    rewrite (removeDataItem_ids _ _ Hin) in Hr.
    rewrite <- Permutation_middle in Hr.
    apply (submseteq_app_inv_l _ _ [id]) in Hr.
    etransitivity; [|exact Hr].
    apply submseteq_app; [reflexivity|].
    apply submseteq_inserts_l. reflexivity.
  - etransitivity; [|exact Hr]. rewrite Hperm.
    apply submseteq_app; [reflexivity|].
    apply submseteq_inserts_l. reflexivity.
Qed.

(** The registry gives each of the embedded operations a handler that keeps
    the context sound, whatever the handlers of the other operations are. *)
Lemma embedded_handler_keeps (env : Host)
      (rest : string -> option OperationHandler) (name : string) :
  In name embeddedOperations ->
  exists handler,
    OPERATION_HANDLERS env (moreHandlers env rest) name = Some handler
    /\ forall params, keeps (handler params).
Proof.
  intros Hin. simpl in Hin.
  repeat match type of Hin with
         | _ \/ _ => destruct Hin as [<-|Hin]
         | False => destruct Hin
         end;
    eexists; (split; [reflexivity|]); intros params;
    first [ apply keeps_handleCreateCanvas | apply keeps_handleAddImageLayer
          | apply keeps_handleAddTextLayer | apply keeps_handleEditTextLayer
          | apply keeps_handleSetLayerVisibility | apply keeps_handleDeleteLayer
          | apply keeps_handleCreateFlexContainer
          | apply keeps_handleAddLayerToContainer
          | apply keeps_handleSetFlexLayout | apply keeps_throw ].
Qed.

Lemma executeStep_sound (env : Host)
      (rest : string -> option OperationHandler) (op : Operation) (r : Run) :
  In (operation op) embeddedOperations ->
  sound [] (context (world r)) ->
  sound [] (context (world (snd (executeStep env (moreHandlers env rest)
                                             op r)))).
Proof.
  intros Hin Hsound.
  destruct (embedded_handler_keeps env rest _ Hin) as (handler & Hh & Hkeeps).
  unfold executeStep. rewrite Hh.
  destruct (resolveParameters _ (parameters op)) as [resolved|e];
    [|exact Hsound].
  cbn [world send].
  match goal with
  | |- context [handler resolved ?w] =>
      pose proof (Hkeeps resolved [] [] w Hsound) as Hafter;
      destruct (handler resolved w) as [[result|e] w3]
  end; [|exact Hafter].
  destruct (negb (success result)); [exact Hafter|].
  destruct (output result); exact Hafter.
Qed.

Lemma executeSteps_sound (env : Host)
      (rest : string -> option OperationHandler) (ops : list Operation)
      (r : Run) :
  Forall (fun op => In (operation op) embeddedOperations) ops ->
  sound [] (context (world r)) ->
  sound [] (context (world (snd (executeSteps env (moreHandlers env rest)
                                              ops r)))).
Proof.
  intros Hall. revert r. induction Hall as [|op ops Hop _ IH]; intros r Hr.
  - exact Hr.
  - simpl. pose proof (executeStep_sound env rest op r Hop Hr) as Hstep.
    destruct (executeStep env (moreHandlers env rest) op r) as [[[]|e] r1];
      [apply IH, Hstep | exact Hstep].
Qed.

Lemma subtreeLabels_nodes {L : Type} (label : Element -> list L)
      (e : Element) :
  subtreeLabels label e = flat_map label (subtreeNodes e).
Proof.
  induction e as [e IH] using Element_nested_ind.
  destruct e as [i t d sh sv im st cs]. simpl in *. f_equal.
  induction IH as [|c cs Hc _ IHcs]; simpl; [reflexivity|].
  now rewrite flat_map_app, Hc, IHcs.
Qed.

(** A sound context passes [validateScene]. *)
Lemma sound_validateScene (c : ExecutionContext) :
  sound [] c -> validateScene c = Ok tt.
Proof.
  intros (Hw & Hh & Hc & Hf & Hr). unfold validateScene.
  rewrite Hw, Hh. simpl.
  destruct (Nat.ltb_spec 16 (List.length (color_palette (theme c))));
    [lia|].
  destruct (Nat.ltb_spec 8 (List.length (font_palette (theme c)))); [lia|].
  destruct (mapResult _ (elements (template c))) as [l|e] eqn:Hmap;
    [reflexivity|].
  exfalso. apply mapResult_Throw_In in Hmap as (x & Hx & Hthrow).
  destruct (proj1 (checkElement_throws _ x) (ex_intro _ e Hthrow))
    as (n & Hn & Hdata & id & Hid & Hne & Hout).
  apply Hout. apply list_elem_of_In. eapply elem_of_submseteq; [|exact Hr].
  unfold references, forestLabels. simpl. apply list_elem_of_In.
  apply in_flat_map. exists x. split; [exact Hx|].
  rewrite subtreeLabels_nodes. apply in_flat_map. exists n.
  split; [exact Hn|]. unfold referenceLabel. rewrite Hdata, Hid. simpl.
  unfold truthyStr. destruct (String.eqb_spec id ""); [contradiction|].
  now left.
Qed.

(** X13.  A run made of the operations whose handlers are embedded
    ([create_canvas], [add_image_layer], [add_text_layer], [edit_text_layer],
    [set_layer_visibility], [delete_layer], the five placeholders,
    [create_flex_container], [add_layer_to_container], [set_flex_layout])
    leaves a context that [validateScene] accepts, whether its steps succeed
    or not: the canvas has dimensions, the palettes are within their limits,
    and every [data_item] element references a data item of its own.  So the
    final validation never fails such a run: when its steps succeed and the
    scene is saved, it completes. *)
Theorem executeOperations_passes_validation (env : Host)
        (rest : string -> option OperationHandler)
        (saveSceneToDirectory : ExecutionContext -> Result string)
        (tick0 : nat) (cache0 : gmap string bool) (sceneId sceneName : string)
        (operations : list Operation) :
  Forall (fun op => In (operation op) embeddedOperations) operations ->
  let r0 := mkRun (mkWorld (initialContext sceneId sceneName operations)
                           tick0 cache0) [] [] in
  let r := executeOperations env (moreHandlers env rest) saveSceneToDirectory
                             tick0 cache0 sceneId sceneName operations in
  validateScene (context (world r)) = Ok tt
  /\ references (context (world r)) ⊆+ itemIds (context (world r))
  /\ (forall scenePath,
         fst (executeSteps env (moreHandlers env rest) operations r0) = Ok tt ->
         saveSceneToDirectory (context (world r)) = Ok scenePath ->
         isComplete (last (sent r)) = true).
Proof.
  intros Hall r0 r.
  assert (Hsound : sound [] (context (world r))).
  { subst r. rewrite executeOperations_world.
    apply executeSteps_sound; [exact Hall|].
    repeat split; simpl; try lia. reflexivity. }
  split; [apply sound_validateScene, Hsound|].
  split; [apply Hsound|].
  intros scenePath Hsteps Hsave.
  pose proof (sound_validateScene _ Hsound) as Hvalid.
  subst r. rewrite executeOperations_world in Hvalid, Hsave.
  unfold executeOperations. fold r0 in Hvalid, Hsave |- *.
  destruct (executeSteps env (moreHandlers env rest) operations r0)
    as [[[]|e] r1]; [|discriminate].
  simpl in Hvalid, Hsave. unfold finishRun. rewrite Hvalid, Hsave. simpl.
  rewrite last_snoc. reflexivity.
Qed.

Lemma executeOperations_passes_validation_witness :
  validateScene
    (context (world (executeOperations sampleHost
                       (moreHandlers sampleHost (fun _ => None))
                       (fun _ => Ok "scenes/s") 0 ∅ "s" "S"
                       scenarioOperations)))
  = Ok tt.
Proof.
  apply (executeOperations_passes_validation sampleHost (fun _ => None)
           (fun _ => Ok "scenes/s") 0 ∅ "s" "S" scenarioOperations).
  apply (bool_decide_unpack _). vm_compute. exact I.
Defined.

(** ** The outputs recorded by a run *)

Lemma frames_bind {A B : Type} (c : M A) (k : A -> M B) :
  frames c -> (forall x, frames (k x)) -> frames (bind c k).
Proof.
  intros Hc Hk w. unfold bind. specialize (Hc w).
  destruct (c w) as [[x|e] w']; [|exact Hc].
  rewrite <- Hc. apply Hk.
Qed.

Lemma frames_ret {A : Type} (x : A) : frames (ret x).
Proof.
  intros w. reflexivity.
Qed.

Lemma frames_throw {A : Type} (e : Error) : frames (@throw A e).
Proof.
  intros w. reflexivity.
Qed.

Lemma frames_getContext : frames getContext.
Proof.
  intros w. reflexivity.
Qed.

Lemma frames_liftResult {A : Type} (r : Result A) : frames (liftResult r).
Proof.
  intros w. reflexivity.
Qed.

Lemma frames_freshId (env : Host) (prefix : string) :
  frames (freshId env prefix).
Proof.
  intros w. reflexivity.
Qed.

Lemma frames_modifyContext (f : ExecutionContext -> ExecutionContext) :
  (forall c, frameOf (f c) = frameOf c) -> frames (modifyContext f).
Proof.
  intros Hf w. apply Hf.
Qed.

Lemma frames_ensureColor (env : Host) (color : string) :
  frames (ensureColor env color).
Proof.
  intros w. unfold ensureColor.
  destruct (ensureColorInTheme env (tick w) (theme (context w)) color)
    as [[res theme'] tick']. reflexivity.
Qed.

Lemma frames_ensureFont (env : Host) (fontName : string) :
  frames (ensureFont env fontName).
Proof.
  intros w. unfold ensureFont.
  destruct (ensureFontInTheme env (tick w) (googleFontCache w)
              (theme (context w)) fontName)
    as [[[res theme'] tick'] cache']. reflexivity.
Qed.

Lemma frames_mutateElement (elementId : string) (f : Element -> Element) :
  frames (mutateElement elementId f).
Proof.
  apply frames_modifyContext. intros c.
  destruct (updateElement f (elements (template c)) elementId); reflexivity.
Qed.

Ltac frames_step :=
  cbv zeta;
  first [ apply frames_ret | apply frames_throw | apply frames_getContext
        | apply frames_liftResult | apply frames_freshId
        | apply frames_ensureColor | apply frames_ensureFont
        | apply frames_mutateElement
        | apply frames_modifyContext; intros ?; reflexivity
        | apply frames_bind; [|intros ?]
        | match goal with
          | |- frames (match ?x with _ => _ end) => destruct x eqn:?
          | |- frames (if ?x then _ else _) => destruct x eqn:?
          end ].

Lemma answers_bind {A : Type} (c : M A) (k : A -> M OperationResult) :
  (forall x, answers (k x)) -> answers (bind c k).
Proof.
  intros Hk w result w'. unfold bind.
  destruct (c w) as [[x|e] w1]; [apply Hk | discriminate].
Qed.

Lemma answers_ok (out : JValue) : answers (ret (okResult out)).
Proof.
  intros w result w' [= <- _]. split; [reflexivity | now exists out].
Qed.

Lemma answers_throw (e : Error) : answers (throw e).
Proof.
  intros w result w'. discriminate.
Qed.

Ltac answers_step :=
  cbv zeta;
  first [ apply answers_ok | apply answers_throw
        | apply answers_bind; intros ?
        | match goal with
          | |- answers (match ?x with _ => _ end) => destruct x eqn:?
          | |- answers (if ?x then _ else _) => destruct x eqn:?
          end ].

(** The handlers of the embedded operations leave to the executor what is
    the executor's, and answer with an output when they return. *)
Lemma embedded_handler_frames (env : Host)
      (rest : string -> option OperationHandler) (name : string) :
  In name embeddedOperations ->
  exists handler,
    OPERATION_HANDLERS env (moreHandlers env rest) name = Some handler
    /\ forall params, frames (handler params) /\ answers (handler params).
Proof.
  intros Hin. simpl in Hin.
  repeat match type of Hin with
         | _ \/ _ => destruct Hin as [<-|Hin]
         | False => destruct Hin
         end;
    eexists; (split; [reflexivity|]); intros params; cbn [snd]; split.
  all: try (apply frames_throw).
  all: try (apply answers_throw).
  all: try (unfold handleCreateCanvas, handleAddImageLayer, handleAddTextLayer,
              handleEditTextLayer, handleSetLayerVisibility, handleDeleteLayer,
              handleCreateFlexContainer, handleAddLayerToContainer,
              handleSetFlexLayout, textLayerPosition, lookupLayer, pushElement,
              pushDataItem, setLayer;
            repeat answers_step).
  all: unfold handleCreateCanvas, handleAddImageLayer, handleAddTextLayer,
         handleEditTextLayer, handleSetLayerVisibility, handleDeleteLayer,
         handleCreateFlexContainer, handleAddLayerToContainer,
         handleSetFlexLayout, textLayerPosition, lookupLayer, pushElement,
         pushDataItem, setLayer;
       repeat frames_step.
  intros w.
  destruct (addElementToContainer (template (context w)) _ _) as [res t'].
  reflexivity.
Qed.

(** One turn of the loop on an embedded operation: the progress message
    carries the total of the context, and the output of the step is recorded
    exactly when the step succeeds. *)
Lemma executeStep_frame (env : Host)
      (rest : string -> option OperationHandler) (op : Operation) (r : Run) :
  In (operation op) embeddedOperations ->
  let res := fst (executeStep env (moreHandlers env rest) op r) in
  let r1 := snd (executeStep env (moreHandlers env rest) op r) in
  let c := context (world r) in
  let c1 := context (world r1) in
  sceneId c1 = sceneId c /\ sceneName c1 = sceneName c
  /\ totalSteps c1 = totalSteps c
  /\ (exists message,
         sent r1 = sent r ++ [EXECUTION_PROGRESS (step op) (totalSteps c)
                                                 (operation op) message])
  /\ match res with
     | Ok _ =>
         (exists out,
             operationOutputs c1 = <[step op := out]> (operationOutputs c))
         /\ invoked r1 = invoked r ++ [callOf op]
     | Throw _ =>
         operationOutputs c1 = operationOutputs c
         /\ (invoked r1 = invoked r \/ invoked r1 = invoked r ++ [callOf op])
     end.
Proof.
  intros Hin.
  destruct (embedded_handler_frames env rest _ Hin) as (handler & Hh & Hprop).
  unfold executeStep. rewrite Hh.
  destruct (resolveParameters _ (parameters op)) as [resolved|e];
    [|simpl; repeat split; eauto].
  cbn [world send].
  destruct (Hprop resolved) as [Hframes Hanswers].
  match goal with
  | |- context [handler resolved ?w] =>
      pose proof (Hframes w) as Hframe; pose proof (Hanswers w) as Hanswer;
      destruct (handler resolved w) as [[result|e] w3]
  end; simpl in Hframe; injection Hframe as Hid Hname _ Htotal Houts.
  - destruct (Hanswer result w3 eq_refl) as [Hsuccess [out Hout]].
    rewrite Hsuccess, Hout. simpl. rewrite Houts.
    repeat split; eauto.
  - simpl. repeat split; eauto.
Qed.

Lemma executeSteps_frame (env : Host)
      (rest : string -> option OperationHandler) (ops : list Operation)
      (r : Run) :
  Forall (fun op => In (operation op) embeddedOperations) ops ->
  let res := fst (executeSteps env (moreHandlers env rest) ops r) in
  let r' := snd (executeSteps env (moreHandlers env rest) ops r) in
  let c := context (world r) in
  let c' := context (world r') in
  sceneId c' = sceneId c /\ sceneName c' = sceneName c
  /\ totalSteps c' = totalSteps c
  /\ (exists started,
         sent r' = sent r ++ started
         /\ Forall (fun m => announcedTotal m = Some (totalSteps c)) started)
  /\ exists k,
       (k <= List.length ops)%nat
       /\ (forall N, is_Some (operationOutputs c' !! N)
                     <-> is_Some (operationOutputs c !! N)
                         \/ In N (map step (firstn k ops)))
       /\ (invoked r' = invoked r ++ map callOf (firstn k ops)
           \/ invoked r' = invoked r ++ map callOf (firstn (S k) ops))
       /\ (res = Ok tt -> k = List.length ops).
Proof.
  intros Hall. revert r. induction Hall as [|op ops Hop _ IH]; intros r.
  - simpl. split; [reflexivity|]. split; [reflexivity|].
    split; [reflexivity|]. split.
    + exists []. split; [now rewrite app_nil_r | constructor].
    + exists 0%nat. simpl. rewrite app_nil_r.
      repeat split; try lia; try tauto.
  - simpl executeSteps.
    pose proof (executeStep_frame env rest op r Hop) as Hstep.
    destruct (executeStep env (moreHandlers env rest) op r) as [[[]|e] r1];
      simpl in Hstep;
      destruct Hstep as (Hid & Hname & Htotal & [msg Hsent] & Houts & Hinv).
    + specialize (IH r1). simpl in IH.
      destruct IH as (Hid' & Hname' & Htotal' & (started & Hs & Hst)
                      & k & Hk & Hdom & Hcalls & Hres).
      destruct Houts as [out Houts].
      simpl. rewrite Hid', Hname', Htotal', Hid, Hname, Htotal.
      split; [reflexivity|]. split; [reflexivity|].
      split; [reflexivity|]. split.
      * eexists. rewrite Hs, Hsent, <- app_assoc. split; [reflexivity|].
        constructor; [reflexivity|]. now rewrite <- Htotal.
      * exists (S k). simpl. split; [lia|]. split; [|split].
        -- intros N. rewrite Hdom, Houts, lookup_insert_is_Some.
           destruct (decide (step op = N)); tauto.
        -- rewrite Hinv, <- !app_assoc in Hcalls. exact Hcalls.
        -- intros Hok. f_equal. apply Hres.
           destruct (fst (executeSteps env (moreHandlers env rest) ops r1))
             as [[]|]; [reflexivity | discriminate].
    + simpl. split; [assumption|]. split; [assumption|].
      split; [assumption|]. split.
      * eexists. split; [exact Hsent|]. constructor; [reflexivity|constructor].
      * exists 0%nat. simpl. rewrite app_nil_r, Houts.
        split; [lia|]. split; [tauto|]. split; [|discriminate].
        destruct Hinv as [->| ->]; [now left | now right].
Qed.

(** X14.  In a run made of the operations whose handlers are embedded, the
    executor alone manages the identity of the scene, the total of steps and
    the recorded outputs: at the end the context carries the scene id and
    name the run was started with, every progress message carries the number
    of operations as its total, and the outputs recorded are those of the
    steps that succeeded, which are the steps of the first [k] operations of
    the list for some [k] (all of them when the run completes); the handlers
    called are those of these operations and, when a handler failed, of the
    operation after them. *)
Theorem executeOperations_outputs (env : Host)
        (rest : string -> option OperationHandler)
        (saveSceneToDirectory : ExecutionContext -> Result string)
        (tick0 : nat) (cache0 : gmap string bool) (id name : string)
        (operations : list Operation) :
  Forall (fun op => In (operation op) embeddedOperations) operations ->
  let r := executeOperations env (moreHandlers env rest) saveSceneToDirectory
                             tick0 cache0 id name operations in
  let c := context (world r) in
  sceneId c = id /\ sceneName c = name
  /\ totalSteps c = List.length operations
  /\ Forall (fun m => forall total, announcedTotal m = Some total ->
                                    total = List.length operations) (sent r)
  /\ exists k,
       (k <= List.length operations)%nat
       /\ (forall N, is_Some (operationOutputs c !! N)
                     <-> In N (map step (firstn k operations)))
       /\ (invoked r = map callOf (firstn k operations)
           \/ invoked r = map callOf (firstn (S k) operations))
       /\ (isComplete (last (sent r)) = true -> k = List.length operations).
Proof.
  intros Hall r c. subst c r. rewrite executeOperations_world.
  pose proof (executeSteps_frame env rest operations
                (mkRun (mkWorld (initialContext id name operations)
                                tick0 cache0) [] []) Hall) as Hframe.
  simpl in Hframe.
  destruct Hframe as (Hid & Hname & Htotal & (started & Hs & Hst)
                      & k & Hk & Hdom & Hcalls & Hres).
  split; [exact Hid|]. split; [exact Hname|]. split; [exact Htotal|].
  assert (Hstarted : Forall (fun m => forall total,
                                 announcedTotal m = Some total ->
                                 total = List.length operations) started).
  { eapply Forall_impl; [exact Hst|]. simpl. intros m Hm total Ht. congruence. }
  unfold executeOperations.
  destruct (executeSteps env (moreHandlers env rest) operations _)
    as [[[]|e] r1] eqn:Hsteps; simpl in *.
  - assert (Hsent : forall final, announcedTotal final = None ->
               Forall (fun m => forall total,
                           announcedTotal m = Some total ->
                           total = List.length operations)
                      (sent r1 ++ [final])).
    { intros final Hfinal. rewrite Hs. apply Forall_app. split; [exact Hstarted|].
      constructor; [|constructor]. intros total Ht. congruence. }
    assert (Hrest : exists k0,
               (k0 <= List.length operations)%nat
               /\ (forall N, is_Some (operationOutputs (context (world r1)) !! N)
                             <-> In N (map step (firstn k0 operations)))
               /\ (invoked r1 = map callOf (firstn k0 operations)
                   \/ invoked r1 = map callOf (firstn (S k0) operations))
               /\ k0 = List.length operations).
    { exists k. repeat split; try assumption.
      - intros HN. apply Hdom in HN as [HN|HN]; [|exact HN].
        rewrite lookup_empty in HN. now destruct HN.
      - intros HN. apply Hdom. now right.
      - now apply Hres. }
    destruct Hrest as (k0 & Hk0 & Hdom0 & Hcalls0 & Hall0).
    unfold finishRun.
    destruct (validateScene (context (world r1))) as [[]|e].
    + destruct (saveSceneToDirectory (context (world r1))) as [path|e]; simpl.
      * split; [apply Hsent; reflexivity|]. exists k0. auto.
      * destruct (failureMessage_unknown operations e) as [msg Hmsg].
        rewrite Hmsg. split; [apply Hsent; reflexivity|]. exists k0. auto.
    + simpl. destruct (failureMessage_unknown operations e) as [msg Hmsg].
      rewrite Hmsg. split; [apply Hsent; reflexivity|]. exists k0. auto.
  - destruct (failureMessage_unknown operations e) as [msg Hmsg].
    rewrite Hmsg. split.
    + rewrite Hs. apply Forall_app. split; [exact Hstarted|].
      constructor; [|constructor]. intros total Ht. discriminate.
    + exists k. repeat split; try assumption.
      * intros HN. apply Hdom in HN as [HN|HN]; [|exact HN].
        rewrite lookup_empty in HN. now destruct HN.
      * intros HN. apply Hdom. now right.
      * rewrite last_snoc. discriminate.
Qed.

Lemma executeOperations_outputs_witness :
  totalSteps
    (context (world (executeOperations sampleHost
                       (moreHandlers sampleHost (fun _ => None))
                       (fun _ => Ok "scenes/s") 0 ∅ "s" "S"
                       fiveOperations)))
  = 5%nat.
Proof.
  apply (executeOperations_outputs sampleHost (fun _ => None)
           (fun _ => Ok "scenes/s") 0 ∅ "s" "S" fiveOperations).
  apply (bool_decide_unpack _). vm_compute. exact I.
Defined.

(** ** The lookup tables of the renderer *)

Lemma find_app_cases {A : Type} (p : A -> bool) (l l' : list A) :
  List.find p (l ++ l')
  = match List.find p l with
    | Some x => Some x
    | None => List.find p l'
    end.
Proof.
  induction l as [|x l IH]; simpl; [reflexivity|].
  destruct (p x); [reflexivity | exact IH].
Qed.

Lemma fold_insert_lookup {A : Type} (key : A -> string) (items : list A)
      (m : gmap string A) (id : string) :
  fold_left (fun m item => <[key item := item]> m) items m !! id
  = match List.find (fun item => String.eqb (key item) id) (rev items) with
    | Some item => Some item
    | None => m !! id
    end.
Proof.
  revert m. induction items as [|item items IH]; intros m; simpl;
    [reflexivity|].
  rewrite IH.
  destruct (List.find (fun item => String.eqb (key item) id) (rev items))
    as [found|] eqn:Hfound.
  - rewrite find_app_cases, Hfound. reflexivity.
  - rewrite find_app_cases, Hfound. simpl.
    destruct (String.eqb_spec (key item) id) as [->|Hne].
    + apply lookup_insert_eq.
    + apply lookup_insert_ne, Hne.
Qed.

(** X15.  The renderer looks a data item up in a table built by inserting the
    items in order, so of several items with one id it shows the last one,
    while [edit_text_layer] ([data_items.find]) reaches the first one; with
    unique ids the two agree. *)
Theorem dataItemMapOf_last_wins (scene : Scene) (id : string) :
  dataItemMapOf scene !! id
  = List.find (fun item => String.eqb (item_id item) id)
              (rev (data_items (scene_data scene)))
  /\ (NoDup (map item_id (data_items (scene_data scene))) ->
      dataItemMapOf scene !! id
      = findDataItem (data_items (scene_data scene)) id).
Proof.
  assert (Hlast : dataItemMapOf scene !! id
                  = List.find (fun item => String.eqb (item_id item) id)
                              (rev (data_items (scene_data scene)))).
  { unfold dataItemMapOf. rewrite fold_insert_lookup.
    destruct (List.find _ (rev _)); [reflexivity | apply lookup_empty]. }
  split; [exact Hlast|].
  rewrite Hlast. unfold findDataItem.
  generalize (data_items (scene_data scene)) as items.
  induction items as [|item items IH]; intros Hnodup; simpl; [reflexivity|].
  apply NoDup_cons in Hnodup as [Hnotin Hnodup].
  rewrite find_app_cases, (IH Hnodup). simpl.
  destruct (String.eqb_spec (item_id item) id) as [<-|Hne].
  - destruct (List.find _ items) as [other|] eqn:Hother; [|reflexivity].
    exfalso. apply Hnotin. apply find_some in Hother as [Hin Heq].
    apply String.eqb_eq in Heq. rewrite <- Heq.
    apply list_elem_of_In, in_map, Hin.
  - destruct (List.find _ items); reflexivity.
Qed.

Lemma dataItemMapOf_last_wins_witness :
  dataItemMapOf
    (mkScene (mkSceneData "s"
                [mkDataItem "d" TextItem "first" (Some "one") None;
                 mkDataItem "e" TextItem "other" (Some "two") None])
             templateNested emptyTheme) !! "d"
  = Some (mkDataItem "d" TextItem "first" (Some "one") None).
Proof.
  apply (dataItemMapOf_last_wins
           (mkScene (mkSceneData "s"
                       [mkDataItem "d" TextItem "first" (Some "one") None;
                        mkDataItem "e" TextItem "other" (Some "two") None])
                    templateNested emptyTheme) "d").
  apply (bool_decide_unpack _). vm_compute. exact I.
Defined.

(** ** Handlers that restyle a layer *)

Lemma styleGet_styleSet (key value key' : string) (st : ElementStyle) :
  styleGet key' (styleSet key value st)
  = if String.eqb key key' then Some value else styleGet key' st.
Proof.
  unfold styleGet. induction st as [|[k v] st IH]; simpl.
  - destruct (String.eqb key key'); reflexivity.
  - destruct (String.eqb_spec k key) as [->|Hne]; simpl.
    + destruct (String.eqb key key'); reflexivity.
    + destruct (String.eqb_spec k key') as [->|Hne'].
      * destruct (String.eqb_spec key key') as [->|_]; [congruence|].
        reflexivity.
      * exact IH.
Qed.

(** X16.  [set_layer_visibility] changes nothing when it throws.  When it
    returns, the element that [findElement] finds for the layer is the one it
    found before with the style property [display] set to [block] for a
    truthy [visible] and to [none] otherwise, every other style property
    being as before; the ids of the tree, the data, the theme and the layer
    names are untouched. *)
Theorem handleSetLayerVisibility_effect (params : JValue) (w : World) :
  match handleSetLayerVisibility params w with
  | (Ok result, w') =>
      exists layer_name visible elementId element element',
        someTruthyStr (strField "layer_name" params) = Some layer_name
        /\ field "visible" params = Some visible
        /\ layerMap (context w) !! layer_name = Some elementId
        /\ findElement (elements (template (context w))) elementId
           = Some element
        /\ findElement (elements (template (context w'))) elementId
           = Some element'
        /\ (forall key,
               styleGet key (default [] (style element'))
               = if String.eqb "display" key
                 then Some (if truthyValue visible then "block" else "none")
                 else styleGet key (default [] (style element)))
        /\ element_id element' = element_id element
        /\ element_type element' = element_type element
        /\ data_item_id element' = data_item_id element
        /\ children element' = children element
        /\ Permutation (forestIds (elements (template (context w'))))
                       (forestIds (elements (template (context w))))
        /\ canvas (template (context w')) = canvas (template (context w))
        /\ data (context w') = data (context w)
        /\ theme (context w') = theme (context w)
        /\ layerMap (context w') = layerMap (context w)
        /\ result = okResult (JObj [("elementId", JStr elementId);
                                    ("visible", visible)])
  | (Throw e, w') => w' = w
  end.
Proof.
  unfold handleSetLayerVisibility.
  destruct (someTruthyStr (strField "layer_name" params)) as [layer_name|]
    eqn:Hname; [|reflexivity].
  destruct (field "visible" params) as [visible|] eqn:Hvisible; [|reflexivity].
  unfold lookupLayer, bind, getContext, throw, ret, mutateElement,
    modifyContext.
  destruct (someTruthyStr (layerMap (context w) !! layer_name))
    as [elementId|] eqn:Hlayer; [|reflexivity].
  apply someTruthyStr_Some in Hlayer as [Hlayer _].
  set (value := if truthyValue visible then "block" else "none").
  pose proof (updateElement_finds (setStyleProperty "display" value) elementId
                (elements (template (context w))) (fun e => eq_refl)) as Hupd.
  destruct (findElement (elements (template (context w))) elementId)
    as [element|] eqn:Hfind; [|reflexivity].
  destruct Hupd as (els' & Hupd & Hfound). cbn [fst snd context set_context].
  rewrite Hupd.
  exists layer_name, visible, elementId, element,
         (setStyleProperty "display" value element).
  repeat split; try assumption; try reflexivity.
  - intros key. simpl. apply styleGet_styleSet.
  - simpl. rewrite !forestIds_labels.
    apply (updateElement_labels idLabel idLabel_set_children
             (setStyleProperty "display" value) [] elementId
             (elements (template (context w))) els'); [|exact Hupd].
    intros e. rewrite !subtreeLabels_unfold. reflexivity.
Qed.

(** X17.  With parameters of the declared types ([container_name],
    [direction], [justify] and [align] absent or strings, [gap] absent, a
    number or a string), [set_flex_layout] changes nothing when it throws,
    and it throws for a layer whose element is not a container.  When it
    returns, the container that [findElement] finds for the name is the one
    it found before with [display] set to [flex] and with [flex_direction],
    [justify_content], [align_items] and [gap] replaced by the parameters
    that are given (a numeric [gap] in pixels) and kept where they are not;
    every other style property, the children, the data, the theme and the
    layer names are untouched. *)
Theorem handleSetFlexLayout_effect (env : Host) (params : JValue) (w : World) :
  flexLayoutTyped params = true ->
  match handleSetFlexLayout env params w with
  | (Ok result, w') =>
      exists container_name elementId element element',
        someTruthyStr (strField "container_name" params) = Some container_name
        /\ layerMap (context w) !! container_name = Some elementId
        /\ findElement (elements (template (context w))) elementId
           = Some element
        /\ is_container element = true
        /\ findElement (elements (template (context w'))) elementId
           = Some element'
        /\ (forall key,
               let before := styleGet key (default [] (style element)) in
               styleGet key (default [] (style element'))
               = if String.eqb "gap" key then
                   orElse (option_map (pxOrString env)
                                      (lengthField "gap" params)) before
                 else if String.eqb "align_items" key then
                   orElse (strField "align" params) before
                 else if String.eqb "justify_content" key then
                   orElse (strField "justify" params) before
                 else if String.eqb "flex_direction" key then
                   orElse (strField "direction" params) before
                 else if String.eqb "display" key then Some "flex"
                 else before)
        /\ element_id element' = element_id element
        /\ is_container element' = true
        /\ children element' = children element
        /\ canvas (template (context w')) = canvas (template (context w))
        /\ data (context w') = data (context w)
        /\ theme (context w') = theme (context w)
        /\ layerMap (context w') = layerMap (context w)
        /\ result = okResult (JObj [("containerElementId", JStr elementId)])
  | (Throw e, w') => w' = w
  end.
Proof.
  intros _. unfold handleSetFlexLayout.
  destruct (someTruthyStr (strField "container_name" params))
    as [container_name|] eqn:Hname; [|reflexivity].
  unfold bind, getContext, throw, ret, mutateElement, modifyContext.
  destruct (someTruthyStr (layerMap (context w) !! container_name))
    as [elementId|] eqn:Hlayer; [|reflexivity].
  apply someTruthyStr_Some in Hlayer as [Hlayer _].
  destruct (findElement (elements (template (context w))) elementId)
    as [element|] eqn:Hfind; [|reflexivity].
  destruct (is_container element) eqn:Hcontainer; [|reflexivity].
  cbn [negb]. cbv zeta.
  match goal with
  | |- context [updateElement ?f _ _] => set (change := f)
  end.
  assert (Hid : forall e, element_id (change e) = element_id e).
  { intros e. unfold change.
    destruct (option_map (pxOrString env) (lengthField "gap" params));
      destruct (strField "align" params); destruct (strField "justify" params);
      destruct (strField "direction" params); reflexivity. }
  pose proof (updateElement_finds change elementId
                (elements (template (context w))) Hid) as Hupd.
  rewrite Hfind in Hupd. destruct Hupd as (els' & Hupd & Hfound).
  cbn [fst snd context set_context]. rewrite Hupd.
  exists container_name, elementId, element, (change element).
  split; [first [reflexivity | assumption]|].
  split; [first [reflexivity | assumption]|].
  split; [first [reflexivity | assumption]|].
  split; [first [reflexivity | assumption]|].
  split; [exact Hfound|].
  split.
  { intros key. cbv zeta. unfold change.
    destruct (option_map (pxOrString env) (lengthField "gap" params));
      destruct (strField "align" params); destruct (strField "justify" params);
      destruct (strField "direction" params);
      cbn [setStyleProperty set_style style default from_option id orElse];
      rewrite ?styleGet_styleSet;
      repeat match goal with
             | |- context [String.eqb ?a key] =>
                 destruct (String.eqb_spec a key) as [<-|?]; [reflexivity|]
             end; reflexivity. }
  unfold change.
  destruct (option_map (pxOrString env) (lengthField "gap" params));
    destruct (strField "align" params); destruct (strField "justify" params);
    destruct (strField "direction" params);
    repeat split; try reflexivity; exact Hcontainer.
Qed.

(** The row of [worldWithRow] becomes a column with a gap of 8 pixels and
    keeps its [justify_content]. *)
Lemma handleSetFlexLayout_effect_witness :
  exists w' element',
    handleSetFlexLayout sampleHost columnWithGap worldWithRow
    = (Ok (okResult (JObj [("containerElementId", JStr "elem_0_r")])), w')
    /\ findElement (elements (template (context w'))) "elem_0_r"
       = Some element'
    /\ styleGet "flex_direction" (default [] (style element')) = Some "column"
    /\ styleGet "gap" (default [] (style element')) = Some "8px"
    /\ styleGet "justify_content" (default [] (style element'))
       = Some "flex-start".
Proof.
  pose proof (handleSetFlexLayout_effect sampleHost columnWithGap worldWithRow
                eq_refl) as H.
  destruct (handleSetFlexLayout sampleHost columnWithGap worldWithRow)
    as [[result|e] w'] eqn:Hrun; [|vm_compute in Hrun; discriminate Hrun].
  destruct H as (container_name & elementId & element & element' & Hname
                 & Hlayer & Hfind & _ & Hfind' & Hstyle & _ & _ & _ & _ & _
                 & _ & _ & Hresult).
  injection Hname as <-.
  assert (Hid : elementId = "elem_0_r").
  { vm_compute in Hlayer. now injection Hlayer as <-. }
  subst elementId.
  assert (Helement : element
                     = mkElement "elem_0_r" container None None None None
                         (Some [("position", "absolute"); ("left", "0px");
                                ("top", "0px"); ("display", "flex");
                                ("flex_direction", "row");
                                ("justify_content", "flex-start");
                                ("align_items", "flex-start");
                                ("gap", "0px")]) []).
  { vm_compute in Hfind. now injection Hfind as <-. }
  exists w', element'. rewrite Hresult. split; [reflexivity|].
  split; [exact Hfind'|].
  rewrite !Hstyle, Helement. repeat split; reflexivity.
Defined.

(** ** The scene generator *)

Lemma underscoreRunsFrom_single (inRun : bool) (s : string) :
  singleUnderscores inRun (SceneGenerator.underscoreRunsFrom inRun s) = true.
Proof.
  revert inRun. induction s as [|c s IH]; intros inRun; simpl; [reflexivity|].
  destruct (SceneGenerator.isLowerAlnum c) eqn:Hc.
  - simpl. rewrite Hc, IH.
    destruct (Ascii.eqb_spec c "_") as [->|_]; [discriminate | reflexivity].
  - destruct inRun; [apply IH|]. simpl. apply IH.
Qed.

Lemma dropFinalUnderscore_joined (afterUnderscore : bool) (s : string) :
  singleUnderscores afterUnderscore s = true ->
  s <> "" -> s <> "_" ->
  wordsJoined afterUnderscore (SceneGenerator.dropFinalUnderscore s) = true.
Proof.
  revert afterUnderscore. induction s as [|c s IH]; intros b Hs Hne Hnu;
    [contradiction|].
  destruct s as [|d s].
  - simpl in *. destruct (Ascii.eqb_spec c "_") as [->|Hc]; [contradiction|].
    simpl. destruct (Ascii.eqb_spec c "_"); [contradiction|].
    now rewrite andb_true_r in *.
  - change (SceneGenerator.dropFinalUnderscore (String c (String d s)))
      with (String c (SceneGenerator.dropFinalUnderscore (String d s))).
    change (singleUnderscores b (String c (String d s)))
      with (if Ascii.eqb c "_"
            then negb b && singleUnderscores true (String d s)
            else SceneGenerator.isLowerAlnum c
                 && singleUnderscores false (String d s)) in Hs.
    change (wordsJoined b (String c ?t))
      with (if Ascii.eqb c "_" then negb b && wordsJoined true t
            else SceneGenerator.isLowerAlnum c && wordsJoined false t).
    destruct (Ascii.eqb c "_").
    + apply andb_prop in Hs as [-> Hs]. simpl. apply IH; [exact Hs|discriminate|].
      intros [= -> ->]. discriminate.
    + apply andb_prop in Hs as [-> Hs]. simpl.
      destruct (string_dec (String d s) "_") as [Heq|Hne'].
      * injection Heq as -> ->. reflexivity.
      * apply IH; [exact Hs | discriminate | exact Hne'].
Qed.

Lemma lower_ascii_fixed (c : ascii) :
  SceneGenerator.isLowerAlnum c = true \/ c = "_"%char -> lower_ascii c = c.
Proof.
  destruct c as [[] [] [] [] [] [] [] []]; vm_compute; intros [H|H];
    first [reflexivity | discriminate].
Qed.

Lemma sanitized_fixed (afterUnderscore : bool) (s : string) :
  singleUnderscores afterUnderscore s = true ->
  toLowerCase s = s
  /\ SceneGenerator.underscoreRunsFrom afterUnderscore s = s.
Proof.
  revert afterUnderscore. induction s as [|c s IH]; intros b; simpl;
    [auto|].
  destruct (Ascii.eqb_spec c "_") as [->|Hc].
  - intros H. apply andb_prop in H as [Hb H]. destruct b; [discriminate|].
    destruct (IH true H) as [-> ->]. split; reflexivity.
  - intros H. apply andb_prop in H as [Halnum H].
    destruct (IH false H) as [-> ->].
    rewrite (lower_ascii_fixed c (or_introl Halnum)), Halnum.
    split; reflexivity.
Qed.

Lemma wordsJoined_single (afterUnderscore : bool) (s : string) :
  wordsJoined afterUnderscore s = true ->
  singleUnderscores afterUnderscore s = true
  /\ SceneGenerator.dropFinalUnderscore s = s.
Proof.
  revert afterUnderscore. induction s as [|c s IH]; intros b; [auto|].
  change (wordsJoined b (String c s))
    with (if Ascii.eqb c "_" then negb b && wordsJoined true s
          else SceneGenerator.isLowerAlnum c && wordsJoined false s).
  change (singleUnderscores b (String c s))
    with (if Ascii.eqb c "_" then negb b && singleUnderscores true s
          else SceneGenerator.isLowerAlnum c && singleUnderscores false s).
  destruct (Ascii.eqb_spec c "_") as [->|Hc]; intros H;
    apply andb_prop in H as [-> H]; destruct (IH _ H) as [Hsingle Hdrop];
    rewrite Hsingle; (split; [reflexivity|]).
  - destruct s as [|d s]; [discriminate H|].
    change (String "_" (SceneGenerator.dropFinalUnderscore (String d s))
            = String "_" (String d s)). now rewrite Hdrop.
  - destruct s as [|d s].
    + simpl. destruct (Ascii.eqb_spec c "_"); [contradiction | reflexivity].
    + change (String c (SceneGenerator.dropFinalUnderscore (String d s))
              = String c (String d s)). now rewrite Hdrop.
Qed.

(** X18.  The identifier that [sanitizeId] makes is empty or made of words
    of lower-case letters and digits joined by single underscores: it has no
    other character, no underscore at either end and no two underscores in a
    row.  [sanitizeId] leaves such an identifier as it is, so applying it
    twice is applying it once. *)
Theorem sanitizeId_sanitized (name : string) :
  isSanitized (SceneGenerator.sanitizeId name) = true
  /\ (forall s, isSanitized s = true -> SceneGenerator.sanitizeId s = s)
  /\ SceneGenerator.sanitizeId (SceneGenerator.sanitizeId name)
     = SceneGenerator.sanitizeId name.
Proof.
  assert (Hsanitized : forall n, isSanitized (SceneGenerator.sanitizeId n)
                                 = true).
  { intros n. unfold SceneGenerator.sanitizeId, SceneGenerator.trimUnderscores.
    pose proof (underscoreRunsFrom_single false (toLowerCase n)) as Hruns.
    set (s := SceneGenerator.underscoreRunsFrom false (toLowerCase n)) in *.
    set (s1 := match s with String "_" rest => rest | _ => s end).
    assert (Hs1 : singleUnderscores true s1 = true).
    { subst s1. destruct s as [|c rest]; [reflexivity|].
      simpl in Hruns. destruct (Ascii.eqb_spec c "_") as [->|Hc].
      - exact Hruns.
      - assert (Hsame : match c with
                        | "_"%char => rest
                        | _ => String c rest
                        end = String c rest).
        { destruct c as [[] [] [] [] [] [] [] []]; try reflexivity.
          now destruct Hc. }
        rewrite Hsame. simpl.
        destruct (Ascii.eqb_spec c "_"); [contradiction | exact Hruns]. }
    clearbody s1. unfold isSanitized.
    destruct (string_dec s1 "") as [->|Hne]; [reflexivity|].
    rewrite (dropFinalUnderscore_joined true s1 Hs1 Hne);
      [apply orb_true_r|].
    intros ->. discriminate Hs1. }
  assert (Hfixed : forall s, isSanitized s = true ->
                             SceneGenerator.sanitizeId s = s).
  { intros s Hs. unfold isSanitized in Hs.
    destruct (string_dec s "") as [Hempty|Hne];
      [rewrite Hempty; reflexivity|].
    rewrite (proj2 (String.eqb_neq s "") Hne) in Hs.
    simpl in Hs. destruct (wordsJoined_single true s Hs) as [Hsingle Hdrop].
    destruct (sanitized_fixed true s Hsingle) as [Hlower Hruns].
    unfold SceneGenerator.sanitizeId, SceneGenerator.trimUnderscores.
    rewrite Hlower.
    assert (Hfalse : SceneGenerator.underscoreRunsFrom false s = s).
    { destruct s as [|c rest]; [reflexivity|]. simpl in *.
      destruct (Ascii.eqb_spec c "_") as [->|Hc]; [discriminate|].
      apply andb_prop in Hsingle as [Halnum Hrest]. rewrite Halnum.
      now rewrite (proj2 (sanitized_fixed false rest Hrest)). }
    rewrite Hfalse.
    destruct s as [|c rest]; [reflexivity|].
    simpl in Hsingle. destruct (Ascii.eqb_spec c "_") as [->|Hc];
      [discriminate|].
    assert (Hsame : match c with
                    | "_"%char => rest
                    | _ => String c rest
                    end = String c rest).
    { destruct c as [[] [] [] [] [] [] [] []]; try reflexivity.
      now destruct Hc. }
    rewrite Hsame. exact Hdrop. }
  split; [apply Hsanitized|]. split; [exact Hfixed|].
  apply Hfixed, Hsanitized.
Qed.

Lemma existsb_key {A : Type} (key : A -> string) (id : string) (l : list A) :
  existsb (fun x => String.eqb (key x) id) l = true <-> In id (map key l).
Proof.
  induction l as [|x l IH]; simpl; [split; [discriminate | intros []]|].
  rewrite orb_true_iff, IH, String.eqb_eq. reflexivity.
Qed.

Lemma NoDup_snoc_key {A : Type} (key : A -> string) (l : list A) (x : A) :
  existsb (fun y => String.eqb (key y) (key x)) l = false ->
  NoDup (map key l) -> NoDup (map key (l ++ [x])).
Proof.
  intros Hnew Hnodup. rewrite map_app. simpl. apply NoDup_app.
  split; [exact Hnodup|]. split; [|apply NoDup_singleton].
  intros id Hin Hx. apply list_elem_of_singleton in Hx as ->.
  apply list_elem_of_In, existsb_key in Hin. congruence.
Qed.

(** The loop that fills [fontSet] keeps the fonts it has, has a font for
    each entry it has seen, and never has two fonts of one id. *)
Lemma fold_addFont_ids (env : Host) (entries : list SceneGenerator.FullTextEntry)
      (state : list Font * gmap string bool) :
  let fonts := fst (fold_left (SceneGenerator.addFont env) entries state) in
  (forall id, In id (map font_id (fst state)) -> In id (map font_id fonts))
  /\ (forall entry, In entry entries ->
                    In (SceneGenerator.fontIdOf entry) (map font_id fonts))
  /\ (NoDup (map font_id (fst state)) -> NoDup (map font_id fonts)).
Proof.
  revert state. induction entries as [|entry entries IH]; intros state; simpl.
  - repeat split; auto. intros entry [].
  - destruct (IH (SceneGenerator.addFont env state entry))
      as (Hkeep & Hseen & Hnodup).
    assert (Hstep :
              (forall id, In id (map font_id (fst state)) ->
                          In id (map font_id
                                   (fst (SceneGenerator.addFont env state
                                                                entry))))
              /\ In (SceneGenerator.fontIdOf entry)
                    (map font_id
                       (fst (SceneGenerator.addFont env state entry)))
              /\ (NoDup (map font_id (fst state)) ->
                  NoDup (map font_id
                           (fst (SceneGenerator.addFont env state entry))))).
    { unfold SceneGenerator.addFont.
      destruct (existsb _ (fst state)) eqn:Hhas.
      - repeat split; auto. now apply existsb_key in Hhas.
      - cbn [fst]. repeat split.
        + intros id Hin. rewrite map_app. apply in_or_app. now left.
        + rewrite map_app. apply in_or_app. right. now left.
        + apply (NoDup_snoc_key font_id). exact Hhas. }
    destruct Hstep as (Hkeep1 & Hseen1 & Hnodup1). repeat split.
    + intros id Hin. apply Hkeep, Hkeep1, Hin.
    + intros e [<-|Hin]; [apply Hkeep, Hseen1 | apply Hseen, Hin].
    + intros Hn. apply Hnodup, Hnodup1, Hn.
Qed.

Lemma lower_ascii_hash (c : ascii) :
  Ascii.eqb (lower_ascii c) "#" = Ascii.eqb c "#".
Proof.
  destruct c as [[] [] [] [] [] [] [] []]; reflexivity.
Qed.

(** Removing the [#] and lowering the case commute. *)
Lemma removeFirstHash_toLowerCase (s : string) :
  SceneGenerator.removeFirstHash (toLowerCase s)
  = toLowerCase (SceneGenerator.removeFirstHash s).
Proof.
  induction s as [|c s IH]; simpl; [reflexivity|].
  rewrite lower_ascii_hash. destruct (Ascii.eqb c "#"); [reflexivity|].
  simpl. now rewrite IH.
Qed.

Lemma fold_addColor_ids (entries : list SceneGenerator.FullTextEntry)
      (colors : list Color) :
  let colors' := fold_left SceneGenerator.addColor entries colors in
  (forall id, In id (map color_id colors) -> In id (map color_id colors'))
  /\ (forall entry,
         In entry entries ->
         In ("color_" +:+ toLowerCase (SceneGenerator.removeFirstHash
                                         (SceneGenerator.color entry)))
            (map color_id colors'))
  /\ (NoDup (map color_id colors) -> NoDup (map color_id colors')).
Proof.
  revert colors. induction entries as [|entry entries IH]; intros colors; simpl.
  - repeat split; auto. intros entry [].
  - destruct (IH (SceneGenerator.addColor colors entry))
      as (Hkeep & Hseen & Hnodup).
    assert (Hstep :
              (forall id, In id (map color_id colors) ->
                          In id (map color_id
                                   (SceneGenerator.addColor colors entry)))
              /\ In ("color_" +:+ toLowerCase
                                    (SceneGenerator.removeFirstHash
                                       (SceneGenerator.color entry)))
                    (map color_id (SceneGenerator.addColor colors entry))
              /\ (NoDup (map color_id colors) ->
                  NoDup (map color_id
                           (SceneGenerator.addColor colors entry)))).
    { unfold SceneGenerator.addColor. cbv zeta.
      rewrite removeFirstHash_toLowerCase.
      destruct (existsb _ colors) eqn:Hhas.
      - repeat split; auto. now apply existsb_key in Hhas.
      - repeat split.
        + intros id Hin. rewrite map_app. apply in_or_app. now left.
        + rewrite map_app. apply in_or_app. right. now left.
        + apply (NoDup_snoc_key color_id). exact Hhas. }
    destruct Hstep as (Hkeep1 & Hseen1 & Hnodup1). repeat split.
    + intros id Hin. apply Hkeep, Hkeep1, Hin.
    + intros e [<-|Hin]; [apply Hkeep, Hseen1 | apply Hseen, Hin].
    + intros Hn. apply Hnodup, Hnodup1, Hn.
Qed.

Lemma addBlack_ids (colors : list Color) :
  (forall id, In id (map color_id colors) ->
              In id (map color_id (SceneGenerator.addBlack colors)))
  /\ In "color_000000" (map color_id (SceneGenerator.addBlack colors))
  /\ (NoDup (map color_id colors) ->
      NoDup (map color_id (SceneGenerator.addBlack colors))).
Proof.
  unfold SceneGenerator.addBlack.
  destruct (existsb _ colors) eqn:Hhas.
  - repeat split; auto. now apply existsb_key in Hhas.
  - repeat split.
    + intros id Hin. rewrite map_app. apply in_or_app. now left.
    + rewrite map_app. apply in_or_app. right. now left.
    + apply (NoDup_snoc_key color_id). exact Hhas.
Qed.

Lemma imap_In {A B : Type} (f : nat -> A -> B) (l : list A) (y : B) :
  In y (imap f l) ->
  exists i x, (i < List.length l)%nat /\ In x l /\ y = f i x.
Proof.
  revert f. induction l as [|x l IH]; intros f; simpl; [intros []|].
  intros [<-|Hin].
  - exists 0%nat, x. repeat split; [lia | now left].
  - destruct (IH _ Hin) as (i & x' & Hi & Hx & ->). exists (S i), x'.
    repeat split; [lia | now right].
Qed.

Lemma imap_keys {A B : Type} (f : nat -> A -> B) (key : B -> string)
      (name : nat -> string) (l : list A) (k : nat) :
  (forall i x, key (f i x) = name (k + i)%nat) ->
  map key (imap f l) = map name (seq k (List.length l)).
Proof.
  revert f k. induction l as [|x l IH]; intros f k Hkey; simpl; [reflexivity|].
  rewrite Hkey, Nat.add_0_r. f_equal. apply IH.
  intros i y. unfold compose. rewrite Hkey. f_equal. lia.
Qed.

(** X19.  In the scene that [generateScene] builds, every reference
    resolves: each element is a [data_item] element without children whose
    data item exists, and each element but the background has a style whose
    [font] is the id of a font of the theme and whose [color] is the id of a
    colour of the theme; the palette always has the black [color_000000].
    There are as many elements, and as many data items, as text entries and
    one more. *)
Theorem generateScene_references_resolve (env : Host)
        (cache : gmap string bool) (parsed : SceneGenerator.ParsedScene)
        (sceneId sceneName : string) :
  let scene :=
    fst (SceneGenerator.generateScene env cache parsed sceneId sceneName) in
  let fontIds := map font_id (font_palette (scene_theme scene)) in
  let colorIds := map color_id (color_palette (scene_theme scene)) in
  let itemIds := map item_id (data_items (scene_data scene)) in
  Forall (fun e =>
            is_data_item e = true /\ children e = []
            /\ (exists id, data_item_id e = Some id /\ id <> ""
                           /\ In id itemIds)
            /\ (e = SceneGenerator.bgElement
                \/ exists st f c,
                     style e = Some st
                     /\ styleGet "font" st = Some f /\ In f fontIds
                     /\ styleGet "color" st = Some c /\ In c colorIds))
         (elements (scene_template scene))
  /\ In "color_000000" colorIds
  /\ List.length (elements (scene_template scene))
     = S (List.length (SceneGenerator.textEntries parsed))
  /\ List.length (data_items (scene_data scene))
     = S (List.length (SceneGenerator.textEntries parsed)).
Proof.
  intros scene fontIds colorIds itemIds.
  subst scene fontIds colorIds itemIds. unfold SceneGenerator.generateScene.
  cbn [fst scene_template scene_theme scene_data elements font_palette
       color_palette data_items].
  set (entries := SceneGenerator.textEntries parsed).
  destruct (fold_addFont_ids env entries ([], cache)) as (_ & Hfonts & _).
  destruct (fold_addColor_ids entries []) as (_ & Hcolors & _).
  destruct (addBlack_ids (fold_left SceneGenerator.addColor entries []))
    as (Hkeep & Hblack & _).
  split; [|split; [exact Hblack|]].
  - constructor.
    + split; [reflexivity|]. split; [reflexivity|]. split; [|now left].
      exists "background_image". split; [reflexivity|].
      split; [discriminate|]. now left.
    + apply List.Forall_forall. intros e He.
      apply imap_In in He as (i & entry & Hi & Hentry & ->).
      split; [reflexivity|]. split; [reflexivity|]. split.
      * eexists. split; [reflexivity|]. split; [discriminate|].
        right. simpl.
        rewrite (imap_keys SceneGenerator.textDataItem item_id
                   (fun i => "text_" +:+ showZ (Z.of_nat i + 1)) entries 0
                   (fun i x => eq_refl)).
        apply in_map_iff. exists i. split; [reflexivity|].
        apply in_seq. lia.
      * right. unfold SceneGenerator.textElement. cbv zeta.
        cbn [style].
        destruct (String.eqb (SceneGenerator.alignment entry) "centered");
          (eexists; eexists; eexists;
           split; [reflexivity|];
           split; [reflexivity|];
           split; [apply Hfonts, Hentry|];
           split; [reflexivity|];
           apply Hkeep, Hcolors, Hentry).
  - simpl. rewrite !length_imap. auto.
Qed.

Lemma showZ_inj (a b : Z) : showZ a = showZ b -> a = b.
Proof.
  unfold showZ. intros H. apply DecimalZ.to_int_inj.
  assert (Hnorm : forall z, NilZero.int_of_string
                              (NilZero.string_of_int (Z.to_int z))
                            = Some (Z.to_int z)).
  { intros z. apply NilZero.isi.
    - intros Hnil. pose proof (DecimalZ.to_of (Z.to_int z)) as Hto.
      rewrite DecimalZ.of_to, Hnil in Hto. discriminate Hto.
    - intros Hnil. pose proof (DecimalZ.to_of (Z.to_int z)) as Hto.
      rewrite DecimalZ.of_to, Hnil in Hto. discriminate Hto. }
  pose proof (Hnorm a) as Ha. rewrite H, Hnorm in Ha. now injection Ha.
Qed.

Lemma append_length (a b : string) :
  String.length (a +:+ b) = (String.length a + String.length b)%nat.
Proof.
  induction a as [|c a IH]; [reflexivity|].
  change (S (String.length (a +:+ b))
          = S (String.length a + String.length b)). now rewrite IH.
Qed.

Lemma append_cancel_r (s a b : string) : a +:+ s = b +:+ s -> a = b.
Proof.
  revert b. induction a as [|c a IH]; intros [|d b] H.
  - reflexivity.
  - apply (f_equal String.length) in H.
    change (String.length s = S (String.length (b +:+ s))) in H.
    rewrite append_length in H. lia.
  - apply (f_equal String.length) in H.
    change (S (String.length (a +:+ s)) = String.length s) in H.
    rewrite append_length in H. lia.
  - change (String c (a +:+ s) = String d (b +:+ s)) in H.
    injection H as -> H. f_equal. apply IH, H.
Qed.

Lemma NoDup_map_seq (name : nat -> string) (k n : nat) :
  (forall i j, name i = name j -> i = j) -> NoDup (map name (seq k n)).
Proof.
  intros Hinj. revert k. induction n as [|n IH]; intros k; simpl;
    [constructor|].
  constructor; [|apply IH].
  intros Hin. apply list_elem_of_In, in_map_iff in Hin as (j & Hj & Hseq).
  apply Hinj in Hj. apply in_seq in Hseq. lia.
Qed.

Lemma forestIds_flat (l : list Element) :
  Forall (fun e => children e = []) l -> forestIds l = map element_id l.
Proof.
  unfold forestIds. induction 1 as [|e l He _ IH]; simpl; [reflexivity|].
  rewrite IH. destruct e as [i t d sh sv im st cs]. simpl in *.
  now rewrite He.
Qed.

(** X20.  The scene that [generateScene] builds has no two data items, no
    two elements, no two fonts and no two colours of the same id, whatever
    the text entries are: entries whose font names or colours give the same
    id share one palette entry. *)
Theorem generateScene_unique_ids (env : Host) (cache : gmap string bool)
        (parsed : SceneGenerator.ParsedScene) (sceneId sceneName : string) :
  let scene :=
    fst (SceneGenerator.generateScene env cache parsed sceneId sceneName) in
  NoDup (map item_id (data_items (scene_data scene)))
  /\ NoDup (forestIds (elements (scene_template scene)))
  /\ NoDup (map font_id (font_palette (scene_theme scene)))
  /\ NoDup (map color_id (color_palette (scene_theme scene))).
Proof.
  intros scene. subst scene. unfold SceneGenerator.generateScene.
  cbn [fst scene_template scene_theme scene_data elements font_palette
       color_palette data_items].
  set (entries := SceneGenerator.textEntries parsed).
  destruct (fold_addFont_ids env entries ([], cache)) as (_ & _ & Hfonts).
  destruct (fold_addColor_ids entries []) as (_ & _ & Hcolors).
  destruct (addBlack_ids (fold_left SceneGenerator.addColor entries []))
    as (_ & _ & Hblack).
  split; [|split; [|split]].
  - simpl.
    rewrite (imap_keys SceneGenerator.textDataItem item_id
               (fun i => "text_" +:+ showZ (Z.of_nat i + 1)) entries 0
               (fun i x => eq_refl)).
    constructor.
    + intros Hin. apply list_elem_of_In, in_map_iff in Hin as (i & Hi & _).
      discriminate Hi.
    + apply NoDup_map_seq. intros i j Hij.
      change (String "t" (String "e" (String "x" (String "t" (String "_"
                (showZ (Z.of_nat i + 1))))))
              = String "t" (String "e" (String "x" (String "t" (String "_"
                  (showZ (Z.of_nat j + 1))))))) in Hij.
      injection Hij as Hij. apply showZ_inj in Hij. lia.
  - assert (Hids : forestIds (SceneGenerator.bgElement
                              :: imap (SceneGenerator.textElement env) entries)
                   = "background_element"
                     :: map (fun i => "text_" +:+ showZ (Z.of_nat i + 1)
                                      +:+ "_element")
                            (seq 0 (List.length entries))).
    { rewrite forestIds_flat.
      - simpl. f_equal.
        apply (imap_keys (SceneGenerator.textElement env) element_id
                 (fun i => "text_" +:+ showZ (Z.of_nat i + 1) +:+ "_element")
                 entries 0 (fun i x => eq_refl)).
      - constructor; [reflexivity|]. apply List.Forall_forall. intros e He.
        apply imap_In in He as (i & entry & _ & _ & ->). reflexivity. }
    rewrite Hids. constructor.
    + intros Hin. apply list_elem_of_In, in_map_iff in Hin as (i & Hi & _).
      discriminate Hi.
    + apply NoDup_map_seq. intros i j Hij.
      change (String "t" (String "e" (String "x" (String "t" (String "_"
                (showZ (Z.of_nat i + 1) +:+ "_element")))))
              = String "t" (String "e" (String "x" (String "t" (String "_"
                  (showZ (Z.of_nat j + 1) +:+ "_element")))))) in Hij.
      injection Hij as Hij. apply append_cancel_r, showZ_inj in Hij. lia.
  - apply Hfonts. constructor.
  - apply Hblack, Hcolors. constructor.
Qed.

(** ** Removal and later searches *)

(** X21.  In a template whose ids are unique, what
    [removeElementFromTemplate] removes cannot be found afterwards: a search
    for the id of the removed element, or for the id of anything below it,
    returns [null], and the ids that are left are still unique. *)
Theorem removeElementFromTemplate_gone (template template' : Template)
        (elementId : string) (removed : Element) :
  NoDup (forestIds (elements template)) ->
  removeElementFromTemplate template elementId = Some (removed, template') ->
  element_id removed = elementId
  /\ (forall id, In id (subtreeIds removed) ->
                 findElement (elements template') id = None)
  /\ NoDup (forestIds (elements template')).
Proof.
  intros Hnodup. unfold removeElementFromTemplate.
  destruct (removeElementFromArray (elements template) elementId)
    as [[x els']|] eqn:Hrem; [|discriminate].
  intros [= <- <-]. simpl elements.
  destruct (removeElementFromArray_ids _ _ _ _ Hrem) as [Hid Hperm].
  rewrite Hperm in Hnodup. apply NoDup_app in Hnodup as (_ & Hdisjoint & Hleft).
  split; [exact Hid|]. split; [|exact Hleft].
  intros id Hin.
  destruct (findElement els' id) as [found|] eqn:Hfound; [|reflexivity].
  exfalso. apply findElement_Some in Hfound as [_ Hthere].
  apply (Hdisjoint id); now apply list_elem_of_In.
Qed.

Lemma removeElementFromTemplate_gone_witness :
  findElement [plainElement "box" container [];
               plainElement "column" container []] "label" = None.
Proof.
  refine (proj1 (proj2 (removeElementFromTemplate_gone templateNested
           (mkTemplate "t_template" "T Template"
              (mkCanvas (numZ 800) (numZ 600))
              [plainElement "box" container [];
               plainElement "column" container []])
           "row"
           (plainElement "row" container [plainElement "label" shape []])
           _ _)) "label" _).
  - apply (bool_decide_unpack _). vm_compute. exact I.
  - reflexivity.
  - simpl. auto.
Defined.

(** ** Font names in a URL *)

Lemma plusForSpacesFrom_noWhiteSpace (inRun : bool) (s : string) :
  noWhiteSpace (plusForSpacesFrom inRun s) = true.
Proof.
  revert inRun. induction s as [|c s IH]; intros inRun; simpl; [reflexivity|].
  destruct (isWhiteSpace c) eqn:Hc.
  - destruct inRun; [apply IH|]. simpl. apply IH.
  - simpl. rewrite Hc. apply IH.
Qed.

Lemma plusForSpacesFrom_fixed (inRun : bool) (s : string) :
  noWhiteSpace s = true -> plusForSpacesFrom inRun s = s.
Proof.
  revert inRun. induction s as [|c s IH]; intros inRun; simpl; [reflexivity|].
  destruct (isWhiteSpace c); simpl; [discriminate|].
  intros Hs. now rewrite IH.
Qed.

(** A run of white space, whatever is before it, becomes one plus sign when
    what follows does not go on with white space. *)
Lemma plusForSpacesFrom_run (spaces rest : string) :
  spaces <> "" -> allWhiteSpace spaces = true ->
  startsWithWhiteSpace rest = false ->
  plusForSpacesFrom false (spaces +:+ rest)
  = "+" +:+ plusForSpacesFrom false rest
  /\ plusForSpacesFrom true (spaces +:+ rest) = plusForSpacesFrom false rest.
Proof.
  intros Hne Hspaces Hrest.
  assert (Hin : forall r, allWhiteSpace r = true ->
                          plusForSpacesFrom true (r +:+ rest)
                          = plusForSpacesFrom false rest).
  { induction r as [|c r IH]; simpl.
    - intros _. destruct rest as [|c rest]; [reflexivity|].
      simpl in *. now rewrite Hrest.
    - destruct (isWhiteSpace c); [|discriminate]. exact IH. }
  split; [|now apply Hin].
  destruct spaces as [|c spaces]; [contradiction|]. simpl in *.
  destruct (isWhiteSpace c); [|discriminate].
  now rewrite Hin.
Qed.

Lemma plusForSpacesFrom_word (word rest : string) :
  noWhiteSpace word = true ->
  plusForSpacesFrom false (word +:+ rest)
  = word +:+ plusForSpacesFrom false rest.
Proof.
  induction word as [|c word IH]; simpl; [reflexivity|].
  destruct (isWhiteSpace c); simpl; [discriminate|].
  intros H. now rewrite IH.
Qed.

(** X22.  For a font name of ASCII characters, the family name that the
    Google Fonts URLs carry has no white space: each maximal run of white
    space has become one plus sign (a name that is a word without white
    space, then a run of white space, then a rest that does not start with
    white space is carried as the word, a plus sign and the rest encoded in
    the same way).  A name without white space is carried as it is (nothing
    else is encoded), so that encoding twice is encoding once. *)
Theorem plusForSpaces_no_white_space (fontName : string) :
  isAscii fontName = true ->
  noWhiteSpace (plusForSpaces fontName) = true
  /\ (noWhiteSpace fontName = true -> plusForSpaces fontName = fontName)
  /\ (forall word spaces rest,
         fontName = word +:+ spaces +:+ rest ->
         noWhiteSpace word = true ->
         spaces <> "" -> allWhiteSpace spaces = true ->
         startsWithWhiteSpace rest = false ->
         plusForSpaces fontName = word +:+ "+" +:+ plusForSpaces rest)
  /\ plusForSpaces (plusForSpaces fontName) = plusForSpaces fontName.
Proof.
  intros _.
  unfold plusForSpaces. split; [apply plusForSpacesFrom_noWhiteSpace|].
  split; [apply plusForSpacesFrom_fixed|]. split.
  - intros word spaces rest -> Hword Hne Hspaces Hrest.
    rewrite (plusForSpacesFrom_word word _ Hword).
    now rewrite (proj1 (plusForSpacesFrom_run spaces rest Hne Hspaces Hrest)).
  - apply plusForSpacesFrom_fixed, plusForSpacesFrom_noWhiteSpace.
Qed.

Lemma plusForSpaces_no_white_space_witness :
  plusForSpaces "Open  Sans Condensed"
  = "Open" +:+ "+" +:+ plusForSpaces "Sans Condensed".
Proof.
  refine (proj1 (proj2 (proj2 (plusForSpaces_no_white_space
                                 "Open  Sans Condensed" eq_refl)))
                "Open" "  " "Sans Condensed" eq_refl eq_refl _ eq_refl eq_refl).
  discriminate.
Defined.

(** ** A new layer and its name *)

Lemma findElement_app (elements more : list Element) (elementId : string) :
  findElement (elements ++ more) elementId
  = match findElement elements elementId with
    | Some found => Some found
    | None => findElement more elementId
    end.
Proof.
  unfold findElement. induction elements as [|e l IH]; simpl; [reflexivity|].
  destruct (findElementIn elementId e); [reflexivity | exact IH].
Qed.

(** X23.  [add_image_layer] with its two required parameters cannot fail.
    It appends one image data item and, last in the template, one
    [data_item] element that references it, advances the id counter by two
    and leaves the theme; when the id generated for the element is not yet
    in the tree, a handler that then addresses the layer by its name reaches
    this element, whether the name was in use before or not. *)
Theorem handleAddImageLayer_then_lookup (env : Host) (params : JValue)
        (w : World) (layer_name input_image : string) :
  someTruthyStr (strField "layer_name" params) = Some layer_name ->
  someTruthyStr (strField "input_image" params) = Some input_image ->
  let dataItemId := generateId env (tick w) "data" in
  let elementId := generateId env (S (tick w)) "elem" in
  exists w' st,
    let element :=
      mkElement elementId data_item (Some dataItemId) None None None
                (Some st) [] in
    handleAddImageLayer env params w
    = (Ok (okResult (JObj [("elementId", JStr elementId);
                           ("dataItemId", JStr dataItemId)])), w')
    /\ elements (template (context w'))
       = elements (template (context w)) ++ [element]
    /\ data_items (data (context w'))
       = data_items (data (context w))
         ++ [mkDataItem dataItemId ImageItem layer_name None
                        (Some input_image)]
    /\ layerMap (context w') = <[layer_name := elementId]> (layerMap (context w))
    /\ tick w' = S (S (tick w))
    /\ theme (context w') = theme (context w)
    /\ (~ In elementId (forestIds (elements (template (context w)))) ->
        lookupLayer layer_name w' = (Ok (elementId, element), w')).
Proof.
  intros Hname Himage dataItemId elementId.
  unfold handleAddImageLayer. rewrite Hname, Himage. cbv zeta.
  unfold bind, freshId, pushDataItem, pushElement, setLayer, modifyContext,
    ret.
  cbn [fst snd context tick googleFontCache set_context].
  eexists. eexists. split; [reflexivity|].
  cbn [context tick set_context set_layerMap set_template set_data template
       data layerMap theme elements set_elements data_items].
  repeat (split; [reflexivity|]).
  intros Hfresh. unfold lookupLayer, bind, getContext.
  cbn [fst snd context set_context set_layerMap layerMap].
  rewrite lookup_insert_eq.
  fold elementId dataItemId.
  assert (Htruthy : someTruthyStr (Some elementId) = Some elementId)
    by reflexivity.
  rewrite Htruthy.
  cbn [template set_template set_layerMap set_data set_elements elements].
  rewrite findElement_app.
  destruct (findElement (elements (template (context w))) elementId)
    as [found|] eqn:Hfound.
  - apply findElement_Some in Hfound as [_ Hin]. contradiction.
  - unfold findElement. simpl. rewrite String.eqb_refl. reflexivity.
Qed.

Lemma handleAddImageLayer_then_lookup_witness :
  exists w' st,
    handleAddImageLayer sampleHost
      (JObj [stringParam "layer_name" "photo";
             stringParam "input_image" "a.png"])
      (mkWorld (initialContext "s" "S" []) 0 ∅)
    = (Ok (okResult (JObj [("elementId", JStr "elem_1_r");
                           ("dataItemId", JStr "data_0_r")])), w')
    /\ elements (template (context w'))
       = [mkElement "elem_1_r" data_item (Some "data_0_r") None None None
                    (Some st) []].
Proof.
  destruct (handleAddImageLayer_then_lookup sampleHost
              (JObj [stringParam "layer_name" "photo";
                     stringParam "input_image" "a.png"])
              (mkWorld (initialContext "s" "S" []) 0 ∅) "photo" "a.png"
              eq_refl eq_refl) as (w' & st & Hrun & Hels & _).
  exists w', st. split; [exact Hrun | exact Hels].
Defined.

(** ** The markup of a generated scene *)

Lemma find_unique {A : Type} (key : A -> string) (l : list A) (x : A) :
  NoDup (map key l) -> In x l ->
  List.find (fun y => String.eqb (key y) (key x)) l = Some x.
Proof.
  induction l as [|y l IH]; simpl; intros Hnodup Hin; [destruct Hin|].
  apply NoDup_cons in Hnodup as [Hnotin Hnodup].
  destruct (String.eqb_spec (key y) (key x)) as [Heq|Hne].
  - destruct Hin as [->|Hin]; [reflexivity|].
    exfalso. apply Hnotin. rewrite Heq. apply list_elem_of_In, in_map, Hin.
  - destruct Hin as [->|Hin]; [contradiction|]. now apply IH.
Qed.

(** With unique ids, the table of the renderer has each data item under its
    id. *)
Lemma dataItemMapOf_unique (scene : Scene) (item : DataItem) :
  NoDup (map item_id (data_items (scene_data scene))) ->
  In item (data_items (scene_data scene)) ->
  dataItemMapOf scene !! item_id item = Some item.
Proof.
  intros Hnodup Hin. unfold dataItemMapOf. rewrite fold_insert_lookup.
  rewrite (find_unique item_id (rev (data_items (scene_data scene))) item).
  - reflexivity.
  - rewrite map_rev, <- Permutation_rev. exact Hnodup.
  - apply in_rev in Hin. exact Hin.
Qed.

Lemma map_imap {A B C : Type} (g : B -> C) (f : nat -> A -> B) (l : list A) :
  map g (imap f l) = imap (fun i x => g (f i x)) l.
Proof.
  revert f. induction l as [|x l IH]; intros f; simpl; [reflexivity|].
  f_equal. apply IH.
Qed.

Lemma imap_ext_In {A B : Type} (f g : nat -> A -> B) (l : list A) :
  (forall i x, l !! i = Some x -> f i x = g i x) -> imap f l = imap g l.
Proof.
  revert f g. induction l as [|x l IH]; intros f g Hfg; simpl; [reflexivity|].
  f_equal; [apply (Hfg 0%nat), eq_refl|].
  apply IH. intros i y Hy. apply (Hfg (S i)), Hy.
Qed.

Lemma imap_lookup_In {A B : Type} (f : nat -> A -> B) (l : list A) (i : nat)
      (x : A) :
  l !! i = Some x -> In (f i x) (imap f l).
Proof.
  revert f i. induction l as [|y l IH]; intros f i; [discriminate|].
  destruct i as [|i]; simpl.
  - intros [= ->]. now left.
  - intros Hx. right. apply (IH (f ∘ S)), Hx.
Qed.

Lemma generateScene_items_unique (env : Host) (cache : gmap string bool)
      (parsed : SceneGenerator.ParsedScene) (sceneId sceneName : string) :
  NoDup (map item_id
           (data_items
              (scene_data
                 (fst (SceneGenerator.generateScene env cache parsed sceneId
                                                    sceneName))))).
Proof.
  unfold SceneGenerator.generateScene.
  cbn [fst scene_data data_items]. simpl.
  rewrite (imap_keys SceneGenerator.textDataItem item_id
             (fun i => "text_" +:+ showZ (Z.of_nat i + 1))
             (SceneGenerator.textEntries parsed) 0 (fun i x => eq_refl)).
  constructor.
  - intros Hin. apply list_elem_of_In, in_map_iff in Hin as (i & Hi & _).
    discriminate Hi.
  - apply NoDup_map_seq. intros i j Hij.
    change (String "t" (String "e" (String "x" (String "t" (String "_"
              (showZ (Z.of_nat i + 1))))))
            = String "t" (String "e" (String "x" (String "t" (String "_"
                (showZ (Z.of_nat j + 1))))))) in Hij.
    injection Hij as Hij. apply showZ_inj in Hij. lia.
Qed.

(** X24.  The markup that [renderScene] makes of a scene built by
    [generateScene]: the scene container holds the background image and then
    one [div] per text entry, in the order of the entries, whose class is the
    id of the element ([text_N_element], counted from 1) and whose content is
    the text of the entry with each line break as [<br>] and nothing else
    changed (no character is escaped). *)
Theorem renderScene_of_generateScene (env : Host) (cache : gmap string bool)
        (parsed : SceneGenerator.ParsedScene) (sceneId sceneName : string) :
  html (renderScene env
          (fst (SceneGenerator.generateScene env cache parsed sceneId
                                             sceneName)))
  = "<div class=" +:+ dq +:+ "scene-container" +:+ dq +:+ ">" +:+ nl
    +:+ concatStrings
          (backgroundLine :: imap textLine (SceneGenerator.textEntries parsed))
    +:+ "</div>".
Proof.
  pose proof (generateScene_items_unique env cache parsed sceneId sceneName)
    as Hnodup.
  unfold renderScene. cbn [html]. unfold generateHTML.
  set (scene := fst (SceneGenerator.generateScene env cache parsed sceneId
                                                  sceneName)) in *.
  assert (Hitems : data_items (scene_data scene)
                   = SceneGenerator.bgDataItem
                     :: imap SceneGenerator.textDataItem
                             (SceneGenerator.textEntries parsed))
    by reflexivity.
  assert (Hlines :
            map (generateElementHTML (dataItemMapOf scene) 1 "")
                (SceneGenerator.bgElement
                 :: imap (SceneGenerator.textElement env)
                         (SceneGenerator.textEntries parsed))
            = backgroundLine
              :: imap textLine (SceneGenerator.textEntries parsed));
    [|change (elements (scene_template scene))
        with (SceneGenerator.bgElement
              :: imap (SceneGenerator.textElement env)
                      (SceneGenerator.textEntries parsed));
      rewrite Hlines; reflexivity].
  cbn [map]. f_equal.
  - pose proof (dataItemMapOf_unique scene SceneGenerator.bgDataItem Hnodup)
      as Hbg.
    rewrite Hitems in Hbg. specialize (Hbg (or_introl eq_refl)).
    unfold generateElementHTML, generateDataItemHTML. cbn [element_type
      SceneGenerator.bgElement data_item_id]. cbn [String.eqb Ascii.eqb
      Bool.eqb].
    change (item_id SceneGenerator.bgDataItem) with "background_image" in Hbg.
    rewrite Hbg. reflexivity.
  - rewrite map_imap. apply imap_ext_In. intros i entry Hentry.
    pose proof (dataItemMapOf_unique scene
                  (SceneGenerator.textDataItem i entry) Hnodup) as Htext.
    rewrite Hitems in Htext.
    specialize (Htext (or_intror (imap_lookup_In _ _ _ _ Hentry))).
    unfold generateElementHTML, generateDataItemHTML.
    cbn [element_type SceneGenerator.textElement data_item_id].
    change (item_id (SceneGenerator.textDataItem i entry))
      with ("text_" +:+ showZ (Z.of_nat i + 1)) in Htext.
    rewrite Htext.
    change (String.eqb ("text_" +:+ showZ (Z.of_nat i + 1)) "") with false.
    reflexivity.
Qed.

(** ** Fonts and colours named by the styles of a run *)

Lemma resolved_weaken (known known' : list ThemeRef) (c : ExecutionContext) :
  (forall r, In r known' -> In r known) ->
  resolved known c -> resolved known' c.
Proof.
  intros Hsub H r Hr. apply H. apply in_app_or in Hr as [Hr|Hr];
    apply in_or_app; [left; apply Hsub, Hr | now right].
Qed.

Lemma settles_bind {A B : Type} (known : list ThemeRef) (c : M A)
      (k : A -> M B) :
  settles known c -> (forall x, settles known (k x)) ->
  settles known (bind c k).
Proof.
  intros Hc Hk w Hw. unfold bind. specialize (Hc w Hw).
  destruct (c w) as [[x|e] w']; [|exact Hc]. apply (Hk x w' Hc).
Qed.

Lemma yields_bind {A B : Type} (known : list ThemeRef) (ref : A -> ThemeRef)
      (c : M A) (k : A -> M B) :
  yields known ref c -> (forall x, settles (ref x :: known) (k x)) ->
  settles known (bind c k).
Proof.
  intros Hc Hk w Hw. unfold bind. specialize (Hc w Hw).
  destruct (c w) as [[x|e] w']; [|exact Hc].
  apply (resolved_weaken (ref x :: known)); [intros r Hr; now right|].
  apply (Hk x w' Hc).
Qed.

Lemma settles_ret {A : Type} (known : list ThemeRef) (x : A) :
  settles known (ret x).
Proof.
  intros w Hw. exact Hw.
Qed.

Lemma settles_throw {A : Type} (known : list ThemeRef) (e : Error) :
  settles known (@throw A e).
Proof.
  intros w Hw. exact Hw.
Qed.

Lemma settles_getContext (known : list ThemeRef) : settles known getContext.
Proof.
  intros w Hw. exact Hw.
Qed.

Lemma settles_liftResult {A : Type} (known : list ThemeRef) (r : Result A) :
  settles known (liftResult r).
Proof.
  intros w Hw. exact Hw.
Qed.

Lemma settles_freshId (env : Host) (known : list ThemeRef) (prefix : string) :
  settles known (freshId env prefix).
Proof.
  intros w Hw. exact Hw.
Qed.

Lemma settles_modifyContext (known : list ThemeRef)
      (f : ExecutionContext -> ExecutionContext) :
  (forall c, resolved known c -> resolved known (f c)) ->
  settles known (modifyContext f).
Proof.
  intros Hf w Hw. apply Hf, Hw.
Qed.

(** A theme with more fonts and colours has what the smaller one has. *)
Lemma resolved_theme (known : list ThemeRef) (c : ExecutionContext)
      (th : Theme) :
  (forall r, inTheme (theme c) r -> inTheme th r) ->
  resolved known c -> resolved known (set_theme c th).
Proof.
  intros Hth H r Hr. apply Hth, H, Hr.
Qed.

Lemma yields_ensureColor (env : Host) (known : list ThemeRef)
      (color : string) :
  yields known ColorRef (ensureColor env color).
Proof.
  intros w Hw. unfold ensureColor, ensureColorInTheme.
  destruct (hexToRGBA color) as [rgba|e]; [|exact Hw].
  destruct (List.find (sameRGBA rgba) (color_palette (theme (context w))))
    as [existing|] eqn:Hfind.
  - intros r [<-|Hr].
    + simpl. apply find_some in Hfind as [Hin _]. apply in_map, Hin.
    + apply Hw, Hr.
  - destruct (16 <=? List.length (color_palette (theme (context w))))%nat;
      [exact Hw|].
    assert (Hmore : forall r, inTheme (theme (context w)) r ->
                              inTheme
                                (set_color_palette (theme (context w))
                                   (color_palette (theme (context w))
                                    ++ [mkColor (generateId env (tick w) "color")
                                          ("color_" +:+ showZ
                                             (Z.of_nat
                                                (List.length
                                                   (color_palette
                                                      (theme (context w))))
                                              + 1))
                                          (rgba_r rgba) (rgba_g rgba)
                                          (rgba_b rgba) (rgba_a rgba)]) ) r).
    { intros [f|x]; simpl; [auto|]. rewrite map_app. intros Hin.
      apply in_or_app. now left. }
    intros r [<-|Hr].
    + simpl. rewrite map_app. apply in_or_app. right. now left.
    + apply (resolved_theme known (context w) _ Hmore Hw), Hr.
Qed.

Lemma yields_ensureFont (env : Host) (known : list ThemeRef)
      (fontName : string) :
  yields known FontRef (ensureFont env fontName).
Proof.
  intros w Hw. unfold ensureFont, ensureFontInTheme.
  destruct (List.find _ (font_palette (theme (context w))))
    as [existing|] eqn:Hfind.
  - intros r [<-|Hr].
    + simpl. apply find_some in Hfind as [Hin _]. apply in_map, Hin.
    + apply Hw, Hr.
  - destruct (8 <=? List.length (font_palette (theme (context w))))%nat;
      [exact Hw|].
    assert (Hmore : forall r, inTheme (theme (context w)) r ->
                              inTheme
                                (set_font_palette (theme (context w))
                                   (font_palette (theme (context w))
                                    ++ [mkFont (generateId env (tick w) "font")
                                          fontName
                                          (fst (getFontUrl env
                                                  (googleFontCache w)
                                                  fontName))])) r).
    { intros [f|x]; simpl; [|auto]. rewrite map_app. intros Hin.
      apply in_or_app. now left. }
    intros r [<-|Hr].
    + simpl. rewrite map_app. apply in_or_app. right. now left.
    + apply (resolved_theme known (context w) _ Hmore Hw), Hr.
Qed.

Lemma yields_settles {A : Type} (known : list ThemeRef) (ref : A -> ThemeRef)
      (c : M A) :
  yields known ref c -> settles known c.
Proof.
  intros Hc w Hw. specialize (Hc w Hw).
  destruct (c w) as [[x|e] w']; [|exact Hc].
  apply (resolved_weaken (ref x :: known)); [intros r Hr; now right|].
  exact Hc.
Qed.

(** A new element whose style names only what is known. *)
Lemma settles_pushElement (known : list ThemeRef) (element : Element) :
  (forall r, In r (subtreeLabels themeRefs element) -> In r known) ->
  settles known (pushElement element).
Proof.
  intros Hnew. apply settles_modifyContext. intros c H r Hr.
  apply H. apply in_app_or in Hr as [Hr|Hr]; apply in_or_app; [now left|].
  simpl in Hr. unfold forestLabels in Hr. rewrite flat_map_app in Hr.
  apply in_app_or in Hr as [Hr|Hr]; [now right|].
  simpl in Hr. rewrite app_nil_r in Hr. left. apply Hnew, Hr.
Qed.

(** A new element without children. *)
Lemma settles_pushStyled (known : list ThemeRef) (id : string)
      (type : ElementType) (d : option string) (sh : option ShapeType)
      (sv im : option string) (st : ElementStyle) :
  (forall r, In r (styleRefs st) -> In r known) ->
  settles known (pushElement (mkElement id type d sh sv im (Some st) [])).
Proof.
  intros Hnew. apply settles_pushElement. intros r Hr.
  cbn [subtreeLabels children flat_map] in Hr. rewrite app_nil_r in Hr.
  apply Hnew, Hr.
Qed.

(** Setting a property of a style adds at most its value to what the style
    names. *)
Lemma styleRefs_styleSet (key value : string) (st : ElementStyle)
      (r : ThemeRef) :
  In r (styleRefs (styleSet key value st)) ->
  In r (styleRefs st)
  \/ (key = "font" /\ r = FontRef value)
  \/ (In key colorKeys /\ r = ColorRef value).
Proof.
  assert (Hpart : forall (tag : string -> ThemeRef) k',
             In r (match styleGet k' (styleSet key value st) with
                   | Some c => [tag c]
                   | None => []
                   end) ->
             In r (match styleGet k' st with
                   | Some c => [tag c]
                   | None => []
                   end)
             \/ (key = k' /\ r = tag value)).
  { intros tag k'. rewrite styleGet_styleSet.
    destruct (String.eqb_spec key k') as [->|_]; [|now left].
    intros [<-|[]]. right. split; reflexivity. }
  unfold styleRefs. intros Hr. apply in_app_or in Hr as [Hr|Hr].
  - apply Hpart in Hr as [Hr|[-> ->]].
    + left. apply in_or_app. now left.
    + right. left. split; reflexivity.
  - apply in_flat_map in Hr as (k' & Hk' & Hr).
    apply Hpart in Hr as [Hr|[-> ->]].
    + left. apply in_or_app. right. apply in_flat_map. now exists k'.
    + right. right. split; [exact Hk' | reflexivity].
Qed.

(** A change in place of the element found adds to the labels of the array
    at most what it adds to the labels of that element. *)
Lemma updateElement_adds {L : Type} (label : Element -> list L)
      (P : L -> Prop) (f : Element -> Element) (elementId : string)
      (elements elements' : list Element) :
  (forall e cs, label (set_children e cs) = label e) ->
  (forall e, children (f e) = children e) ->
  (forall e x, In x (label (f e)) -> In x (label e) \/ P x) ->
  updateElement f elements elementId = Some elements' ->
  forall x, In x (forestLabels label elements') ->
            In x (forestLabels label elements) \/ P x.
Proof.
  intros Hlabel Hchildren Hf.
  assert (Hhere : forall e x, In x (subtreeLabels label (f e)) ->
                              In x (subtreeLabels label e) \/ P x).
  { intros e x. rewrite !subtreeLabels_unfold, Hchildren. intros Hx.
    apply in_app_or in Hx as [Hx|Hx].
    - apply Hf in Hx as [Hx|Hx]; [left; apply in_or_app; now left | now right].
    - left. apply in_or_app. now right. }
  assert (Hlist : forall l,
             Forall (fun e => forall e',
                         updateWithin f elementId e = Some (tt, e') ->
                         forall x, In x (subtreeLabels label e') ->
                                   In x (subtreeLabels label e) \/ P x) l ->
             forall l',
               changeFirst (updateHere f elementId) (updateWithin f elementId) l
               = Some (tt, l') ->
               forall x, In x (forestLabels label l') ->
                         In x (forestLabels label l) \/ P x).
  { intros l Hall. induction Hall as [|e l He Hall IH]; intros l'.
    - discriminate.
    - simpl changeFirst. unfold updateHere at 1.
      destruct (String.eqb (element_id e) elementId).
      + intros [= <-] x Hx. unfold forestLabels in *. simpl in *.
        apply in_app_or in Hx as [Hx|Hx].
        * apply Hhere in Hx as [Hx|Hx]; [left|now right].
          apply in_or_app. now left.
        * left. apply in_or_app. now right.
      + destruct (updateWithin f elementId e) as [[[] e']|] eqn:Hw.
        * intros [= <-] x Hx. unfold forestLabels in *. simpl in *.
          apply in_app_or in Hx as [Hx|Hx].
          -- apply (He _ eq_refl) in Hx as [Hx|Hx]; [left|now right].
             apply in_or_app. now left.
          -- left. apply in_or_app. now right.
        * destruct (changeFirst _ _ l) as [[[] rest']|] eqn:Hrest;
            [|discriminate].
          intros [= <-] x Hx. unfold forestLabels in *. simpl in *.
          apply in_app_or in Hx as [Hx|Hx].
          -- left. apply in_or_app. now left.
          -- apply (IH _ eq_refl) in Hx as [Hx|Hx]; [left|now right].
             apply in_or_app. now right. }
  assert (Hel : forall e e',
             updateWithin f elementId e = Some (tt, e') ->
             forall x, In x (subtreeLabels label e') ->
                       In x (subtreeLabels label e) \/ P x).
  { induction e as [e IH] using Element_nested_ind. intros e'.
    rewrite (subtreeLabels_unfold label e).
    destruct e as [i t d sh sv im st cs]. simpl updateWithin. simpl children.
    destruct (is_container _); [|discriminate].
    destruct (changeFirst _ _ cs) as [[[] cs']|] eqn:Hcs; [|discriminate].
    intros [= <-] x. rewrite (subtreeLabels_unfold label (set_children _ _)),
      Hlabel. simpl children. intros Hx.
    apply in_app_or in Hx as [Hx|Hx].
    - left. apply in_or_app. now left.
    - apply (Hlist _ IH _ Hcs) in Hx as [Hx|Hx]; [left|now right].
      apply in_or_app. now right. }
  unfold updateElement.
  destruct (changeFirst _ _ elements) as [[[] l']|] eqn:Hch; [|discriminate].
  intros [= <-]. apply (Hlist elements); [|exact Hch].
  apply List.Forall_forall. intros e _. apply Hel.
Qed.

Lemma themeRefs_set_children (e : Element) (cs : list Element) :
  themeRefs (set_children e cs) = themeRefs e.
Proof.
  reflexivity.
Qed.

(** A change of the style of an element that names nothing but what the
    style named and what is known. *)
Lemma settles_mutateElement (known : list ThemeRef) (elementId : string)
      (f : Element -> Element) :
  (forall e, children (f e) = children e) ->
  (forall e r, In r (themeRefs (f e)) -> In r (themeRefs e) \/ In r known) ->
  settles known (mutateElement elementId f).
Proof.
  intros Hchildren Hf. apply settles_modifyContext. intros c H.
  destruct (updateElement f (elements (template c)) elementId) as [els'|]
    eqn:Hupd; [|exact H].
  intros r Hr. apply H. apply in_app_or in Hr as [Hr|Hr];
    apply in_or_app; [now left|].
  simpl in Hr.
  destruct (updateElement_adds themeRefs (fun r => In r known) f elementId _ _
              themeRefs_set_children Hchildren Hf Hupd r Hr) as [Hold|Hknown];
    [now right | now left].
Qed.

Lemma themeRefs_setStyleProperty (key value : string) (e : Element)
      (r : ThemeRef) :
  In r (themeRefs (setStyleProperty key value e)) ->
  In r (themeRefs e)
  \/ (key = "font" /\ r = FontRef value)
  \/ (In key colorKeys /\ r = ColorRef value).
Proof.
  unfold themeRefs, setStyleProperty. cbn [style set_style]. intros Hr.
  apply styleRefs_styleSet in Hr as [Hr|Hr]; [|now right].
  destruct (style e) as [st|]; [now left|].
  simpl in Hr. destruct Hr.
Qed.

(** A property that is neither [font] nor a colour property. *)
Lemma themeRefs_other_property (key value : string) (e : Element)
      (r : ThemeRef) :
  String.eqb key "font" = false -> existsb (String.eqb key) colorKeys = false ->
  In r (themeRefs (setStyleProperty key value e)) -> In r (themeRefs e).
Proof.
  intros Hfont Hcolor Hr.
  apply themeRefs_setStyleProperty in Hr as [Hr|[[-> _]|[Hin _]]].
  - exact Hr.
  - discriminate Hfont.
  - exfalso. assert (Hex : existsb (String.eqb key) colorKeys = true).
    { apply existsb_exists. exists key. split; [exact Hin|].
      apply String.eqb_refl. }
    congruence.
Qed.

Lemma settles_bind_ret {A B : Type} (known : list ThemeRef) (x : A)
      (k : A -> M B) :
  settles known (k x) -> settles known (bind (ret x) k).
Proof.
  intros H. exact H.
Qed.

Lemma settles_bind_bind {A B C : Type} (known : list ThemeRef) (c : M A)
      (k1 : A -> M B) (k2 : B -> M C) :
  settles known (bind c (fun x => bind (k1 x) k2)) ->
  settles known (bind (bind c k1) k2).
Proof.
  intros H w Hw. specialize (H w Hw). unfold bind in *.
  destruct (c w) as [[x|e] w1]; exact H.
Qed.

Ltac settles_step :=
  cbv zeta;
  first [ apply settles_ret | apply settles_throw | apply settles_getContext
        | apply settles_liftResult | apply settles_freshId
        | apply settles_modifyContext; intros ? H; exact H
        | eapply yields_bind; [apply yields_ensureColor | intros ?]
        | eapply yields_bind; [apply yields_ensureFont | intros ?]
        | apply settles_bind; [|intros ?]
        | match goal with
          | |- settles _ (match ?x with _ => _ end) => destruct x eqn:?
          | |- settles _ (if ?x then _ else _) => destruct x eqn:?
          end ].

(** What a style that is built from a literal by setting properties names. *)
Ltac style_names H :=
  repeat match type of H with
         | context [if ?b then _ else _] => destruct b
         | context [match ?o with Some _ => _ | None => _ end] => destruct o
         end;
  repeat (apply styleRefs_styleSet in H as [H|[[Hk _]|[Hk _]]];
          [ | discriminate Hk
            | simpl in Hk; exfalso; intuition discriminate ]);
  simpl in H; intuition (subst; simpl; auto).

Lemma settles_handleCreateCanvas (env : Host) (params : JValue) :
  settles [] (handleCreateCanvas env params).
Proof.
  unfold handleCreateCanvas.
  destruct (someTruthyNum (numField "width" params)); [|apply settles_throw].
  destruct (someTruthyNum (numField "height" params)); [|apply settles_throw].
  apply settles_bind; [apply settles_modifyContext; intros ? H; exact H|].
  intros _. apply settles_bind; [|intros _; apply settles_ret].
  destruct (someTruthyStr (strField "background_color" params));
    [|apply settles_ret].
  eapply yields_bind; [apply yields_ensureColor|]. intros colorId.
  apply settles_bind; [apply settles_freshId|]. intros elementId.
  apply settles_pushStyled. intros r Hr. style_names Hr.
Qed.

Lemma settles_textLayerPosition (env : Host) (known : list ThemeRef)
      (params : JValue) (sizeValue : SizeValue) :
  settles known (textLayerPosition env params sizeValue).
Proof.
  unfold textLayerPosition. repeat settles_step.
Qed.

Lemma settles_handleAddTextLayer (env : Host) (params : JValue) :
  settles [] (handleAddTextLayer env params).
Proof.
  unfold handleAddTextLayer, pushDataItem, setLayer.
  destruct (someTruthyStr (strField "layer_name" params)) as [layer_name|];
    [|apply settles_throw].
  destruct (orElse _ _) as [textValue|]; [|apply settles_throw].
  cbv zeta.
  eapply yields_bind; [apply yields_ensureFont|]. intros fontId.
  eapply yields_bind; [apply yields_ensureColor|]. intros colorId.
  apply settles_bind; [apply settles_freshId|]. intros dataItemId.
  apply settles_bind; [apply settles_modifyContext; intros ? H; exact H|].
  intros _.
  apply settles_bind; [apply settles_textLayerPosition|]. intros position.
  apply settles_bind; [apply settles_freshId|]. intros elementId.
  assert (Hrest : forall known style4,
             (forall r, In r (styleRefs style4) ->
                        r = FontRef fontId \/ r = ColorRef colorId) ->
             (forall r, r = FontRef fontId \/ r = ColorRef colorId ->
                        In r known) ->
             settles known
               (run pushElement
                      (mkElement elementId data_item (Some dataItemId) None None
                                 None (Some style4) []);
                run modifyContext
                      (fun c => set_layerMap c (<[layer_name := elementId]>
                                                  (layerMap c)));
                ret (okResult (JObj [("elementId", JStr elementId);
                                     ("dataItemId", JStr dataItemId)])))).
  { intros known style4 Hstyle Hknown.
    apply settles_bind; [|intros _; repeat settles_step].
    apply settles_pushStyled. intros r Hr. apply Hknown, Hstyle, Hr. }
  destruct (flagField "shadow_enabled" params).
  - apply settles_bind_bind.
    eapply yields_bind; [apply yields_ensureColor|]. intros shadowId.
    apply settles_bind_ret. apply Hrest.
    + intros r Hr. style_names Hr.
    + intros r [->| ->]; simpl; auto.
  - apply settles_bind_ret. apply Hrest.
    + intros r Hr. style_names Hr.
    + intros r [->| ->]; simpl; auto.
Qed.

Lemma settles_handleAddImageLayer (env : Host) (params : JValue) :
  settles [] (handleAddImageLayer env params).
Proof.
  unfold handleAddImageLayer, pushDataItem, setLayer.
  destruct (someTruthyStr (strField "layer_name" params)) as [layer_name|];
    [|apply settles_throw].
  destruct (someTruthyStr (strField "input_image" params)) as [input_image|];
    [|apply settles_throw].
  cbv zeta.
  apply settles_bind; [apply settles_freshId|]. intros dataItemId.
  apply settles_bind; [apply settles_modifyContext; intros ? H; exact H|].
  intros _.
  apply settles_bind; [apply settles_freshId|]. intros elementId.
  apply settles_bind; [|intros _; repeat settles_step].
  apply settles_pushStyled. intros r Hr. style_names Hr.
Qed.

Lemma settles_handleCreateFlexContainer (env : Host) (params : JValue) :
  settles [] (handleCreateFlexContainer env params).
Proof.
  unfold handleCreateFlexContainer, setLayer.
  destruct (someTruthyStr (strField "container_name" params))
    as [container_name|]; [|apply settles_throw].
  cbv zeta.
  apply settles_bind; [apply settles_freshId|]. intros elementId.
  apply settles_bind; [|intros _; repeat settles_step].
  apply settles_pushStyled. intros r Hr. style_names Hr.
Qed.

Lemma settles_lookupLayer (known : list ThemeRef) (layer_name : string) :
  settles known (lookupLayer layer_name).
Proof.
  unfold lookupLayer. repeat settles_step.
Qed.

(** Setting a property that is neither [font] nor a colour property. *)
Lemma settles_restyle (known : list ThemeRef) (elementId key value : string) :
  String.eqb key "font" = false ->
  existsb (String.eqb key) colorKeys = false ->
  settles known (mutateElement elementId (setStyleProperty key value)).
Proof.
  intros Hfont Hcolor. apply settles_mutateElement; [reflexivity|].
  intros e r Hr. left.
  apply (themeRefs_other_property key value e r Hfont Hcolor Hr).
Qed.

Lemma settles_handleSetLayerVisibility (params : JValue) :
  settles [] (handleSetLayerVisibility params).
Proof.
  unfold handleSetLayerVisibility.
  destruct (someTruthyStr (strField "layer_name" params)) as [layer_name|];
    [|apply settles_throw].
  destruct (field "visible" params) as [visible|]; [|apply settles_throw].
  apply settles_bind; [apply settles_lookupLayer|]. intros found.
  apply settles_bind; [|intros _; apply settles_ret].
  apply settles_restyle; reflexivity.
Qed.

Lemma settles_handleEditTextLayer (env : Host) (params : JValue) :
  settles [] (handleEditTextLayer env params).
Proof.
  unfold handleEditTextLayer.
  destruct (someTruthyStr (strField "layer_name" params)) as [layer_name|];
    [|apply settles_throw].
  apply settles_bind; [apply settles_lookupLayer|]. intros found. cbv zeta.
  destruct (negb (is_data_item (snd found))); [apply settles_throw|].
  apply settles_bind; [apply settles_getContext|]. intros c.
  destruct (match data_item_id (snd found) with
            | Some id => findDataItem (data_items (data c)) id
            | None => None
            end) as [dataItem|]; [|apply settles_throw].
  destruct (item_type dataItem); [|apply settles_throw].
  apply settles_bind;
    [destruct (strField "text_content" params);
     [apply settles_modifyContext; intros ? H; exact H | apply settles_ret]|].
  intros _. apply settles_bind.
  { apply settles_mutateElement; [reflexivity|]. intros e r Hr. left.
    unfold themeRefs, initStyle in *. cbn [style set_style] in Hr.
    destruct (style e); [exact Hr | destruct Hr]. }
  intros _. apply settles_bind.
  { destruct (strField "font_name" params) as [font_name|];
      [|apply settles_ret].
    eapply yields_bind; [apply yields_ensureFont|]. intros fontId.
    apply settles_mutateElement; [reflexivity|]. intros e r Hr.
    apply themeRefs_setStyleProperty in Hr as [Hr|[[_ ->]|[Hk _]]].
    - now left.
    - right. now left.
    - simpl in Hk. exfalso. intuition discriminate. }
  intros _. apply settles_bind.
  { destruct (lengthField "font_size" params); [|apply settles_ret].
    apply settles_restyle; reflexivity. }
  intros _. apply settles_bind.
  { destruct (strField "color" params) as [color|]; [|apply settles_ret].
    eapply yields_bind; [apply yields_ensureColor|]. intros colorId.
    apply settles_mutateElement; [reflexivity|]. intros e r Hr.
    apply themeRefs_setStyleProperty in Hr as [Hr|[[Hk _]|[_ ->]]].
    - now left.
    - discriminate Hk.
    - right. now left. }
  intros _. apply settles_bind; [|intros _; apply settles_ret].
  destruct (strField "text_align" params); [|apply settles_ret].
  apply settles_restyle; reflexivity.
Qed.

Lemma settles_handleSetFlexLayout (env : Host) (params : JValue) :
  settles [] (handleSetFlexLayout env params).
Proof.
  unfold handleSetFlexLayout.
  destruct (someTruthyStr (strField "container_name" params))
    as [container_name|]; [|apply settles_throw].
  apply settles_bind; [apply settles_getContext|]. intros c.
  destruct (someTruthyStr (layerMap c !! container_name))
    as [containerElementId|]; [|apply settles_throw].
  destruct (findElement (elements (template c)) containerElementId)
    as [found|]; [|apply settles_throw].
  destruct (negb (is_container found)); [apply settles_throw|].
  cbv zeta. apply settles_bind; [|intros _; apply settles_ret].
  apply settles_mutateElement.
  - intros e.
    destruct (option_map (pxOrString env) (lengthField "gap" params));
      destruct (strField "align" params); destruct (strField "justify" params);
      destruct (strField "direction" params); reflexivity.
  - intros e r Hr. left.
    destruct (option_map (pxOrString env) (lengthField "gap" params));
      destruct (strField "align" params); destruct (strField "justify" params);
      destruct (strField "direction" params);
      repeat (apply themeRefs_other_property in Hr; [|reflexivity..]);
      exact Hr.
Qed.

Lemma settles_handleAddLayerToContainer (params : JValue) :
  settles [] (handleAddLayerToContainer params).
Proof.
  unfold handleAddLayerToContainer.
  destruct (someTruthyStr (strField "layer_name" params)) as [layer_name|];
    [|apply settles_throw].
  destruct (someTruthyStr (strField "container_name" params))
    as [container_name|]; [|apply settles_throw].
  apply settles_bind; [apply settles_getContext|]. intros c.
  destruct (someTruthyStr (layerMap c !! layer_name)) as [layerElementId|];
    [|apply settles_throw].
  destruct (someTruthyStr (layerMap c !! container_name))
    as [containerElementId|]; [|apply settles_throw].
  apply settles_bind; [|intros _; apply settles_ret].
  intros w Hw.
  pose proof (addElementToContainer_no_more themeRefs
                (template (context w)) layerElementId containerElementId
                themeRefs_set_children) as [Hless _].
  destruct (addElementToContainer (template (context w)) layerElementId
              containerElementId) as [res template']; simpl in *.
  intros r Hr. apply Hw. apply in_app_or in Hr as [Hr|Hr];
    apply in_or_app; [now left | right].
  apply list_elem_of_In. eapply elem_of_submseteq; [|exact Hless].
  apply list_elem_of_In, Hr.
Qed.

Lemma settles_handleDeleteLayer (params : JValue) :
  settles [] (handleDeleteLayer params).
Proof.
  unfold handleDeleteLayer.
  destruct (someTruthyStr (strField "layer_name" params)) as [layer_name|];
    [|apply settles_throw].
  intros w Hw. unfold lookupLayer, bind, getContext, throw, ret.
  destruct (someTruthyStr (layerMap (context w) !! layer_name))
    as [elementId|]; [|exact Hw].
  destruct (findElement (elements (template (context w))) elementId)
    as [element|]; [|exact Hw].
  cbn [fst snd].
  assert (Hremoved : forall c,
             template c = template (context w) -> theme c = theme (context w) ->
             match removeElementFromTemplate (template c) elementId with
             | Some (_, template') =>
                 resolved [] (set_layerMap (set_template c template')
                                           (delete layer_name (layerMap c)))
             | None => True
             end).
  { intros c Htemplate Htheme. rewrite Htemplate.
    unfold removeElementFromTemplate.
    destruct (removeElementFromArray (elements (template (context w)))
                                     elementId) as [[x els']|] eqn:Hrem;
      [|exact I].
    pose proof (removeElementFromArray_labels themeRefs themeRefs_set_children
                  _ _ _ _ Hrem) as Hperm.
    intros r Hr. simpl in Hr. unfold inTheme. simpl theme. rewrite Htheme.
    apply Hw. simpl. eapply Permutation_in; [symmetry; exact Hperm|].
    apply in_or_app. now right. }
  destruct (if is_data_item element
            then someTruthyStr (data_item_id element) else None);
    unfold modifyContext; cbn [fst snd context set_context].
  - match goal with
    | |- context [removeElementFromTemplate (template ?c) _] =>
        pose proof (Hremoved c eq_refl eq_refl) as Hafter;
        destruct (removeElementFromTemplate (template c) elementId)
          as [[x template']|]
    end; [exact Hafter | exact Hw].
  - match goal with
    | |- context [removeElementFromTemplate (template ?c) _] =>
        pose proof (Hremoved c eq_refl eq_refl) as Hafter;
        destruct (removeElementFromTemplate (template c) elementId)
          as [[x template']|]
    end; [exact Hafter | exact Hw].
Qed.

(** The registry gives each of the embedded operations a handler that keeps
    the fonts and the colours of the styles in the theme. *)
Lemma embedded_handler_settles (env : Host)
      (rest : string -> option OperationHandler) (name : string) :
  In name embeddedOperations ->
  exists handler,
    OPERATION_HANDLERS env (moreHandlers env rest) name = Some handler
    /\ forall params, settles [] (handler params).
Proof.
  intros Hin. simpl in Hin.
  repeat match type of Hin with
         | _ \/ _ => destruct Hin as [<-|Hin]
         | False => destruct Hin
         end;
    eexists; (split; [reflexivity|]); intros params;
    first [ apply settles_handleCreateCanvas
          | apply settles_handleAddImageLayer
          | apply settles_handleAddTextLayer
          | apply settles_handleEditTextLayer
          | apply settles_handleSetLayerVisibility
          | apply settles_handleDeleteLayer
          | apply settles_handleCreateFlexContainer
          | apply settles_handleAddLayerToContainer
          | apply settles_handleSetFlexLayout | apply settles_throw ].
Qed.

Lemma executeSteps_resolved (env : Host)
      (rest : string -> option OperationHandler) (ops : list Operation)
      (r : Run) :
  Forall (fun op => In (operation op) embeddedOperations) ops ->
  resolved [] (context (world r)) ->
  resolved [] (context (world (snd (executeSteps env (moreHandlers env rest)
                                                 ops r)))).
Proof.
  intros Hall. revert r. induction Hall as [|op ops Hop _ IH]; intros r Hr.
  - exact Hr.
  - simpl.
    assert (Hstep : resolved []
                      (context (world (snd (executeStep env
                                              (moreHandlers env rest) op r))))).
    { destruct (embedded_handler_settles env rest _ Hop)
        as (handler & Hh & Hsettles).
      unfold executeStep. rewrite Hh.
      destruct (resolveParameters _ (parameters op)) as [resolved0|e];
        [|exact Hr].
      cbn [world send].
      match goal with
      | |- context [handler resolved0 ?w] =>
          pose proof (Hsettles resolved0 w Hr) as Hafter;
          destruct (handler resolved0 w) as [[result|e] w3]
      end; [|exact Hafter].
      destruct (negb (success result)); [exact Hafter|].
      destruct (output result); exact Hafter. }
    destruct (executeStep env (moreHandlers env rest) op r) as [[[]|e] r1];
      [apply IH, Hstep | exact Hstep].
Qed.

(** X25.  In the context that a run made of the operations whose handlers
    are embedded leaves, every style names fonts and colours of the theme:
    the [font] of a style is the id of a font of the palette, and its
    [color], [fill], [background_color] and [border_color] are ids of colours
    of the palette, so that the renderer finds each of them in its tables. *)
Theorem executeOperations_styles_resolve (env : Host)
        (rest : string -> option OperationHandler)
        (saveSceneToDirectory : ExecutionContext -> Result string)
        (tick0 : nat) (cache0 : gmap string bool) (sceneId sceneName : string)
        (operations : list Operation) :
  Forall (fun op => In (operation op) embeddedOperations) operations ->
  let c := context (world (executeOperations env (moreHandlers env rest)
                             saveSceneToDirectory tick0 cache0 sceneId
                             sceneName operations)) in
  Forall (fun e =>
            forall st,
              style e = Some st ->
              (forall f, styleGet "font" st = Some f ->
                         In f (map font_id (font_palette (theme c))))
              /\ (forall key x,
                     In key colorKeys -> styleGet key st = Some x ->
                     In x (map color_id (color_palette (theme c)))))
         (forestNodes (elements (template c))).
Proof.
  intros Hall c.
  assert (Hresolved : resolved [] c).
  { subst c. rewrite executeOperations_world.
    apply executeSteps_resolved; [exact Hall|]. intros r [].  }
  apply List.Forall_forall. intros e He st Hst.
  assert (Hrefs : forall r, In r (styleRefs st) -> inTheme (theme c) r).
  { intros r Hr. apply Hresolved. simpl. unfold forestLabels, forestNodes in *.
    apply in_flat_map in He as (root & Hroot & He).
    apply in_flat_map. exists root. split; [exact Hroot|].
    rewrite subtreeLabels_nodes. apply in_flat_map. exists e.
    split; [exact He|]. unfold themeRefs. now rewrite Hst. }
  split.
  - intros f Hf. apply (Hrefs (FontRef f)). unfold styleRefs. rewrite Hf.
    now left.
  - intros key x Hkey Hx. apply (Hrefs (ColorRef x)). unfold styleRefs.
    apply in_or_app. right. apply in_flat_map. exists key.
    split; [exact Hkey|]. rewrite Hx. now left.
Qed.

Lemma executeOperations_styles_resolve_witness :
  let c := context (world (executeOperations sampleHost
                             (moreHandlers sampleHost (fun _ => None))
                             (fun _ => Ok "scenes/s") 0 ∅ "s" "S"
                             scenarioOperations)) in
  Forall (fun e =>
            forall st,
              style e = Some st ->
              (forall f, styleGet "font" st = Some f ->
                         In f (map font_id (font_palette (theme c))))
              /\ (forall key x,
                     In key colorKeys -> styleGet key st = Some x ->
                     In x (map color_id (color_palette (theme c)))))
         (forestNodes (elements (template c))).
Proof.
  apply (executeOperations_styles_resolve sampleHost (fun _ => None)
           (fun _ => Ok "scenes/s") 0 ∅ "s" "S" scenarioOperations).
  apply (bool_decide_unpack _). vm_compute. exact I.
Defined.
